(** * Live polling session server (server.js): model and verified properties

    The server keeps one session in module-level variables and reacts to
    socket events.  Each handler is embedded as a function from the session
    state to a new state and the list of effects it performs on the
    socket.io gateway, in the order the source performs them.  The interval
    timer of the Node runtime is part of the state: a handle is live from
    [setInterval] until [clearInterval], and only a live handle fires. *)

From Stdlib Require Import ZArith List String Bool Arith Lia Sorted.
From Stdlib.Floats Require Import SpecFloat.
Import ListNotations.

Local Open Scope string_scope.
Local Open Scope list_scope.

(** ** JavaScript [Map] with string keys

    A [Map] iterates in insertion order; [set] on a present key replaces the
    value in place and [set] on a new key appends.  Order is observable here
    (first match in [kickStudent], order of the broadcast name list, order
    of the result records), hence an association list. *)

Module JSMap.

Section Ops.
Context {V : Type}.

Definition t := list (string * V).

Definition empty : t := [].

Fixpoint get (k : string) (m : t) : option V :=
  match m with
  | [] => None
  | (k', v) :: m' => if String.eqb k' k then Some v else get k m'
  end.

Definition has (k : string) (m : t) : bool :=
  match get k m with Some _ => true | None => false end.

Fixpoint set (k : string) (v : V) (m : t) : t :=
  match m with
  | [] => [(k, v)]
  | (k', v') :: m' =>
      if String.eqb k' k then (k', v) :: m' else (k', v') :: set k v m'
  end.

Fixpoint delete (k : string) (m : t) : t :=
  match m with
  | [] => []
  | (k', v') :: m' =>
      if String.eqb k' k then m' else (k', v') :: delete k m'
  end.

Definition keys (m : t) : list string := map fst m.
Definition values (m : t) : list V := map snd m.
Definition entries (m : t) : list (string * V) := m.
Definition size (m : t) : nat := List.length m.
End Ops.

Arguments t : clear implicits.

End JSMap.

(** ** IEEE 754 binary64 numbers

    JavaScript numbers are doubles.  Counts and sizes are small integers and
    are kept as [nat]; the percentage expression
    [Math.round((count / totalAnswers) * 100)] is evaluated in binary64,
    where the product can fall just below an exact tie; the time left is an
    integer that a time limit beyond 2^53 takes out of the range in which
    subtracting 1 is exact. *)

Module Double.

Definition prec : Z := 53.
Definition emax : Z := 1024.

Definition of_Z (z : Z) : spec_float := binary_normalize prec emax z 0 false.
Definition of_nat (n : nat) : spec_float := of_Z (Z.of_nat n).
Definition div : spec_float -> spec_float -> spec_float := SFdiv prec emax.
Definition mul : spec_float -> spec_float -> spec_float := SFmul prec emax.
Definition sub : spec_float -> spec_float -> spec_float := SFsub prec emax.

(** The integer a number holds, when it holds one. *)
Definition to_Z (x : spec_float) : option Z :=
  match x with
  | S754_zero _ => Some 0%Z
  | S754_finite s m e =>
      let v := if s then Z.neg m else Z.pos m in
      match e with
      | Z.neg p =>
          if (v mod 2 ^ Z.pos p =? 0)%Z then Some (v / 2 ^ Z.pos p)%Z else None
      | _ => Some (v * 2 ^ e)%Z
      end
  | _ => None
  end.

(** The integers that are binary64 values. *)
Definition holds (n : Z) : bool :=
  match to_Z (of_Z n) with
  | Some m => (m =? n)%Z
  | None => false
  end.

(** [Math.round]: the nearest integer, ties towards plus infinity, that is
    the floor of [x + 1/2] computed exactly.  [NaN] and the infinities are
    returned unchanged by JavaScript; they cannot arise from a quotient of a
    count by a positive size, and [0] stands for them here. *)
Definition Math_round (x : spec_float) : Z :=
  match x with
  | S754_finite s m e =>
      let v := if s then Z.neg m else Z.pos m in
      match e with
      | Z.neg p => ((2 * v + 2 ^ Z.pos p) / 2 ^ (Z.pos p + 1))%Z
      | _ => (v * 2 ^ e)%Z
      end
  | _ => 0%Z
  end.

End Double.

(** ** Data model *)

Inductive Role := teacher | student.

Definition Role_eqb (a b : Role) : bool :=
  match a, b with
  | teacher, teacher | student, student => true
  | _, _ => false
  end.

Record Participant := { name : string; role : Role }.

(** The payload of [startQuestion], as the handler receives it; the time
    limit is a number that holds an integer. *)
Record QuestionInput := {
  in_id : string;
  in_text : string;
  in_options : list string;
  in_timeLimit : Z
}.

(** [currentQuestion]: the payload spread together with [questionNumber]. *)
Record Question := {
  q_id : string;
  q_text : string;
  q_options : list string;
  q_timeLimit : Z;
  q_questionNumber : nat
}.

(** One record of the array returned by [calculateResults]. *)
Record Result := { r_option : string; r_count : nat; r_percentage : Z }.

(** The payload of [pollResults] ([resultsWithQuestionNumber]). *)
Record PollResults := {
  results : list Result;
  pr_questionNumber : nat;
  pr_questionId : string;
  pr_questionText : string
}.

(** The payload of [submitAnswer]. *)
Record AnswerData := { questionId : string; answer : string; studentName : string }.

(** The module-level variables of server.js, and the interval timers of the
    runtime: [intervals] holds the handles that are scheduled, [nextHandle]
    the next handle [setInterval] returns. *)
Record State := {
  currentQuestion : option Question;
  participants : JSMap.t Participant;
  answers : JSMap.t (JSMap.t string);
  questionTimer : option nat;
  timeLeft : Z;
  questionNumber : nat;
  questionHistory : JSMap.t nat;
  intervals : list nat;
  nextHandle : nat
}.

Definition initial : State := {|
  currentQuestion := None;
  participants := JSMap.empty;
  answers := JSMap.empty;
  questionTimer := None;
  timeLeft := 0;
  questionNumber := 0;
  questionHistory := JSMap.empty;
  intervals := [];
  nextHandle := 0
|}.

Definition with_currentQuestion (q : option Question) (s : State) : State :=
  {| currentQuestion := q; participants := participants s; answers := answers s;
     questionTimer := questionTimer s; timeLeft := timeLeft s;
     questionNumber := questionNumber s; questionHistory := questionHistory s;
     intervals := intervals s; nextHandle := nextHandle s |}.

Definition with_participants (p : JSMap.t Participant) (s : State) : State :=
  {| currentQuestion := currentQuestion s; participants := p; answers := answers s;
     questionTimer := questionTimer s; timeLeft := timeLeft s;
     questionNumber := questionNumber s; questionHistory := questionHistory s;
     intervals := intervals s; nextHandle := nextHandle s |}.

Definition with_answers (a : JSMap.t (JSMap.t string)) (s : State) : State :=
  {| currentQuestion := currentQuestion s; participants := participants s; answers := a;
     questionTimer := questionTimer s; timeLeft := timeLeft s;
     questionNumber := questionNumber s; questionHistory := questionHistory s;
     intervals := intervals s; nextHandle := nextHandle s |}.

Definition with_timeLeft (z : Z) (s : State) : State :=
  {| currentQuestion := currentQuestion s; participants := participants s;
     answers := answers s; questionTimer := questionTimer s; timeLeft := z;
     questionNumber := questionNumber s; questionHistory := questionHistory s;
     intervals := intervals s; nextHandle := nextHandle s |}.

Definition with_questionNumber (n : nat) (s : State) : State :=
  {| currentQuestion := currentQuestion s; participants := participants s;
     answers := answers s; questionTimer := questionTimer s; timeLeft := timeLeft s;
     questionNumber := n; questionHistory := questionHistory s;
     intervals := intervals s; nextHandle := nextHandle s |}.

Definition with_questionHistory (h : JSMap.t nat) (s : State) : State :=
  {| currentQuestion := currentQuestion s; participants := participants s;
     answers := answers s; questionTimer := questionTimer s; timeLeft := timeLeft s;
     questionNumber := questionNumber s; questionHistory := h;
     intervals := intervals s; nextHandle := nextHandle s |}.

(** [clearInterval(h)]: the handle is no longer scheduled; clearing [null]
    or a handle that is not scheduled does nothing. *)
Definition clearInterval (h : option nat) (s : State) : State :=
  match h with
  | None => s
  | Some n =>
      {| currentQuestion := currentQuestion s; participants := participants s;
         answers := answers s; questionTimer := questionTimer s;
         timeLeft := timeLeft s; questionNumber := questionNumber s;
         questionHistory := questionHistory s;
         intervals := filter (fun k => negb (Nat.eqb k n)) (intervals s);
         nextHandle := nextHandle s |}
  end.

(** [questionTimer = setInterval(callback, 1000)]: a fresh handle is
    scheduled and stored. *)
Definition setInterval_questionTimer (s : State) : State :=
  {| currentQuestion := currentQuestion s; participants := participants s;
     answers := answers s; questionTimer := Some (nextHandle s);
     timeLeft := timeLeft s; questionNumber := questionNumber s;
     questionHistory := questionHistory s;
     intervals := nextHandle s :: intervals s;
     nextHandle := S (nextHandle s) |}.

(** ** Effects on the gateway *)

Inductive Target :=
| ToAll                      (* io.emit *)
| ToRoom (room : string)     (* io.to(room).emit *)
| ToSocket (sid : string).   (* socket.emit, io.to(socketId).emit *)

Inductive Message :=
| participantsUpdate (studentList : list string)
| questionStatus (canAskNew : bool)
| questionStarted (q : Question)
| timeUpdate (t : Z)
| questionError (message : string)
| pollResults (r : PollResults)
| studentKicked
| chatMessage (data : string).

(** [DisconnectSocket sid] stands for the lookup of the socket in
    [io.sockets.sockets] and its [disconnect()] when it is there; the
    gateway answers with a [disconnect] event of that socket, which is an
    event of the stream like any other. *)
Inductive Effect :=
| Emit (to : Target) (m : Message)
| JoinRoom (sid : string) (room : string)   (* socket.join(room) *)
| DisconnectSocket (sid : string).

(** ** The countdown variable

    [timeLeft] holds the time limit of the payload and is only ever
    decremented.  The model covers the payloads whose time limit is an
    integer; it is kept in [Z], and [timeLeft--] is the binary64
    subtraction of 1 on the integers that a number can hold ([isNumber]
    below; no other integer can be the content of the variable), written
    out: exact from [-2^53 + 1] to [2^53]; beyond, the difference is
    rounded to the nearest value, ties to the even significand.  Between
    [2^53] and [2^54] the values are the even integers and the result is
    [x - 2] or [x] back again; from [2^54] on it is [x] back again.
    [decrement_binary64] proves that this is the result of [SFsub]. *)
Definition decrement (x : Z) : Z :=
  if (- 2 ^ 53 <? x)%Z && (x <=? 2 ^ 53)%Z then (x - 1)%Z
  else if (Z.abs x <? 2 ^ 54)%Z && Z.odd (x / 2) then (x - 2)%Z
  else x.

(** The same decrement computed on the binary64 representation. *)
Definition decrementDouble (x : Z) : option Z :=
  Double.to_Z (Double.sub (Double.of_Z x) (Double.of_Z 1)).

(** The binary64 representation of the non-zero integers of up to 53
    binary digits: the significand is brought to 53 digits. *)
Definition signed (s : bool) (p : positive) : Z := if s then Z.neg p else Z.pos p.

Definition normal (s : bool) (p : positive) : spec_float :=
  S754_finite s (Z.to_pos (Z.pos p * 2 ^ (53 - Z.pos (digits2_pos p))))
              (Z.pos (digits2_pos p) - 53).

(** The integers a number can hold: those from -2^53 to 2^53 and, beyond,
    the products of a factor of 53 binary digits and a power of two, up to
    the exponent 971 of the largest finite value. *)
Definition isNumber (x : Z) : Prop :=
  (- 2 ^ 53 <= x <= 2 ^ 53)%Z
  \/ exists s c E,
       Z.pos (digits2_pos c) = 53%Z /\ (Z.pos E <= 971)%Z
       /\ x = (signed s c * 2 ^ Z.pos E)%Z.

(** ** Helpers of server.js *)

Definition isStudent (p : Participant) : bool := Role_eqb (role p) student.

(** [Array.from(participants.values()).filter(p => p.role === "student")] *)
Definition students (s : State) : list Participant :=
  filter isStudent (JSMap.values (participants s)).

(** [... .map(p => p.name)] *)
Definition studentList (s : State) : list string := map name (students s).

Definition totalStudents (s : State) : nat := List.length (students s).

Definition percentageOf (count totalAnswers : nat) : Z :=
  if (0 <? totalAnswers)%nat
  then Double.Math_round
         (Double.mul (Double.div (Double.of_nat count) (Double.of_nat totalAnswers))
                     (Double.of_Z 100))
  else 0%Z.

Definition countAnswer (answerCounts : JSMap.t nat) (a : string) : JSMap.t nat :=
  match JSMap.get a answerCounts with
  | Some c => JSMap.set a (c + 1) answerCounts
  | None => answerCounts
  end.

Definition calculateResults (options : list string) (questionAnswers : JSMap.t string)
  : list Result :=
  let answerCounts := fold_left (fun m o => JSMap.set o 0 m) options JSMap.empty in
  let answerCounts := fold_left countAnswer (JSMap.values questionAnswers) answerCounts in
  let totalAnswers := JSMap.size questionAnswers in
  map (fun '(o, c) =>
         {| r_option := o; r_count := c; r_percentage := percentageOf c totalAnswers |})
      (JSMap.entries answerCounts).

Definition isQuestionComplete (s : State) : bool :=
  match currentQuestion s with
  | None => true
  | Some q =>
      match JSMap.get (q_id q) (answers s) with
      | None => false
      | Some questionAnswers =>
          (totalStudents s <=? JSMap.size questionAnswers)%nat || (timeLeft s <=? 0)%Z
      end
  end.

Definition endQuestion (s : State) : State * list Effect :=
  match currentQuestion s with
  | None => (s, [])
  | Some q =>
      match JSMap.get (q_id q) (answers s) with
      | None => (s, [])
      | Some questionAnswers =>
          let resultsWithQuestionNumber :=
            {| results := calculateResults (q_options q) questionAnswers;
               pr_questionNumber := q_questionNumber q;
               pr_questionId := q_id q;
               pr_questionText := q_text q |} in
          (with_timeLeft 0 (with_currentQuestion None s),
           [Emit ToAll (pollResults resultsWithQuestionNumber);
            Emit (ToRoom "teachers") (questionStatus true)])
      end
  end.

(** ** Event handlers *)

Definition teacherJoin (sid : string) (s : State) : State * list Effect :=
  let s1 := with_participants
              (JSMap.set sid {| name := "Teacher"; role := teacher |} (participants s)) s in
  (s1,
   [JoinRoom sid "teachers";
    Emit (ToSocket sid) (participantsUpdate (studentList s1));
    Emit (ToSocket sid)
         (questionStatus
            (match currentQuestion s1 with None => true | Some _ => false end
             || isQuestionComplete s1))]).

Definition studentJoin (sid : string) (studentName : string) (s : State)
  : State * list Effect :=
  let s1 := with_participants
              (JSMap.set sid {| name := studentName; role := student |} (participants s)) s in
  (s1,
   [JoinRoom sid "students"; Emit ToAll (participantsUpdate (studentList s1))]
   ++ match currentQuestion s1 with
      | Some q => [Emit (ToSocket sid) (questionStarted q);
                   Emit (ToSocket sid) (timeUpdate (timeLeft s1))]
      | None => []
      end).

Definition questionErrorMessage : string :=
  "Cannot ask a new question while the current question is still active. Please wait for all students to answer or for the timer to expire.".

(** The guard of [startQuestion]: [currentQuestion && !isQuestionComplete()]. *)
Definition startRefused (s : State) : bool :=
  match currentQuestion s with
  | Some _ => negb (isQuestionComplete s)
  | None => false
  end.

Definition startQuestion (sid : string) (question : QuestionInput) (s : State)
  : State * list Effect :=
  if startRefused s then
    (s, [Emit (ToSocket sid) (questionError questionErrorMessage)])
  else
    let s1 := with_questionNumber (S (questionNumber s)) s in
    let s2 := with_questionHistory
                (JSMap.set (in_id question) (questionNumber s1) (questionHistory s1)) s1 in
    let q := {| q_id := in_id question; q_text := in_text question;
                q_options := in_options question; q_timeLimit := in_timeLimit question;
                q_questionNumber := questionNumber s2 |} in
    let s3 := with_currentQuestion (Some q) s2 in
    let s4 := with_answers (JSMap.set (in_id question) JSMap.empty (answers s3)) s3 in
    let s5 := with_timeLeft (in_timeLimit question) s4 in
    let s6 := clearInterval (questionTimer s5) s5 in
    let s7 := setInterval_questionTimer s6 in
    (s7,
     [Emit (ToRoom "students") (questionStarted q);
      Emit ToAll (timeUpdate (timeLeft s7));
      Emit (ToRoom "teachers") (questionStatus false)]).

(** The callback given to [setInterval] by [startQuestion]. *)
Definition intervalCallback (s : State) : State * list Effect :=
  let s1 := with_timeLeft (decrement (timeLeft s)) s in
  let tick := Emit ToAll (timeUpdate (timeLeft s1)) in
  if (timeLeft s1 <=? 0)%Z then
    let '(s2, out) := endQuestion (clearInterval (questionTimer s1) s1) in
    (s2, tick :: out)
  else (s1, [tick]).

(** The runtime fires the callback of a handle only while it is scheduled. *)
Definition timerTick (h : nat) (s : State) : State * list Effect :=
  if existsb (Nat.eqb h) (intervals s) then intervalCallback s else (s, []).

Definition submitAnswer (data : AnswerData) (s : State) : State * list Effect :=
  match currentQuestion s with
  | Some q =>
      if String.eqb (q_id q) (questionId data) then
        match JSMap.get (questionId data) (answers s) with
        | Some questionAnswers =>
            if negb (JSMap.has (studentName data) questionAnswers) then
              let questionAnswers' :=
                JSMap.set (studentName data) (answer data) questionAnswers in
              let s1 := with_answers
                          (JSMap.set (questionId data) questionAnswers' (answers s)) s in
              if (totalStudents s1 <=? JSMap.size questionAnswers')%nat then
                endQuestion (clearInterval (questionTimer s1) s1)
              else (s1, [])
            else (s, [])
        | None => (s, [])
        end
      else (s, [])
  | None => (s, [])
  end.

Definition relayChat (data : string) (s : State) : State * list Effect :=
  (s, [Emit ToAll (chatMessage data)]).

(** The loop of [kickStudent] stops at the first entry that matches. *)
Definition findStudent (studentName : string) (m : JSMap.t Participant)
  : option (string * Participant) :=
  find (fun e => String.eqb (name (snd e)) studentName && isStudent (snd e))
       (JSMap.entries m).

Definition kickStudent (studentName : string) (s : State) : State * list Effect :=
  match findStudent studentName (participants s) with
  | Some (socketId, _) =>
      let s1 := with_participants (JSMap.delete socketId (participants s)) s in
      (s1,
       [Emit (ToSocket socketId) studentKicked;
        Emit ToAll (participantsUpdate (studentList s1));
        DisconnectSocket socketId])
  | None => (s, [])
  end.

Definition disconnect (sid : string) (s : State) : State * list Effect :=
  let s1 := with_participants (JSMap.delete sid (participants s)) s in
  (s1, [Emit ToAll (participantsUpdate (studentList s1))]).

(** ** The serial event stream *)

Inductive Event :=
| TeacherJoin (sid : string)
| StudentJoin (sid : string) (studentName : string)
| StartQuestion (sid : string) (question : QuestionInput)
| SubmitAnswer (sid : string) (data : AnswerData)
| ChatMessage (sid : string) (data : string)
| KickStudent (sid : string) (studentName : string)
| Disconnect (sid : string)
| TimerTick (h : nat).

Definition handle (e : Event) (s : State) : State * list Effect :=
  match e with
  | TeacherJoin sid => teacherJoin sid s
  | StudentJoin sid n => studentJoin sid n s
  | StartQuestion sid q => startQuestion sid q s
  | SubmitAnswer _ d => submitAnswer d s
  | ChatMessage _ d => relayChat d s
  | KickStudent _ n => kickStudent n s
  | Disconnect sid => disconnect sid s
  | TimerTick h => timerTick h s
  end.

(** Running a list of events from a state: the final state and everything
    that was emitted, in order. *)
Fixpoint run (es : list Event) (s : State) : State * list Effect :=
  match es with
  | [] => (s, [])
  | e :: es' =>
      let '(s1, out1) := handle e s in
      let '(s2, out2) := run es' s1 in
      (s2, out1 ++ out2)
  end.

Inductive reachable : State -> Prop :=
| reachable_initial : reachable initial
| reachable_step e s : reachable s -> reachable (fst (handle e s)).

(** ** Reading the trace *)

(** Sequence numbers of the questions broadcast to the room of students. *)
Definition startedNumber (e : Effect) : list nat :=
  match e with
  | Emit (ToRoom room) (questionStarted q) =>
      if String.eqb room "students" then [q_questionNumber q] else []
  | _ => []
  end.

Definition startedNumbers (out : list Effect) : list nat :=
  flat_map startedNumber out.

Definition isPollFor (n : nat) (e : Effect) : bool :=
  match e with
  | Emit _ (pollResults r) => Nat.eqb (pr_questionNumber r) n
  | _ => false
  end.

(** How many [pollResults] notifications carry sequence number [n]. *)
Definition pollCount (n : nat) (out : list Effect) : nat :=
  List.length (filter (isPollFor n) out).

Definition isStart (e : Event) : bool :=
  match e with StartQuestion _ _ => true | _ => false end.

Definition isTickOf (h : nat) (e : Event) : bool :=
  match e with TimerTick h' => Nat.eqb h' h | _ => false end.

Definition ticksOf (h : nat) (es : list Event) : nat :=
  List.length (filter (isTickOf h) es).

(** ** Specification-side definitions *)

(** The aggregator as the specification words it: one record for each
    element of [opts], the count being the number of answers equal to it and
    the denominator the number of all answers. *)
Definition aggregate (opts : list string) (questionAnswers : JSMap.t string)
  : list Result :=
  let totalAnswers := JSMap.size questionAnswers in
  map (fun o =>
         let count := count_occ string_dec (JSMap.values questionAnswers) o in
         {| r_option := o;
            r_count := count;
            r_percentage :=
              match totalAnswers with
              | O => 0%Z
              | S _ => Double.Math_round
                         (Double.mul
                            (Double.div (Double.of_nat count) (Double.of_nat totalAnswers))
                            (Double.of_Z 100))
              end |})
      opts.

(** The elements of a list in order of first occurrence. *)
Fixpoint firstOccurrences (l : list string) : list string :=
  match l with
  | [] => []
  | o :: l' => o :: filter (fun x => negb (String.eqb o x)) (firstOccurrences l')
  end.

(** The aggregator claim as stated: one record for each element of the
    option list. *)
Definition aggregatesEveryOption : Prop :=
  forall options questionAnswers,
    calculateResults options questionAnswers = aggregate options questionAnswers.

(** The keys of the count table as the first loop of [calculateResults]
    builds it: an option is appended unless it is there already. *)
Definition addDistinct (acc : list string) (o : string) : list string :=
  if existsb (String.eqb o) acc then acc else acc ++ [o].

Definition distinctOptions (options : list string) : list string :=
  fold_left addDistinct options [].

(** The count table after initialisation, and the effect of counting one
    answer [a] on an entry of the table. *)
Definition zeroed (l : list string) : JSMap.t nat := map (fun o => (o, 0)) l.

Definition bump (a : string) (e : string * nat) : string * nat :=
  (fst e, if String.eqb (fst e) a then snd e + 1 else snd e).

(** The completeness predicate of the specification. *)
Definition complete (s : State) (q : Question) : Prop :=
  exists questionAnswers,
    JSMap.get (q_id q) (answers s) = Some questionAnswers /\
    (totalStudents s <= JSMap.size questionAnswers \/ (timeLeft s <= 0)%Z).

Definition mayStart (s : State) : Prop :=
  currentQuestion s = None \/
  exists q, currentQuestion s = Some q /\ complete s q.

(** The question a successful [startQuestion] opens. *)
Definition numbered (question : QuestionInput) (n : nat) : Question :=
  {| q_id := in_id question; q_text := in_text question;
     q_options := in_options question; q_timeLimit := in_timeLimit question;
     q_questionNumber := n |}.

Definition startSucceeds (sid : string) (question : QuestionInput) (s : State) : Prop :=
  currentQuestion (fst (startQuestion sid question s))
    = Some (numbered question (S (questionNumber s)))
  /\ forall t m, ~ In (Emit t (questionError m)) (snd (startQuestion sid question s)).

(** The names of the students of a roster, in order, and those of the
    students on sockets other than [sid]. *)
Definition studentNames (m : JSMap.t Participant) : list string :=
  map name (filter isStudent (JSMap.values m)).

Definition otherStudents (sid : string) (m : JSMap.t Participant) : list string :=
  map (fun e => name (snd e))
      (filter (fun e => negb (String.eqb (fst e) sid) && isStudent (snd e))
              (JSMap.entries m)).

(** What the closure procedure publishes for question [q] over answers [qa]. *)
Definition closureEffects (q : Question) (qa : JSMap.t string) : list Effect :=
  [Emit ToAll (pollResults {| results := calculateResults (q_options q) qa;
                              pr_questionNumber := q_questionNumber q;
                              pr_questionId := q_id q;
                              pr_questionText := q_text q |});
   Emit (ToRoom "teachers") (questionStatus true)].

(** ** Invariant, outcomes and scenarios *)

(** The invariant of the reachable states: an open question has its answer
    set, a sequence number that was handed out, and the one scheduled
    interval; without an open question nothing is scheduled; socket ids are
    distinct in the roster. *)
Definition Inv (s : State) : Prop :=
  (forall q, currentQuestion s = Some q ->
     JSMap.get (q_id q) (answers s) <> None
     /\ q_questionNumber q <= questionNumber s
     /\ exists h, questionTimer s = Some h /\ intervals s = [h])
  /\ (currentQuestion s = None -> intervals s = [])
  /\ NoDup (JSMap.keys (participants s)).

Definition isRosterEvent (e : Event) : bool :=
  match e with
  | TeacherJoin _ | StudentJoin _ _ | ChatMessage _ _ | KickStudent _ _ | Disconnect _ => true
  | _ => false
  end.

Definition isClosingEvent (e : Event) : bool :=
  match e with
  | SubmitAnswer _ _ | TimerTick _ => true
  | _ => false
  end.

(** Effects that neither publish results nor open a question. *)
Definition quiet (out : list Effect) : Prop :=
  (forall n, pollCount n out = 0) /\ startedNumbers out = [].

(** What one event does to the question life cycle: nothing, the closure
    procedure of the open question, or the opening of a new question. *)
Inductive Outcome (e : Event) (s : State) : Prop :=
| Stays :
    currentQuestion (fst (handle e s)) = currentQuestion s ->
    questionNumber (fst (handle e s)) = questionNumber s ->
    quiet (snd (handle e s)) ->
    Outcome e s
| Closes q :
    currentQuestion s = Some q ->
    currentQuestion (fst (handle e s)) = None ->
    questionNumber (fst (handle e s)) = questionNumber s ->
    (forall n, pollCount n (snd (handle e s))
               = if Nat.eqb (q_questionNumber q) n then 1 else 0) ->
    startedNumbers (snd (handle e s)) = [] ->
    isClosingEvent e = true ->
    Outcome e s
| Starts sid question :
    e = StartQuestion sid question ->
    startRefused s = false ->
    currentQuestion (fst (handle e s))
      = Some (numbered question (S (questionNumber s))) ->
    questionNumber (fst (handle e s)) = S (questionNumber s) ->
    (forall n, pollCount n (snd (handle e s)) = 0) ->
    startedNumbers (snd (handle e s)) = [S (questionNumber s)] ->
    Outcome e s.

(** The trace invariant: the open question has not been published, numbers
    not yet handed out have not been published, and nothing was published
    twice. *)
Definition TraceInv (s : State) (out : list Effect) : Prop :=
  Inv s
  /\ (forall q, currentQuestion s = Some q -> pollCount (q_questionNumber q) out = 0)
  /\ (forall n, questionNumber s < n -> pollCount n out = 0)
  /\ (forall n, pollCount n out <= 1).

(** *** Scenarios *)

Definition q1 : QuestionInput :=
  {| in_id := "q1"; in_text := "First"; in_options := ["A"; "B"]; in_timeLimit := 5 |}.

Definition q2 : QuestionInput :=
  {| in_id := "q2"; in_text := "Second"; in_options := ["C"; "D"]; in_timeLimit := 5 |}.

Definition answerOf (qid who what : string) : AnswerData :=
  {| questionId := qid; answer := what; studentName := who |}.

(** Alice and Bob join, the first question starts, Alice answers. *)
Definition aliceAnswered : list Event :=
  [StudentJoin "s1" "Alice"; StudentJoin "s2" "Bob"; StartQuestion "t" q1;
   SubmitAnswer "s1" (answerOf "q1" "Alice" "A")].

(** Alice and Bob have joined and the first question has just started. *)
Definition bothJoined : list Event :=
  [StudentJoin "s1" "Alice"; StudentJoin "s2" "Bob"; StartQuestion "t" q1].

(** ... then Bob's connection closes, and the moderator starts the second
    question. *)
Definition preempted : list Event :=
  aliceAnswered ++ [Disconnect "s2"; StartQuestion "t" q2].

(** The published-exactly-once property, in the weakest form the sentence
    allows: every run in which question number [n] was started can be
    continued so that its results have been published exactly once. *)
Definition publishedExactlyOnce : Prop :=
  forall es n,
    In n (startedNumbers (snd (run es initial))) ->
    exists es', pollCount n (snd (run (es ++ es') initial)) = 1.

(** *** Answering phase of a question *)

(** The events of an answering phase for question id [qid]: submissions for
    it and ticks of the clock. *)
Definition isAnswerOrTick (qid : string) (e : Event) : bool :=
  match e with
  | SubmitAnswer _ d => String.eqb (questionId d) qid
  | TimerTick _ => true
  | _ => false
  end.

(** The entries submitted by a list of events, in order. *)
Definition submittedEntry (e : Event) : list (string * string) :=
  match e with
  | SubmitAnswer _ d => [(studentName d, answer d)]
  | _ => []
  end.

Definition submitted (es : list Event) : JSMap.t string := flat_map submittedEntry es.

Definition isTick (e : Event) : bool :=
  match e with TimerTick _ => true | _ => false end.

Definition ticks (es : list Event) : nat := List.length (filter isTick es).

(** The time left after [k] firings of the countdown that stands at [t]. *)
Definition countdown (k : nat) (t : Z) : Z := Nat.iter k decrement t.

(** A [startQuestion] that reuses question id [qid]. *)
Definition startsId (qid : string) (e : Event) : bool :=
  match e with
  | StartQuestion _ question => String.eqb (in_id question) qid
  | _ => false
  end.

(** A question opened before anybody joined. *)
Definition emptyRoom : list Event := [TeacherJoin "t"; StartQuestion "t" q1].

(** The removals of a participant. *)
Definition isRemoval (e : Event) : bool :=
  match e with
  | KickStudent _ _ | Disconnect _ => true
  | _ => false
  end.

(** ... then a new student joins and answers. *)
Definition carolAnswers : AnswerData := answerOf "q1" "Carol" "B".

(** The closing sentence on removals read as a property of runs: once a
    removal has left a question open and complete, only a tick of the
    countdown publishes its results. *)
Definition closedOnlyByExpiry : Prop :=
  forall es e es' e' q,
    isRemoval e = true ->
    currentQuestion (fst (run (es ++ [e]) initial)) = Some q ->
    isQuestionComplete (fst (run (es ++ [e]) initial)) = true ->
    0 < pollCount (q_questionNumber q)
                  (snd (handle e' (fst (run es' (fst (run (es ++ [e]) initial)))))) ->
    exists h, e' = TimerTick h.

(** ** Definitions for the further properties *)

(** The events of an answering phase in which every tick is a firing of
    interval [h]. *)
Definition isAnswerOrTickOf (h : nat) (qid : string) (e : Event) : bool :=
  match e with
  | SubmitAnswer _ d => String.eqb (questionId d) qid
  | TimerTick h' => Nat.eqb h' h
  | _ => false
  end.

(** The broadcasts of [k] firings of the countdown that starts at [t]. *)
Definition countdownUpdates (t : Z) (k : nat) : list Effect :=
  map (fun i => Emit ToAll (timeUpdate (t - Z.of_nat i))) (seq 1 k).

(** An answer that names one of the options. *)
Definition isValidAnswer (options : list string) (a : string) : bool :=
  existsb (String.eqb a) options.

(** What the session keeps about question ids: the ledger and the history
    hold the same ids in the same order, every answer set has distinct
    names, every recorded number has been handed out, and the open question
    is recorded under its id with its number. *)
Definition Ledger (s : State) : Prop :=
  JSMap.keys (answers s) = JSMap.keys (questionHistory s)
  /\ (forall qid qa, JSMap.get qid (answers s) = Some qa -> NoDup (JSMap.keys qa))
  /\ (forall qid n, JSMap.get qid (questionHistory s) = Some n ->
                    1 <= n <= questionNumber s)
  /\ (forall q, currentQuestion s = Some q ->
                JSMap.get (q_id q) (questionHistory s) = Some (q_questionNumber q)).

(** Alice and Bob have both answered the first question. *)
Definition bothAnswered : list Event :=
  aliceAnswered ++ [SubmitAnswer "s2" (answerOf "q1" "Bob" "B")].

(** Sequence numbers of the results published, in order. *)
Definition publishedNumber (e : Effect) : list nat :=
  match e with
  | Emit _ (pollResults r) => [pr_questionNumber r]
  | _ => []
  end.

Definition publishedNumbers (out : list Effect) : list nat :=
  flat_map publishedNumber out.

(** The invariant behind the order of publication. *)
Definition PublishedInv (s : State) (out : list Effect) : Prop :=
  Inv s
  /\ StronglySorted lt (publishedNumbers out)
  /\ (forall n, In n (publishedNumbers out) -> 1 <= n <= questionNumber s)
  /\ (forall q, currentQuestion s = Some q ->
                1 <= q_questionNumber q
                /\ forall n, In n (publishedNumbers out) -> n < q_questionNumber q).

(** A submission under the name of one of the students of [s]. *)
Definition isRosterSubmission (s : State) (e : Event) : bool :=
  match e with
  | SubmitAnswer _ d => existsb (String.eqb (studentName d)) (studentList s)
  | _ => false
  end.

(** Two students called Sam, and a question. *)
Definition twoSams : list Event :=
  [StudentJoin "s1" "Sam"; StudentJoin "s2" "Sam"; StartQuestion "t" q1].

(** The payload published for question [q] over the answer set [qa]. *)
Definition payload (q : Question) (qa : JSMap.t string) : PollResults :=
  {| results := calculateResults (q_options q) qa;
     pr_questionNumber := q_questionNumber q;
     pr_questionId := q_id q;
     pr_questionText := q_text q |}.

(** Every open question was broadcast to the students, and every payload
    published belongs to a question that was. *)
Definition PayloadInv (s : State) (out : list Effect) : Prop :=
  Inv s
  /\ (forall q, currentQuestion s = Some q ->
                In (Emit (ToRoom "students") (questionStarted q)) out)
  /\ (forall t r, In (Emit t (pollResults r)) out ->
                  t = ToAll
                  /\ exists q qa, In (Emit (ToRoom "students") (questionStarted q)) out
                                  /\ r = payload q qa).

(** The bounds of the time left. *)
Definition TimeInv (s : State) : Prop :=
  (currentQuestion s = None -> timeLeft s = 0%Z)
  /\ (forall q, currentQuestion s = Some q ->
                (timeLeft s <= q_timeLimit q)%Z
                /\ ((1 <= timeLeft s)%Z \/ timeLeft s = q_timeLimit q)).

(** The percentage in exact arithmetic: 100 * count / total rounded to the
    nearest integer, halves upwards. *)
Definition exactPercentage (count total : nat) : Z :=
  ((200 * Z.of_nat count + Z.of_nat total) / (2 * Z.of_nat total))%Z.

(** What is checked of the percentage of [count] answers out of [total]. *)
Definition percentageChecked (count total : nat) : bool :=
  let p := percentageOf count total in
  (0 <=? p)%Z && (p <=? 100)%Z
  && Bool.eqb (p =? 0)%Z (Nat.eqb count 0)
  && Bool.eqb (p =? 100)%Z (Nat.eqb count total)
  && ((p =? exactPercentage count total)%Z
      || ((200 * Z.of_nat count + Z.of_nat total) mod (2 * Z.of_nat total) =? 0)%Z
         && (p =? exactPercentage count total - 1)%Z).

Definition percentagesChecked (bound : nat) : bool :=
  forallb (fun total => forallb (fun count => percentageChecked count total)
                                (seq 0 (S total)))
          (seq 1 bound).

(** * Properties *)

(** ** Facts about [JSMap] *)

Module JSMapFacts.
Import JSMap.

Section Facts.
Context {V : Type}.
Implicit Types (m : JSMap.t V) (k : string) (v : V).

Lemma get_set_same k v m : get k (set k v m) = Some v.
Proof.
  induction m as [|[k' v'] m IH]; simpl.
  - now rewrite String.eqb_refl.
  - destruct (String.eqb k' k) eqn:E; simpl; rewrite E; auto.
Qed.

Lemma get_set_other k k' v m : k <> k' -> get k' (set k v m) = get k' m.
Proof.
  intros Hne. induction m as [|[k0 v0] m IH]; simpl.
  - destruct (String.eqb_spec k k'); congruence.
  - destruct (String.eqb_spec k0 k) as [->|Hk]; simpl.
    + destruct (String.eqb_spec k k'); congruence.
    + destruct (String.eqb_spec k0 k'); auto.
Qed.

Lemma has_false_get k m : has k m = false <-> get k m = None.
Proof. unfold has. destruct (get k m); split; congruence. Qed.

Lemma get_in_keys k m : get k m <> None <-> In k (keys m).
Proof.
  induction m as [|[k' v'] m IH]; simpl.
  - split; [congruence | tauto].
  - destruct (String.eqb_spec k' k) as [->|Hk].
    + split; [auto | congruence].
    + rewrite IH. split; [auto | intros [?|?]; congruence || auto].
Qed.

(** Setting an absent key appends the entry. *)
Lemma set_absent k v m : get k m = None -> set k v m = m ++ [(k, v)].
Proof.
  induction m as [|[k' v'] m IH]; simpl; auto.
  destruct (String.eqb k' k); [discriminate|].
  intros H. now rewrite IH.
Qed.

Lemma keys_set_present k v m : get k m <> None -> keys (set k v m) = keys m.
Proof.
  induction m as [|[k' v'] m IH]; simpl; [congruence|].
  destruct (String.eqb k' k); simpl; auto.
  intros H. now rewrite IH.
Qed.

Lemma keys_set k v m :
  keys (set k v m) = if has k m then keys m else keys m ++ [k].
Proof.
  unfold has. destruct (get k m) eqn:E.
  - apply keys_set_present. congruence.
  - rewrite set_absent by assumption. unfold keys. now rewrite map_app.
Qed.

Lemma NoDup_keys_set k v m : NoDup (keys m) -> NoDup (keys (set k v m)).
Proof.
  intros H. rewrite keys_set. destruct (has k m) eqn:E; auto.
  apply has_false_get in E.
  apply NoDup_app; auto.
  - constructor; [tauto | constructor].
  - intros x Hx [<-|Hf]; [|destruct Hf]. now apply get_in_keys in Hx.
Qed.

Lemma In_keys_delete k k' m : In k' (keys (delete k m)) -> In k' (keys m).
Proof.
  induction m as [|[k0 v0] m IH]; simpl; auto.
  destruct (String.eqb k0 k); simpl; tauto.
Qed.

Lemma NoDup_keys_delete k m : NoDup (keys m) -> NoDup (keys (delete k m)).
Proof.
  induction m as [|[k0 v0] m IH]; simpl; auto.
  intros H. inversion H as [|? ? Hn Hd]; subst.
  destruct (String.eqb k0 k); simpl; auto.
  constructor; auto. intros Hin. apply Hn. eapply In_keys_delete; eauto.
Qed.

(** With distinct keys, an entry is what [get] returns for its key. *)
Lemma In_get k v m : NoDup (keys m) -> In (k, v) m -> get k m = Some v.
Proof.
  induction m as [|[k0 v0] m IH]; simpl; [tauto|].
  intros H Hin. inversion H as [|? ? Hn Hd]; subst.
  destruct Hin as [Heq|Hin].
  - inversion Heq; subst. now rewrite String.eqb_refl.
  - destruct (String.eqb_spec k0 k) as [->|Hk]; auto.
    exfalso. apply Hn. change (In (fst (k, v)) (map fst m)). now apply in_map.
Qed.

Lemma get_In k v m : get k m = Some v -> In (k, v) m.
Proof.
  induction m as [|[k0 v0] m IH]; simpl; [discriminate|].
  destruct (String.eqb_spec k0 k) as [->|Hk]; intros H.
  - left. congruence.
  - right. auto.
Qed.

(** Deleting the key of an entry whose key occurs nowhere before it. *)
Lemma delete_split k v (l1 l2 : JSMap.t V) :
  ~ In k (keys l1) -> delete k (l1 ++ (k, v) :: l2) = l1 ++ l2.
Proof.
  induction l1 as [|[k0 v0] l1 IH]; simpl; intros H.
  - now rewrite String.eqb_refl.
  - destruct (String.eqb_spec k0 k) as [->|Hk]; [tauto|].
    rewrite IH; auto.
Qed.
End Facts.

End JSMapFacts.

(** ** The result aggregator *)

Section Aggregator.
Import JSMap JSMapFacts.

Lemma addDistinct_NoDup acc o : NoDup acc -> NoDup (addDistinct acc o).
Proof.
  intros H. unfold addDistinct. destruct (existsb (String.eqb o) acc) eqn:E; auto.
  apply NoDup_app; auto.
  - constructor; [tauto | constructor].
  - intros x Hx [<-|Hf]; [|destruct Hf].
    assert (existsb (String.eqb o) acc = true); [|congruence].
    apply existsb_exists. exists o. split; auto. apply String.eqb_refl.
Qed.

Lemma fold_addDistinct_NoDup options acc :
  NoDup acc -> NoDup (fold_left addDistinct options acc).
Proof.
  revert acc. induction options as [|o options IH]; simpl; auto.
  intros acc H. apply IH. now apply addDistinct_NoDup.
Qed.

Lemma distinctOptions_NoDup options : NoDup (distinctOptions options).
Proof. apply fold_addDistinct_NoDup. constructor. Qed.

Lemma In_addDistinct acc o x : In x (addDistinct acc o) <-> In x acc \/ x = o.
Proof.
  unfold addDistinct. destruct (existsb (String.eqb o) acc) eqn:E.
  - split; auto. intros [H | ->]; auto.
    apply existsb_exists in E. destruct E as [y [Hy Ey]].
    apply String.eqb_eq in Ey. now subst.
  - rewrite in_app_iff. simpl. intuition.
Qed.

Lemma In_fold_addDistinct options acc x :
  In x (fold_left addDistinct options acc) <-> In x acc \/ In x options.
Proof.
  revert acc. induction options as [|o options IH]; simpl; intros acc.
  - tauto.
  - rewrite IH, In_addDistinct. intuition.
Qed.

Lemma In_distinctOptions options x : In x (distinctOptions options) <-> In x options.
Proof. unfold distinctOptions. rewrite In_fold_addDistinct. simpl. tauto. Qed.

(** A list without repetition is its own list of distinct options. *)
Lemma fold_addDistinct_fresh options acc :
  NoDup (acc ++ options) -> fold_left addDistinct options acc = acc ++ options.
Proof.
  revert acc. induction options as [|o options IH]; simpl; intros acc H.
  - now rewrite app_nil_r.
  - assert (Hf : existsb (String.eqb o) acc = false).
    { destruct (existsb (String.eqb o) acc) eqn:E; auto.
      apply existsb_exists in E. destruct E as [y [Hy Ey]].
      apply String.eqb_eq in Ey. subst y.
      apply NoDup_remove_2 in H. exfalso. apply H.
      apply in_or_app. now left. }
    unfold addDistinct at 2. rewrite Hf.
    rewrite IH; rewrite <- app_assoc; simpl; auto.
Qed.

Lemma distinctOptions_NoDup_id options :
  NoDup options -> distinctOptions options = options.
Proof. intros H. unfold distinctOptions. now rewrite fold_addDistinct_fresh. Qed.

Lemma set_zeroed o acc : set o 0 (zeroed acc) = zeroed (addDistinct acc o).
Proof.
  unfold addDistinct. induction acc as [|a acc IH]; simpl; auto.
  rewrite (String.eqb_sym o a).
  destruct (String.eqb a o); simpl; auto.
  rewrite IH. destruct (existsb (String.eqb o) acc); auto.
Qed.

Lemma init_counts options acc :
  fold_left (fun m o => set o 0 m) options (zeroed acc)
  = zeroed (fold_left addDistinct options acc).
Proof.
  revert acc. induction options as [|o options IH]; simpl; auto.
  intros acc. now rewrite set_zeroed, IH.
Qed.

Lemma bump_absent a (m : JSMap.t nat) : ~ In a (keys m) -> map (bump a) m = m.
Proof.
  induction m as [|[k c] m IH]; simpl; auto.
  intros H. unfold bump at 1. simpl.
  destruct (String.eqb_spec k a) as [->|Hk]; [tauto|].
  rewrite IH; auto.
Qed.

Lemma countAnswer_bump a (m : JSMap.t nat) :
  NoDup (keys m) -> countAnswer m a = map (bump a) m.
Proof.
  unfold countAnswer. induction m as [|[k c] m IH]; simpl; auto.
  intros H. inversion H as [|? ? Hn Hd]; subst.
  unfold bump at 1. simpl.
  destruct (String.eqb_spec k a) as [->|Hk].
  - simpl. now rewrite bump_absent.
  - specialize (IH Hd). destruct (get a m) as [c'|] eqn:E.
    + simpl. destruct (String.eqb_spec k a); [congruence|]. now rewrite IH.
    + now rewrite <- IH.
Qed.

Lemma keys_bump a (m : JSMap.t nat) : keys (map (bump a) m) = keys m.
Proof. unfold keys. rewrite map_map. now apply map_ext. Qed.

Lemma count_answers vals (m : JSMap.t nat) :
  NoDup (keys m) ->
  fold_left countAnswer vals m
  = map (fun e => (fst e, snd e + count_occ string_dec vals (fst e))) m.
Proof.
  revert m. induction vals as [|a vals IH]; simpl; intros m H.
  - rewrite <- (map_id m) at 1. apply map_ext. intros [k c]. simpl.
    now rewrite Nat.add_0_r.
  - rewrite countAnswer_bump by assumption.
    rewrite IH by now rewrite keys_bump.
    rewrite map_map. apply map_ext. intros [k c]. simpl.
    destruct (string_dec a k) as [->|Hne].
    + rewrite String.eqb_refl. f_equal. lia.
    + destruct (String.eqb_spec k a); [congruence|]. reflexivity.
Qed.

Lemma percentageOf_unfold c n :
  percentageOf c n =
  match n with
  | O => 0%Z
  | S _ => Double.Math_round
             (Double.mul (Double.div (Double.of_nat c) (Double.of_nat n))
                         (Double.of_Z 100))
  end.
Proof. unfold percentageOf. destruct n; reflexivity. Qed.

(** The code computes the specification's aggregate over the distinct
    options. *)
Lemma calculateResults_aggregate options questionAnswers :
  calculateResults options questionAnswers
  = aggregate (distinctOptions options) questionAnswers.
Proof.
  unfold calculateResults, aggregate, entries, empty.
  change (@nil (string * nat)) with (zeroed []).
  rewrite init_counts. fold (distinctOptions options).
  rewrite count_answers.
  2:{ unfold keys, zeroed. rewrite map_map. simpl. rewrite map_id.
      apply distinctOptions_NoDup. }
  unfold zeroed. rewrite !map_map. apply map_ext. intros o. simpl.
  now rewrite percentageOf_unfold.
Qed.
End Aggregator.

Import JSMapFacts.

(** ** Binary64 numbers that hold integers *)

Section Binary64.
Local Open Scope Z_scope.

Lemma digits2_pos_spec p :
  2 ^ (Z.pos (digits2_pos p) - 1) <= Z.pos p < 2 ^ Z.pos (digits2_pos p).
Proof.
  induction p as [p IH|p IH|]; cbn [digits2_pos].
  - rewrite Pos2Z.inj_succ.
    replace (Z.succ (Z.pos (digits2_pos p)) - 1) with (Z.succ (Z.pos (digits2_pos p) - 1)) by lia.
    rewrite !Z.pow_succ_r by lia. lia.
  - rewrite Pos2Z.inj_succ.
    replace (Z.succ (Z.pos (digits2_pos p)) - 1) with (Z.succ (Z.pos (digits2_pos p) - 1)) by lia.
    rewrite !Z.pow_succ_r by lia. lia.
  - cbn. lia.
Qed.

Lemma digits2_pos_unique p n :
  2 ^ (n - 1) <= Z.pos p < 2 ^ n -> Z.pos (digits2_pos p) = n.
Proof.
  intros [H1 H2]. pose proof (digits2_pos_spec p) as [H3 H4].
  assert (0 < n).
  { destruct (Z.lt_ge_cases 0 n) as [|Hn]; auto.
    destruct (Z.eq_dec n 0) as [->|]; [cbn in H2; lia|].
    rewrite Z.pow_neg_r in H2 by lia. lia. }
  assert (Z.pos (digits2_pos p) - 1 < n).
  { apply (Z.pow_lt_mono_r_iff 2); lia. }
  assert (n - 1 < Z.pos (digits2_pos p)).
  { apply (Z.pow_lt_mono_r_iff 2); lia. }
  lia.
Qed.

Lemma digits2_pos_shift p k m :
  0 <= k -> Z.pos m = Z.pos p * 2 ^ k ->
  Z.pos (digits2_pos m) = Z.pos (digits2_pos p) + k.
Proof.
  intros Hk Hm. apply digits2_pos_unique. rewrite Hm.
  pose proof (digits2_pos_spec p) as [H3 H4].
  replace (Z.pos (digits2_pos p) + k - 1) with (Z.pos (digits2_pos p) - 1 + k) by lia.
  rewrite !Z.pow_add_r by lia.
  assert (0 < 2 ^ k) by (apply Z.pow_pos_nonneg; lia).
  split; nia.
Qed.

Lemma iter_xO m d : Z.pos (Pos.iter xO m d) = Z.pos m * 2 ^ Z.pos d.
Proof.
  revert m. induction d as [|d IH] using Pos.peano_ind; intros m.
  - cbn. lia.
  - rewrite Pos.iter_succ, Pos2Z.inj_succ, Z.pow_succ_r by lia.
    rewrite Pos2Z.inj_xO, IH. lia.
Qed.

Lemma shr_1_even m :
  shr_1 {| shr_m := 2 * m; shr_r := false; shr_s := false |}
  = {| shr_m := m; shr_r := false; shr_s := false |}.
Proof. destruct m; reflexivity. Qed.

Lemma iter_shr_exact n :
  forall m,
    iter_pos shr_1 n {| shr_m := m * 2 ^ Z.pos n; shr_r := false; shr_s := false |}
    = {| shr_m := m; shr_r := false; shr_s := false |}.
Proof.
  induction n as [n IH|n IH|]; intros m; cbn [iter_pos].
  - replace (m * 2 ^ Z.pos n~1) with (2 * (m * 2 ^ Z.pos n * 2 ^ Z.pos n)).
    + now rewrite shr_1_even, !IH.
    + replace (Z.pos n~1) with (Z.pos n + Z.pos n + 1) by lia.
      rewrite !Z.pow_add_r by lia. lia.
  - replace (m * 2 ^ Z.pos n~0) with (m * 2 ^ Z.pos n * 2 ^ Z.pos n).
    + now rewrite !IH.
    + replace (Z.pos n~0) with (Z.pos n + Z.pos n) by lia.
      rewrite Z.pow_add_r by lia. lia.
  - replace (m * 2 ^ 1) with (2 * m) by lia. apply shr_1_even.
Qed.

(** A mantissa of 53 digits with an exponent in range is left alone. *)
Lemma round_canonical s m e :
  Z.pos (digits2_pos m) = 53 -> -1074 <= e <= 971 ->
  binary_round_aux 53 1024 s (Z.pos m) e loc_Exact = S754_finite s m e.
Proof.
  intros Hd He. unfold binary_round_aux, shr_fexp.
  cbn [Zdigits2 shr_record_of_loc]. rewrite Hd.
  assert (Hf : fexp 53 1024 (53 + e) - e = 0) by (unfold fexp, emin; lia).
  rewrite Hf. cbn [shr shr_m loc_of_shr_record round_nearest_even Zdigits2 shr_record_of_loc].
  rewrite Hd, Hf. cbn [shr shr_m].
  destruct (Z.leb_spec e (1024 - 53)); [reflexivity|lia].
Qed.

(** The normal form of the value [p * 2^(-k) * 2^k = p], or of any
    integer multiple of a power of two given with excess precision. *)
Lemma binary_round_exact s p k M :
  0 <= k -> Z.pos M = Z.pos p * 2 ^ k ->
  Z.pos (digits2_pos p) <= 53 ->
  binary_round 53 1024 s M (- k)
  = S754_finite s (Z.to_pos (Z.pos p * 2 ^ (53 - Z.pos (digits2_pos p))))
                (Z.pos (digits2_pos p) - 53).
Proof.
  intros Hk HM Hd. set (d := Z.pos (digits2_pos p)) in *.
  assert (Hd1 : 1 <= d) by (unfold d; lia).
  pose proof (digits2_pos_shift p k M Hk HM) as HdM. fold d in HdM.
  assert (Hpow : 0 < 2 ^ (53 - d)) by (apply Z.pow_pos_nonneg; lia).
  assert (Hcanon : Z.pos (Z.to_pos (Z.pos p * 2 ^ (53 - d))) = Z.pos p * 2 ^ (53 - d)).
  { rewrite Z2Pos.id; lia. }
  assert (Hdc : Z.pos (digits2_pos (Z.to_pos (Z.pos p * 2 ^ (53 - d)))) = 53).
  { rewrite (digits2_pos_shift p (53 - d) _ ltac:(lia) Hcanon). fold d. lia. }
  unfold binary_round. rewrite HdM.
  assert (Hf : fexp 53 1024 (d + k + - k) = d - 53) by (unfold fexp, emin; lia).
  rewrite Hf. unfold shl_align.
  destruct (d - 53 - - k) as [|q|q] eqn:E.
  - (* no shift *)
    assert (M = Z.to_pos (Z.pos p * 2 ^ (53 - d))).
    { apply Pos2Z.inj. rewrite Hcanon, HM. f_equal. f_equal. lia. }
    subst M. replace (- k) with (d - 53) by lia.
    apply round_canonical; [exact Hdc | lia].
  - (* excess precision: shift right, exactly *)
    unfold binary_round_aux, shr_fexp. cbn [Zdigits2 shr_record_of_loc].
    rewrite HdM.
    replace (fexp 53 1024 (d + k + - k) - - k) with (Z.pos q) by lia.
    cbn [shr].
    replace (Z.pos M) with (Z.pos (Z.to_pos (Z.pos p * 2 ^ (53 - d))) * 2 ^ Z.pos q).
    2:{ rewrite Hcanon, HM, <- Z.mul_assoc, <- Z.pow_add_r by lia. do 2 f_equal. lia. }
    rewrite iter_shr_exact.
    cbn [shr_m loc_of_shr_record round_nearest_even Zdigits2 shr_record_of_loc].
    rewrite Hdc.
    replace (- k + Z.pos q) with (d - 53) by lia.
    assert (Hf' : fexp 53 1024 (53 + (d - 53)) - (d - 53) = 0) by (unfold fexp, emin; lia).
    rewrite Hf'. cbn [shr shr_m].
    destruct (Z.leb_spec (d - 53) (1024 - 53)); [reflexivity|lia].
  - (* shift left up to 53 digits *)
    assert (Pos.iter xO M q = Z.to_pos (Z.pos p * 2 ^ (53 - d))) as ->.
    { apply Pos2Z.inj. rewrite Hcanon, iter_xO, HM, <- Z.mul_assoc, <- Z.pow_add_r by lia.
      do 2 f_equal. lia. }
    apply round_canonical; [exact Hdc | lia].
Qed.

Lemma to_Z_normal s p :
  Z.pos (digits2_pos p) <= 53 -> Double.to_Z (normal s p) = Some (signed s p).
Proof.
  intros Hd. unfold normal, Double.to_Z, signed. set (d := Z.pos (digits2_pos p)) in *.
  assert (Hd1 : 1 <= d) by (unfold d; lia).
  assert (Hpow : 0 < 2 ^ (53 - d)) by (apply Z.pow_pos_nonneg; lia).
  assert (Hcanon : Z.pos (Z.to_pos (Z.pos p * 2 ^ (53 - d))) = Z.pos p * 2 ^ (53 - d)).
  { rewrite Z2Pos.id; lia. }
  assert (Hneg : Z.neg (Z.to_pos (Z.pos p * 2 ^ (53 - d))) = Z.neg p * 2 ^ (53 - d)).
  { rewrite <- !Pos2Z.opp_pos, Hcanon. lia. }
  destruct (d - 53) as [|q|q] eqn:E; [|lia|].
  - replace (53 - d) with 0 in * by lia. destruct s; f_equal; lia.
  - replace (53 - d) with (Z.pos q) in * by lia.
    destruct s; [rewrite Hneg|rewrite Hcanon];
      rewrite Z.mod_mul, Z.div_mul by lia; reflexivity.
Qed.

Lemma of_Z_normal p :
  Z.pos (digits2_pos p) <= 53 ->
  Double.of_Z (Z.pos p) = normal false p /\ Double.of_Z (Z.neg p) = normal true p.
Proof.
  intros Hd. unfold Double.of_Z, binary_normalize, normal, Double.prec, Double.emax.
  split; apply (binary_round_exact _ p 0 p); auto; lia.
Qed.

(** The integers from [-2^53] to [2^53] are binary64 values. *)
Lemma digits_le_53 p : Z.pos p < 2 ^ 53 -> Z.pos (digits2_pos p) <= 53.
Proof.
  intros H. pose proof (digits2_pos_spec p) as [H1 _].
  destruct (Z.le_gt_cases (Z.pos (digits2_pos p)) 53) as [|Hgt]; auto.
  assert (2 ^ 53 <= 2 ^ (Z.pos (digits2_pos p) - 1)) by (apply Z.pow_le_mono_r; lia).
  lia.
Qed.

Lemma to_Z_of_Z x : - 2 ^ 53 <= x <= 2 ^ 53 -> Double.to_Z (Double.of_Z x) = Some x.
Proof.
  intros Hx.
  destruct (Z.eq_dec x (2 ^ 53)) as [->|]; [reflexivity|].
  destruct (Z.eq_dec x (- 2 ^ 53)) as [->|]; [reflexivity|].
  destruct x as [|p|p]; [reflexivity| |].
  - rewrite (proj1 (of_Z_normal p ltac:(apply digits_le_53; lia))).
    apply to_Z_normal, digits_le_53. lia.
  - rewrite (proj2 (of_Z_normal p ltac:(apply digits_le_53; lia))).
    apply to_Z_normal, digits_le_53. lia.
Qed.

Lemma holds_exact x : - 2 ^ 53 <= x <= 2 ^ 53 -> Double.holds x = true.
Proof. intros Hx. unfold Double.holds. rewrite to_Z_of_Z by assumption. apply Z.eqb_refl. Qed.

Lemma of_Z_1 : Double.of_Z 1 = S754_finite false 4503599627370496 (-52).
Proof. reflexivity. Qed.

(** The difference of a number of at least two digits and 1. *)
Lemma sub_normal_1 s p :
  2 <= Z.pos (digits2_pos p) <= 53 ->
  Double.sub (normal s p) (Double.of_Z 1)
  = binary_normalize 53 1024 ((signed s p - 1) * 2 ^ 52) (- 52) false.
Proof.
  intros Hd. rewrite of_Z_1. unfold normal, Double.sub, SFsub, Double.prec, Double.emax.
  set (d := Z.pos (digits2_pos p)) in *.
  assert (Hpow : 0 < 2 ^ (53 - d)) by (apply Z.pow_pos_nonneg; lia).
  assert (Hcanon : Z.pos (Z.to_pos (Z.pos p * 2 ^ (53 - d))) = Z.pos p * 2 ^ (53 - d)).
  { rewrite Z2Pos.id; lia. }
  replace (Z.min (d - 53) (-52)) with (-52) by lia.
  assert (H1 : shl_align 4503599627370496 (-52) (-52) = (4503599627370496%positive, -52))
    by reflexivity.
  rewrite H1. clear H1. cbn [fst cond_Zopp].
  unfold shl_align. destruct (-52 - (d - 53)) as [|q|q] eqn:E; [lia|lia|].
  cbn [fst]. rewrite iter_xO, Hcanon.
  f_equal.
  replace (Z.pos p * 2 ^ (53 - d) * 2 ^ Z.pos q) with (Z.pos p * 2 ^ 52).
  2:{ rewrite <- Z.mul_assoc, <- Z.pow_add_r by lia. do 2 f_equal. lia. }
  unfold signed. destruct s; cbn [cond_Zopp]; lia.
Qed.

Lemma normalize_52 s p :
  Z.pos (digits2_pos p) <= 53 ->
  binary_normalize 53 1024 (signed s p * 2 ^ 52) (- 52) false = normal s p.
Proof.
  intros Hd. unfold normal.
  destruct s; cbn [signed].
  - change (Z.neg p * 2 ^ 52) with (Z.neg (p * 4503599627370496)).
    cbn [binary_normalize]. apply (binary_round_exact true p 52); auto; lia.
  - change (Z.pos p * 2 ^ 52) with (Z.pos (p * 4503599627370496)).
    cbn [binary_normalize]. apply (binary_round_exact false p 52); auto; lia.
Qed.

(** From [-2^53 + 1] to [2^53], the binary64 decrement is exact. *)
Theorem decrementDouble_exact x :
  - 2 ^ 53 < x <= 2 ^ 53 -> decrementDouble x = Some (decrement x).
Proof.
  intros Hx.
  assert (Hdec : decrement x = x - 1).
  { unfold decrement. destruct Hx as [H1 H2].
    apply Z.ltb_lt in H1. apply Z.leb_le in H2. now rewrite H1, H2. }
  rewrite Hdec. unfold decrementDouble.
  destruct (Z.eq_dec x (2 ^ 53)) as [->|]; [reflexivity|].
  destruct (Z.eq_dec x 1) as [->|]; [reflexivity|].
  destruct (Z.eq_dec x 0) as [->|]; [reflexivity|].
  destruct (Z.eq_dec x (-1)) as [->|]; [reflexivity|].
  destruct (Z.eq_dec x (- 2 ^ 53 + 1)) as [->|]; [reflexivity|].
  assert (Hsigned : exists s p, x = signed s p /\ 2 <= Z.pos (digits2_pos p) <= 53).
  { destruct x as [|p|p]; [lia| |].
    - exists false, p. split; auto. split; [|apply digits_le_53; lia].
      pose proof (digits2_pos_spec p) as [_ H].
      destruct (Z.le_gt_cases 2 (Z.pos (digits2_pos p))); auto.
      replace (Z.pos (digits2_pos p)) with 1 in H by lia. lia.
    - exists true, p. split; auto. split; [|apply digits_le_53; lia].
      pose proof (digits2_pos_spec p) as [_ H].
      destruct (Z.le_gt_cases 2 (Z.pos (digits2_pos p))); auto.
      replace (Z.pos (digits2_pos p)) with 1 in H by lia. lia. }
  destruct Hsigned as (s & p & -> & Hd).
  assert (Hof : Double.of_Z (signed s p) = normal s p).
  { destruct s; apply of_Z_normal; lia. }
  rewrite Hof, sub_normal_1 by assumption.
  assert (Hdiff : exists p', signed s p - 1 = signed s p'
                             /\ Z.pos (digits2_pos p') <= 53).
  { destruct s; cbn [signed] in *.
    - exists (p + 1)%positive. split; [lia|]. apply digits_le_53. lia.
    - exists (Z.to_pos (Z.pos p - 1)). split; [lia|]. apply digits_le_53. lia. }
  destruct Hdiff as (p' & -> & Hd').
  rewrite normalize_52 by assumption. now apply to_Z_normal.
Qed.

Lemma iter_pos_iter {A} (f : A -> A) n : forall x, iter_pos f n x = Pos.iter f x n.
Proof.
  induction n as [n IH|n IH|]; intros x; cbn [iter_pos Pos.iter].
  - now rewrite !IH, !Pos.iter_swap.
  - now rewrite !IH.
  - reflexivity.
Qed.

Lemma shr_1_nonneg m r s :
  0 <= m ->
  shr_1 {| shr_m := m; shr_r := r; shr_s := s |}
  = {| shr_m := m / 2; shr_r := Z.odd m; shr_s := r || s |}.
Proof.
  intros Hm. rewrite <- Z.div2_div.
  destruct m as [|p|p]; [reflexivity| |lia].
  destruct p; reflexivity.
Qed.

(** Shifting right by [n] digits: the quotient, whether the remainder
    reaches one half, and whether it has anything below the half. *)
Lemma shr_iter M n :
  0 <= M ->
  iter_pos shr_1 n {| shr_m := M; shr_r := false; shr_s := false |}
  = {| shr_m := M / 2 ^ Z.pos n;
       shr_r := 2 ^ (Z.pos n - 1) <=? M mod 2 ^ Z.pos n;
       shr_s := negb (M mod 2 ^ (Z.pos n - 1) =? 0) |}.
Proof.
  intros HM. rewrite iter_pos_iter.
  induction n as [|n IH] using Pos.peano_ind.
  - cbn [Pos.iter]. rewrite shr_1_nonneg by assumption.
    change (2 ^ 1) with 2. change (2 ^ (1 - 1)) with 1.
    rewrite Z.mod_1_r, Zmod_odd. f_equal. now destruct (Z.odd M).
  - rewrite Pos.iter_succ, IH.
    assert (Hp : 0 < 2 ^ Z.pos n) by (apply Z.pow_pos_nonneg; lia).
    assert (Hp' : 0 < 2 ^ (Z.pos n - 1)) by (apply Z.pow_pos_nonneg; lia).
    rewrite shr_1_nonneg by (apply Z.div_pos; lia).
    rewrite Pos2Z.inj_succ.
    replace (Z.succ (Z.pos n) - 1) with (Z.pos n) by lia.
    rewrite Z.pow_succ_r by lia.
    rewrite (Z.mul_comm 2 (2 ^ Z.pos n)).
    rewrite Z.div_div by lia.
    rewrite (Z.rem_mul_r M (2 ^ Z.pos n) 2) by lia.
    rewrite Zmod_odd.
    pose proof (Z.mod_pos_bound M (2 ^ Z.pos n) Hp) as Hb.
    assert (Hsplit : M mod 2 ^ Z.pos n
                     = M mod 2 ^ (Z.pos n - 1)
                       + 2 ^ (Z.pos n - 1) * ((M / 2 ^ (Z.pos n - 1)) mod 2)).
    { rewrite <- Z.rem_mul_r by lia. f_equal.
      replace (Z.pos n) with (Z.succ (Z.pos n - 1)) at 1 by lia.
      rewrite Z.pow_succ_r by lia. lia. }
    pose proof (Z.mod_pos_bound M (2 ^ (Z.pos n - 1)) Hp') as Hb'.
    pose proof (Z.mod_pos_bound (M / 2 ^ (Z.pos n - 1)) 2 ltac:(lia)) as Hb2.
    f_equal.
    + destruct (Z.odd (M / 2 ^ Z.pos n)); symmetry.
      * apply Z.leb_le. lia.
      * apply Z.leb_gt. lia.
    + assert (Hbit : (M / 2 ^ (Z.pos n - 1)) mod 2 = 0
                     \/ (M / 2 ^ (Z.pos n - 1)) mod 2 = 1) by lia.
      destruct (Z.leb_spec (2 ^ (Z.pos n - 1)) (M mod 2 ^ Z.pos n));
        destruct (Z.eqb_spec (M mod 2 ^ (Z.pos n - 1)) 0);
        destruct (Z.eqb_spec (M mod 2 ^ Z.pos n) 0); cbn; try reflexivity;
        exfalso; destruct Hbit as [Hbit|Hbit]; rewrite Hbit in Hsplit; lia.
Qed.

Lemma shr_split M n Q R :
  M = Q * 2 ^ Z.pos n + R -> 0 <= Q -> 0 <= R < 2 ^ Z.pos n ->
  iter_pos shr_1 n {| shr_m := M; shr_r := false; shr_s := false |}
  = {| shr_m := Q;
       shr_r := 2 ^ (Z.pos n - 1) <=? R;
       shr_s := negb (R mod 2 ^ (Z.pos n - 1) =? 0) |}.
Proof.
  intros HM HQ HR.
  assert (Hp : 0 < 2 ^ Z.pos n) by (apply Z.pow_pos_nonneg; lia).
  assert (Hp' : 0 < 2 ^ (Z.pos n - 1)) by (apply Z.pow_pos_nonneg; lia).
  rewrite shr_iter by nia.
  assert (Hq : M / 2 ^ Z.pos n = Q).
  { symmetry. apply (Z.div_unique M (2 ^ Z.pos n) Q R); [lia|]. lia. }
  assert (Hr : M mod 2 ^ Z.pos n = R).
  { symmetry. apply (Z.mod_unique M (2 ^ Z.pos n) Q R); [lia|]. lia. }
  assert (Hr' : M mod 2 ^ (Z.pos n - 1) = R mod 2 ^ (Z.pos n - 1)).
  { rewrite HM.
    replace (2 ^ Z.pos n) with (2 * 2 ^ (Z.pos n - 1)).
    2:{ replace (Z.pos n) with (Z.succ (Z.pos n - 1)) at 2 by lia.
        rewrite Z.pow_succ_r by lia. lia. }
    rewrite Z.mul_assoc, Z.add_comm, Z.mod_add by lia. reflexivity. }
  now rewrite Hq, Hr, Hr'.
Qed.

(** [binary_round_aux] on a mantissa of [53 + n] digits: shift right by
    [n], round, and renormalise if the rounding carried into a 54th
    digit. *)
Lemma binary_round_aux_shift s M e n Q r st m1 :
  Z.pos (digits2_pos M) = 53 + Z.pos n ->
  -1074 <= e + Z.pos n ->
  iter_pos shr_1 n {| shr_m := Z.pos M; shr_r := false; shr_s := false |}
  = {| shr_m := Q; shr_r := r; shr_s := st |} ->
  round_nearest_even Q (loc_of_shr_record {| shr_m := Q; shr_r := r; shr_s := st |})
  = Z.pos m1 ->
  (Z.pos (digits2_pos m1) = 53 -> e + Z.pos n <= 971 ->
   binary_round_aux 53 1024 s (Z.pos M) e loc_Exact = S754_finite s m1 (e + Z.pos n))
  /\ (m1 = 9007199254740992%positive -> e + Z.pos n + 1 <= 971 ->
      binary_round_aux 53 1024 s (Z.pos M) e loc_Exact
      = S754_finite s 4503599627370496 (e + Z.pos n + 1)).
Proof.
  intros HdM Hlo Hshr Hround.
  assert (Hstart : binary_round_aux 53 1024 s (Z.pos M) e loc_Exact
                   = let '(mrs'', e'') := shr_fexp 53 1024 (Z.pos m1) (e + Z.pos n) loc_Exact in
                     match shr_m mrs'' with
                     | 0 => S754_zero s
                     | Z.pos m => if e'' <=? 1024 - 53 then S754_finite s m e''
                                  else S754_infinity s
                     | Z.neg _ => S754_nan
                     end).
  { unfold binary_round_aux. unfold shr_fexp at 1. cbn [Zdigits2 shr_record_of_loc].
    rewrite HdM.
    replace (fexp 53 1024 (53 + Z.pos n + e) - e) with (Z.pos n)
      by (unfold fexp, emin; lia).
    cbn [shr]. rewrite Hshr. cbn [shr_m]. rewrite Hround. reflexivity. }
  rewrite Hstart. clear Hstart. split.
  - intros Hd Hhi. unfold shr_fexp. cbn [Zdigits2 shr_record_of_loc]. rewrite Hd.
    replace (fexp 53 1024 (53 + (e + Z.pos n)) - (e + Z.pos n)) with 0
      by (unfold fexp, emin; lia).
    cbn [shr shr_m].
    destruct (Z.leb_spec (e + Z.pos n) (1024 - 53)); [reflexivity|lia].
  - intros -> Hhi. unfold shr_fexp. cbn [Zdigits2 shr_record_of_loc].
    change (Z.pos (digits2_pos 9007199254740992)) with 54.
    replace (fexp 53 1024 (54 + (e + Z.pos n)) - (e + Z.pos n)) with 1
      by (unfold fexp, emin; lia).
    cbn [shr iter_pos shr_1 shr_m orb].
    destruct (Z.leb_spec (e + Z.pos n + 1) (1024 - 53)); [reflexivity|lia].
Qed.

Lemma binary_round_shift s D ex n Q r st m1 :
  Z.pos (digits2_pos D) = 53 + Z.pos n ->
  -1074 <= ex + Z.pos n ->
  iter_pos shr_1 n {| shr_m := Z.pos D; shr_r := false; shr_s := false |}
  = {| shr_m := Q; shr_r := r; shr_s := st |} ->
  round_nearest_even Q (loc_of_shr_record {| shr_m := Q; shr_r := r; shr_s := st |})
  = Z.pos m1 ->
  (Z.pos (digits2_pos m1) = 53 -> ex + Z.pos n <= 971 ->
   binary_round 53 1024 s D ex = S754_finite s m1 (ex + Z.pos n))
  /\ (m1 = 9007199254740992%positive -> ex + Z.pos n + 1 <= 971 ->
      binary_round 53 1024 s D ex = S754_finite s 4503599627370496 (ex + Z.pos n + 1)).
Proof.
  intros HdD Hlo Hshr Hround.
  assert (Hstart : binary_round 53 1024 s D ex
                   = binary_round_aux 53 1024 s (Z.pos D) ex loc_Exact).
  { unfold binary_round. rewrite HdD.
    replace (fexp 53 1024 (53 + Z.pos n + ex)) with (ex + Z.pos n)
      by (unfold fexp, emin; lia).
    unfold shl_align. destruct (ex + Z.pos n - ex) eqn:E; try lia; reflexivity. }
  rewrite Hstart. now apply (binary_round_aux_shift s D ex n Q r st m1).
Qed.

(** The binary64 value of an integer of more than 53 digits whose low
    digits are 0. *)
Lemma of_Z_beyond s c E P :
  Z.pos (digits2_pos c) = 53 -> Z.pos E <= 971 ->
  Z.pos P = Z.pos c * 2 ^ Z.pos E ->
  Double.of_Z (signed s P) = S754_finite s c (Z.pos E).
Proof.
  intros Hc HE HP.
  assert (HdP : Z.pos (digits2_pos P) = 53 + Z.pos E).
  { rewrite (digits2_pos_shift c (Z.pos E) P); lia. }
  assert (Hshr : iter_pos shr_1 E {| shr_m := Z.pos P; shr_r := false; shr_s := false |}
                 = {| shr_m := Z.pos c; shr_r := false; shr_s := false |}).
  { rewrite HP. apply iter_shr_exact. }
  destruct (binary_round_shift s P 0 E (Z.pos c) false false c HdP ltac:(lia) Hshr eq_refl)
    as [H _].
  unfold Double.of_Z, Double.prec, Double.emax.
  destruct s; cbn [signed binary_normalize]; rewrite H by (cbn; lia); reflexivity.
Qed.

Lemma to_Z_beyond s c E :
  Double.to_Z (S754_finite s c (Z.pos E)) = Some (signed s c * 2 ^ Z.pos E).
Proof. reflexivity. Qed.

Lemma sub_beyond s c E :
  Double.sub (S754_finite s c (Z.pos E)) (Double.of_Z 1)
  = binary_normalize 53 1024
      ((if s then - (Z.pos c * 2 ^ (52 + Z.pos E)) else Z.pos c * 2 ^ (52 + Z.pos E))
       - 2 ^ 52)
      (- 52) false.
Proof.
  rewrite of_Z_1. unfold Double.sub, SFsub, Double.prec, Double.emax.
  change (Z.min (Z.pos E) (-52)) with (-52).
  assert (H1 : shl_align 4503599627370496 (-52) (-52) = (4503599627370496%positive, -52))
    by reflexivity.
  rewrite H1. clear H1.
  assert (H2 : shl_align c (Z.pos E) (-52) = (Pos.iter xO c (52 + E), -52))
    by reflexivity.
  rewrite H2. clear H2. cbn [fst]. rewrite iter_xO.
  rewrite Pos2Z.inj_add. destruct s; reflexivity.
Qed.

Lemma decrement_stick x : 2 ^ 54 <= Z.abs x -> decrement x = x.
Proof.
  intros H. unfold decrement.
  destruct (Z.ltb_spec (- 2 ^ 53) x); destruct (Z.leb_spec x (2 ^ 53));
    destruct (Z.ltb_spec (Z.abs x) (2 ^ 54)); cbn [andb]; try lia; reflexivity.
Qed.

Lemma decrement_even x :
  2 ^ 53 < x < 2 ^ 54 \/ - 2 ^ 54 < x <= - 2 ^ 53 ->
  decrement x = if Z.odd (x / 2) then x - 2 else x.
Proof.
  intros H. unfold decrement.
  destruct (Z.ltb_spec (- 2 ^ 53) x); destruct (Z.leb_spec x (2 ^ 53));
    destruct (Z.ltb_spec (Z.abs x) (2 ^ 54)); cbn [andb]; try lia; reflexivity.
Qed.

Lemma significand_bounds c : Z.pos (digits2_pos c) = 53 -> 2 ^ 52 <= Z.pos c < 2 ^ 53.
Proof. intros Hc. pose proof (digits2_pos_spec c) as H. rewrite Hc in H. exact H. Qed.

Lemma pow2_cases E :
  (E = 1%positive /\ 2 ^ Z.pos E = 2)
  \/ (2 <= Z.pos E /\ 4 <= 2 ^ Z.pos E /\ (2 ^ Z.pos E) mod 4 = 0).
Proof.
  destruct (Pos.eq_dec E 1) as [->|Hne]; [left; auto|right].
  split; [lia|].
  replace (Z.pos E) with (Z.pos E - 2 + 2) by lia.
  rewrite Z.pow_add_r by lia. change (2 ^ 2) with 4.
  assert (0 < 2 ^ (Z.pos E - 2)) by (apply Z.pow_pos_nonneg; lia).
  split; [lia|]. apply Z.mod_mul. lia.
Qed.

Lemma pow_52_add E : 2 ^ (52 + Z.pos E) = 2 ^ 52 * 2 ^ Z.pos E.
Proof. rewrite Z.pow_add_r by lia. reflexivity. Qed.

Lemma pow_shift_52 E : 2 ^ Z.pos (E + 52) = 2 ^ 52 * 2 ^ Z.pos E.
Proof. rewrite Pos2Z.inj_add, Z.pow_add_r by lia. lia. Qed.

Lemma pow_shift_52_half E : 2 ^ (Z.pos (E + 52) - 1) = 2 ^ 51 * 2 ^ Z.pos E.
Proof.
  replace (Z.pos (E + 52) - 1) with (51 + Z.pos E) by lia.
  rewrite Z.pow_add_r by lia. reflexivity.
Qed.

Lemma pow2_ge_2 E : 2 <= 2 ^ Z.pos E.
Proof. destruct (pow2_cases E) as [[_ ->]|(_ & H & _)]; lia. Qed.

(** The digits of a value with 53 digits above [E + 52] more. *)
Lemma digits_shifted E (D : positive) :
  2 ^ 52 * (2 ^ 52 * 2 ^ Z.pos E) <= Z.pos D < 2 ^ 53 * (2 ^ 52 * 2 ^ Z.pos E) ->
  Z.pos (digits2_pos D) = 53 + Z.pos (E + 52).
Proof.
  intros H. apply digits2_pos_unique.
  replace (53 + Z.pos (E + 52) - 1) with (52 + Z.pos (E + 52)) by lia.
  rewrite !Z.pow_add_r, pow_shift_52 by lia. exact H.
Qed.

(** A positive value that is no power of two. *)
Lemma decrementDouble_pos c E :
  Z.pos (digits2_pos c) = 53 -> Z.pos E <= 971 ->
  2 ^ 52 < Z.pos c ->
  decrementDouble (Z.pos c * 2 ^ Z.pos E) = Some (decrement (Z.pos c * 2 ^ Z.pos E)).
Proof.
  intros Hc HE Hgt. pose proof (significand_bounds c Hc) as Hcb. pose proof (pow2_ge_2 E) as HT.
  pose proof (pow2_cases E) as Hcases.
  unfold decrementDouble.
  set (P := Z.to_pos (Z.pos c * 2 ^ Z.pos E)).
  assert (HP : Z.pos P = Z.pos c * 2 ^ Z.pos E) by (unfold P; rewrite Z2Pos.id; nia).
  rewrite <- HP.
  change (Double.of_Z (Z.pos P)) with (Double.of_Z (signed false P)).
  rewrite (of_Z_beyond false c E P Hc HE HP), sub_beyond, pow_52_add.
  set (D := Z.to_pos (Z.pos c * (2 ^ 52 * 2 ^ Z.pos E) - 2 ^ 52)).
  assert (HD : Z.pos D = Z.pos c * (2 ^ 52 * 2 ^ Z.pos E) - 2 ^ 52)
    by (unfold D; rewrite Z2Pos.id; nia).
  rewrite <- HD. cbn [binary_normalize].
  assert (HdD : Z.pos (digits2_pos D) = 53 + Z.pos (E + 52)).
  { apply digits_shifted. nia. }
  assert (Hshr : iter_pos shr_1 (E + 52)
                   {| shr_m := Z.pos D; shr_r := false; shr_s := false |}
                 = {| shr_m := Z.pos c - 1;
                      shr_r := 2 ^ (Z.pos (E + 52) - 1) <=? (2 ^ Z.pos E - 1) * 2 ^ 52;
                      shr_s := negb (((2 ^ Z.pos E - 1) * 2 ^ 52)
                                       mod 2 ^ (Z.pos (E + 52) - 1) =? 0) |}).
  { apply shr_split; rewrite ?pow_shift_52; lia. }
  rewrite pow_shift_52_half in Hshr.
  revert HP HD Hshr Hcases HT. generalize (2 ^ Z.pos E). intros T HP HD Hshr Hcases HT.
  assert (Hr : (2 ^ 51 * T <=? (T - 1) * 2 ^ 52) = true) by (apply Z.leb_le; lia).
  assert (Hm : ((T - 1) * 2 ^ 52) mod (2 ^ 51 * T) = 2 ^ 51 * T - 2 ^ 52).
  { replace ((T - 1) * 2 ^ 52) with (2 ^ 51 * T - 2 ^ 52 + 1 * (2 ^ 51 * T)) by lia.
    rewrite Z.mod_add by lia. apply Z.mod_small. lia. }
  rewrite Hr, Hm in Hshr.
  destruct Hcases as [[-> HT2]|(HE2 & HT4 & _)].
  - (* spacing 2: a tie *)
    subst T. change (2 ^ 51 * 2 - 2 ^ 52 =? 0) with true in Hshr.
    cbn [negb] in Hshr.
    rewrite (decrement_even (Z.pos P)) by lia.
    rewrite HP. replace (Z.pos c * 2 / 2) with (Z.pos c) by (rewrite Z.div_mul; lia).
    destruct (Z.odd (Z.pos c)) eqn:Hodd.
    + set (m1 := Z.to_pos (Z.pos c - 1)).
      assert (Hm1 : Z.pos m1 = Z.pos c - 1) by (unfold m1; rewrite Z2Pos.id; lia).
      destruct (binary_round_shift false D (-52) (1 + 52) (Z.pos c - 1) true false m1
                  HdD ltac:(lia) Hshr) as [H _].
      { cbn [loc_of_shr_record round_nearest_even].
        rewrite Z.sub_1_r, Z.even_pred, Hodd. lia. }
      rewrite H.
      * change (-52 + Z.pos (1 + 52)) with (Z.pos 1).
        rewrite to_Z_beyond. cbn [signed]. f_equal; lia.
      * apply digits2_pos_unique. lia.
      * cbn. lia.
    + destruct (binary_round_shift false D (-52) (1 + 52) (Z.pos c - 1) true false c
                  HdD ltac:(lia) Hshr) as [H _].
      { cbn [loc_of_shr_record round_nearest_even].
        rewrite Z.sub_1_r, Z.even_pred, Hodd. lia. }
      rewrite H by (auto; cbn; lia).
      change (-52 + Z.pos (1 + 52)) with (Z.pos 1).
      rewrite to_Z_beyond. cbn [signed]. f_equal; lia.
  - (* spacing 4 or more: nearer to the value itself *)
    assert (Hs : (2 ^ 51 * T - 2 ^ 52 =? 0) = false) by (apply Z.eqb_neq; lia).
    rewrite Hs in Hshr. cbn [negb] in Hshr.
    rewrite (decrement_stick (Z.pos P)) by nia.
    destruct (binary_round_shift false D (-52) (E + 52) (Z.pos c - 1) true true c
                HdD ltac:(lia) Hshr) as [H _].
    { cbn [loc_of_shr_record round_nearest_even]. lia. }
    rewrite H by (auto; lia).
    replace (-52 + Z.pos (E + 52)) with (Z.pos E) by lia.
    rewrite to_Z_beyond. cbn [signed]. f_equal; lia.
Qed.

Lemma pow_shift_51 E : 2 ^ Z.pos (E + 51) = 2 ^ 51 * 2 ^ Z.pos E.
Proof. rewrite Pos2Z.inj_add, Z.pow_add_r by lia. lia. Qed.

Lemma pow_shift_51_half E : 2 ^ (Z.pos (E + 51) - 1) = 2 ^ 50 * 2 ^ Z.pos E.
Proof.
  replace (Z.pos (E + 51) - 1) with (50 + Z.pos E) by lia.
  rewrite Z.pow_add_r by lia. reflexivity.
Qed.

(** A power of two from [2^54] on: the difference has one digit less, and
    rounds back up. *)
Lemma decrementDouble_pow E :
  2 <= Z.pos E <= 971 ->
  decrementDouble (2 ^ 52 * 2 ^ Z.pos E) = Some (decrement (2 ^ 52 * 2 ^ Z.pos E)).
Proof.
  intros HE. pose proof (pow2_cases E) as Hcases.
  destruct Hcases as [[-> _]|(_ & HT4 & Hmod)]; [lia|].
  unfold decrementDouble.
  set (P := Z.to_pos (2 ^ 52 * 2 ^ Z.pos E)).
  assert (HP : Z.pos P = Z.pos 4503599627370496 * 2 ^ Z.pos E)
    by (unfold P; rewrite Z2Pos.id; lia).
  replace (2 ^ 52 * 2 ^ Z.pos E) with (Z.pos P) by (rewrite HP; reflexivity).
  change (Double.of_Z (Z.pos P)) with (Double.of_Z (signed false P)).
  rewrite (of_Z_beyond false 4503599627370496 E P eq_refl ltac:(lia) HP),
    sub_beyond, pow_52_add.
  set (D := Z.to_pos (Z.pos 4503599627370496 * (2 ^ 52 * 2 ^ Z.pos E) - 2 ^ 52)).
  assert (HD : Z.pos D = Z.pos 4503599627370496 * (2 ^ 52 * 2 ^ Z.pos E) - 2 ^ 52)
    by (unfold D; rewrite Z2Pos.id; lia).
  rewrite <- HD. cbn [binary_normalize].
  assert (HdD : Z.pos (digits2_pos D) = 53 + Z.pos (E + 51)).
  { apply digits2_pos_unique.
    replace (53 + Z.pos (E + 51) - 1) with (52 + Z.pos (E + 51)) by lia.
    rewrite !Z.pow_add_r, pow_shift_51 by lia. lia. }
  assert (Hshr : iter_pos shr_1 (E + 51)
                   {| shr_m := Z.pos D; shr_r := false; shr_s := false |}
                 = {| shr_m := 2 ^ 53 - 1;
                      shr_r := 2 ^ (Z.pos (E + 51) - 1) <=? 2 ^ 51 * 2 ^ Z.pos E - 2 ^ 52;
                      shr_s := negb ((2 ^ 51 * 2 ^ Z.pos E - 2 ^ 52)
                                       mod 2 ^ (Z.pos (E + 51) - 1) =? 0) |}).
  { apply shr_split; rewrite ?pow_shift_51; lia. }
  rewrite pow_shift_51_half in Hshr.
  rewrite (decrement_stick (Z.pos P)) by lia.
  revert HP HD Hshr HT4 Hmod. generalize (2 ^ Z.pos E). intros T HP HD Hshr HT4 Hmod.
  assert (Hr : (2 ^ 50 * T <=? 2 ^ 51 * T - 2 ^ 52) = true) by (apply Z.leb_le; lia).
  assert (Hm : (2 ^ 51 * T - 2 ^ 52) mod (2 ^ 50 * T) = 2 ^ 50 * T - 2 ^ 52).
  { replace (2 ^ 51 * T - 2 ^ 52) with (2 ^ 50 * T - 2 ^ 52 + 1 * (2 ^ 50 * T)) by lia.
    rewrite Z.mod_add by lia. apply Z.mod_small. lia. }
  rewrite Hr, Hm in Hshr.
  assert (Hround : round_nearest_even (2 ^ 53 - 1)
                     (loc_of_shr_record
                        {| shr_m := 2 ^ 53 - 1; shr_r := true;
                           shr_s := negb (2 ^ 50 * T - 2 ^ 52 =? 0) |})
                   = Z.pos 9007199254740992).
  { destruct (negb (2 ^ 50 * T - 2 ^ 52 =? 0)); reflexivity. }
  destruct (binary_round_shift false D (-52) (E + 51) _ _ _ _
              HdD ltac:(lia) Hshr Hround) as [_ H].
  rewrite H by (auto; lia).
  replace (-52 + Z.pos (E + 51) + 1) with (Z.pos E) by lia.
  rewrite to_Z_beyond. cbn [signed]. f_equal; lia.
Qed.

(** A negative value of magnitude [2^53] or more. *)
Lemma decrementDouble_neg c E :
  Z.pos (digits2_pos c) = 53 -> Z.pos E <= 971 ->
  decrementDouble (Z.neg c * 2 ^ Z.pos E) = Some (decrement (Z.neg c * 2 ^ Z.pos E)).
Proof.
  intros Hc HE. pose proof (significand_bounds c Hc) as Hcb. pose proof (pow2_ge_2 E) as HT.
  pose proof (pow2_cases E) as Hcases.
  unfold decrementDouble.
  set (P := Z.to_pos (Z.pos c * 2 ^ Z.pos E)).
  assert (HP : Z.pos P = Z.pos c * 2 ^ Z.pos E) by (unfold P; rewrite Z2Pos.id; nia).
  assert (HPn : Z.neg c * 2 ^ Z.pos E = Z.neg P).
  { rewrite <- !Pos2Z.opp_pos, HP. lia. }
  rewrite HPn.
  change (Double.of_Z (Z.neg P)) with (Double.of_Z (signed true P)).
  rewrite (of_Z_beyond true c E P Hc HE HP), sub_beyond, pow_52_add.
  set (D := Z.to_pos (Z.pos c * (2 ^ 52 * 2 ^ Z.pos E) + 2 ^ 52)).
  assert (HD : Z.pos D = Z.pos c * (2 ^ 52 * 2 ^ Z.pos E) + 2 ^ 52)
    by (unfold D; rewrite Z2Pos.id; nia).
  replace (- (Z.pos c * (2 ^ 52 * 2 ^ Z.pos E)) - 2 ^ 52) with (Z.neg D)
    by (rewrite <- Pos2Z.opp_pos, HD; lia).
  cbn [binary_normalize].
  assert (HdD : Z.pos (digits2_pos D) = 53 + Z.pos (E + 52)).
  { apply digits_shifted. nia. }
  assert (Hshr : iter_pos shr_1 (E + 52)
                   {| shr_m := Z.pos D; shr_r := false; shr_s := false |}
                 = {| shr_m := Z.pos c;
                      shr_r := 2 ^ (Z.pos (E + 52) - 1) <=? 2 ^ 52;
                      shr_s := negb (2 ^ 52 mod 2 ^ (Z.pos (E + 52) - 1) =? 0) |}).
  { apply shr_split; rewrite ?pow_shift_52; lia. }
  rewrite pow_shift_52_half in Hshr.
  rewrite <- (Pos2Z.opp_pos P).
  revert HP HD Hshr Hcases HT. generalize (2 ^ Z.pos E). intros T HP HD Hshr Hcases HT.
  destruct Hcases as [[-> HT2]|(HE2 & HT4 & _)].
  - (* spacing 2: a tie *)
    subst T. change (2 ^ 51 * 2 <=? 2 ^ 52) with true in Hshr.
    change (negb (2 ^ 52 mod (2 ^ 51 * 2) =? 0)) with false in Hshr.
    rewrite (decrement_even (- Z.pos P)) by lia.
    rewrite HP.
    replace (- (Z.pos c * 2) / 2) with (- Z.pos c)
      by (rewrite <- Z.mul_opp_l, Z.div_mul; lia).
    rewrite Z.odd_opp.
    destruct (Z.odd (Z.pos c)) eqn:Hodd.
    + assert (Hround : round_nearest_even (Z.pos c)
                         (loc_of_shr_record
                            {| shr_m := Z.pos c; shr_r := true; shr_s := false |})
                       = Z.pos (c + 1)).
      { cbn [loc_of_shr_record round_nearest_even].
        rewrite <- Z.negb_odd, Hodd. cbn [negb]. lia. }
      destruct (binary_round_shift true D (-52) (1 + 52) _ _ _ _
                  HdD ltac:(lia) Hshr Hround) as [H1 H2].
      destruct (Z.eq_dec (Z.pos (c + 1)) (2 ^ 53)) as [Hcarry|Hnc].
      * rewrite H2 by (try (apply Pos2Z.inj; exact Hcarry); cbn; lia).
        change (-52 + Z.pos (1 + 52) + 1) with (Z.pos 2).
        rewrite to_Z_beyond. cbn [signed]. f_equal; lia.
      * rewrite H1 by (try (apply digits2_pos_unique; lia); cbn; lia).
        change (-52 + Z.pos (1 + 52)) with (Z.pos 1).
        rewrite to_Z_beyond. cbn [signed]. f_equal; lia.
    + assert (Hround : round_nearest_even (Z.pos c)
                         (loc_of_shr_record
                            {| shr_m := Z.pos c; shr_r := true; shr_s := false |})
                       = Z.pos c).
      { cbn [loc_of_shr_record round_nearest_even].
        rewrite <- Z.negb_odd, Hodd. reflexivity. }
      destruct (binary_round_shift true D (-52) (1 + 52) _ _ _ _
                  HdD ltac:(lia) Hshr Hround) as [H1 _].
      rewrite H1 by (auto; cbn; lia).
      change (-52 + Z.pos (1 + 52)) with (Z.pos 1).
      rewrite to_Z_beyond. cbn [signed]. f_equal; lia.
  - (* spacing 4 or more: nearer to the value itself *)
    assert (Hr : (2 ^ 51 * T <=? 2 ^ 52) = false) by (apply Z.leb_gt; lia).
    assert (Hm : 2 ^ 52 mod (2 ^ 51 * T) = 2 ^ 52) by (apply Z.mod_small; lia).
    rewrite Hr, Hm in Hshr. change (negb (2 ^ 52 =? 0)) with true in Hshr.
    rewrite (decrement_stick (- Z.pos P)) by nia.
    destruct (binary_round_shift true D (-52) (E + 52) (Z.pos c) false true c
                HdD ltac:(lia) Hshr eq_refl) as [H _].
    rewrite H by (auto; lia).
    replace (-52 + Z.pos (E + 52)) with (Z.pos E) by lia.
    rewrite to_Z_beyond. cbn [signed]. f_equal; lia.
Qed.

Lemma holds_beyond s c E :
  Z.pos (digits2_pos c) = 53 -> Z.pos E <= 971 ->
  Double.holds (signed s c * 2 ^ Z.pos E) = true.
Proof.
  intros Hc HE. pose proof (pow2_ge_2 E) as HT.
  set (P := Z.to_pos (Z.pos c * 2 ^ Z.pos E)).
  assert (HP : Z.pos P = Z.pos c * 2 ^ Z.pos E) by (unfold P; rewrite Z2Pos.id; nia).
  assert (Hx : signed s c * 2 ^ Z.pos E = signed s P).
  { destruct s; cbn [signed]; [|now rewrite HP].
    rewrite <- !Pos2Z.opp_pos, HP. lia. }
  unfold Double.holds. rewrite Hx at 1.
  rewrite (of_Z_beyond s c E P Hc HE HP), to_Z_beyond. apply Z.eqb_refl.
Qed.

(** On every integer that a number can hold, [decrement] is the binary64
    subtraction of 1. *)
Theorem decrement_binary64 x :
  isNumber x -> Double.holds x = true /\ decrementDouble x = Some (decrement x).
Proof.
  intros [Hx|(s & c & E & Hc & HE & ->)].
  - split; [now apply holds_exact|].
    destruct (Z.eq_dec x (- 2 ^ 53)) as [->|Hne]; [reflexivity|].
    apply decrementDouble_exact. lia.
  - split; [now apply holds_beyond|].
    destruct s; cbn [signed]; [now apply decrementDouble_neg|].
    pose proof (significand_bounds c Hc) as Hcb.
    destruct (Z.eq_dec (Z.pos c) (2 ^ 52)) as [Heq|Hne].
    + rewrite Heq. destruct (Pos.eq_dec E 1) as [->|HE1].
      * reflexivity.
      * apply decrementDouble_pow. lia.
    + apply decrementDouble_pos; auto. lia.
Qed.

End Binary64.

(** ** The countdown variable *)

Lemma two_53 : (2 ^ 53 = 9007199254740992)%Z.
Proof. reflexivity. Qed.

Lemma two_54 : (2 ^ 54 = 18014398509481984)%Z.
Proof. reflexivity. Qed.

Lemma decrement_le x : (decrement x <= x)%Z.
Proof.
  unfold decrement.
  destruct ((- 2 ^ 53 <? x)%Z && (x <=? 2 ^ 53)%Z); [lia|].
  destruct ((Z.abs x <? 2 ^ 54)%Z && Z.odd (x / 2)); lia.
Qed.

(** From [-2^53 + 1] to [2^53] the decrement takes off exactly 1. *)
Lemma decrement_exact x : (- 2 ^ 53 < x <= 2 ^ 53)%Z -> decrement x = (x - 1)%Z.
Proof.
  intros [H1 H2]. unfold decrement.
  apply Z.ltb_lt in H1. apply Z.leb_le in H2. now rewrite H1, H2.
Qed.

Lemma decrement_ge x : (x - 2 <= decrement x)%Z.
Proof.
  unfold decrement.
  destruct ((- 2 ^ 53 <? x)%Z && (x <=? 2 ^ 53)%Z); [lia|].
  destruct ((Z.abs x <? 2 ^ 54)%Z && Z.odd (x / 2)); lia.
Qed.

Lemma decrement_running x :
  (x <= 2 ^ 53)%Z -> (0 < decrement x)%Z -> decrement x = (x - 1)%Z.
Proof.
  intros Hx Hpos. apply decrement_exact.
  pose proof (decrement_le x). rewrite two_53 in *. lia.
Qed.

Lemma decrement_expired x : (x <= 1)%Z -> (decrement x <= 0)%Z.
Proof.
  intros Hx. pose proof (decrement_le x) as Hle.
  destruct (Z.lt_ge_cases (- 2 ^ 53) x) as [H|H].
  - rewrite decrement_exact; rewrite two_53 in *; lia.
  - rewrite two_53 in *. lia.
Qed.

Lemma decrement_positive x : (1 < x)%Z -> (0 < decrement x)%Z.
Proof.
  intros Hx. pose proof (decrement_ge x) as Hge.
  destruct (Z.le_gt_cases x (2 ^ 53)) as [H|H].
  - rewrite decrement_exact; rewrite two_53 in *; lia.
  - rewrite two_53 in *. lia.
Qed.

Lemma countdown_S k t : countdown (S k) t = countdown k (decrement t).
Proof. unfold countdown. now rewrite Nat.iter_succ_r. Qed.

Lemma countdown_le k t : (countdown k t <= t)%Z.
Proof.
  revert t. induction k as [|k IH]; intros t; [cbn; lia|].
  rewrite countdown_S. pose proof (IH (decrement t)). pose proof (decrement_le t). lia.
Qed.

Lemma countdown_S_le k t : (countdown (S k) t <= countdown k t)%Z.
Proof. unfold countdown. cbn [Nat.iter]. apply decrement_le. Qed.

(** Fewer firings than the time left, and than 2^53, leave time. *)
Lemma countdown_lower k :
  forall t, (0 <= t)%Z -> (Z.of_nat k <= Z.min t (2 ^ 53))%Z ->
            (Z.min t (2 ^ 53) - Z.of_nat k <= countdown k t)%Z.
Proof.
  induction k as [|k IH]; intros t Ht Hk; [cbn; lia|].
  rewrite countdown_S.
  pose proof (decrement_ge t) as Hge. pose proof (decrement_le t) as Hle.
  destruct (Z.le_gt_cases t (2 ^ 53)) as [Hs|Hb].
  - rewrite decrement_exact in * by lia.
    specialize (IH (t - 1)%Z ltac:(lia) ltac:(lia)). lia.
  - specialize (IH (decrement t) ltac:(lia) ltac:(lia)). lia.
Qed.

Lemma countdown_positive k t :
  (Z.of_nat k < Z.min t (2 ^ 53))%Z -> (0 < countdown k t)%Z.
Proof.
  intros Hk. pose proof (countdown_lower k t ltac:(lia) ltac:(lia)). lia.
Qed.

(** Within the exact range the countdown takes off one per firing. *)
Lemma countdown_exact k t :
  (t <= 2 ^ 53)%Z -> (Z.of_nat k <= t)%Z -> countdown k t = (t - Z.of_nat k)%Z.
Proof.
  revert t. induction k as [|k IH]; intros t Ht Hk; [cbn; lia|].
  rewrite countdown_S, decrement_exact by (rewrite two_53 in *; lia).
  rewrite IH by lia. lia.
Qed.

(** ** Equations of the handlers *)

Arguments calculateResults : simpl never.

Ltac state_cbn :=
  cbn [with_currentQuestion with_participants with_answers with_timeLeft
       with_questionNumber with_questionHistory clearInterval setInterval_questionTimer
       currentQuestion participants answers questionTimer timeLeft questionNumber
       questionHistory intervals nextHandle fst snd] in *.

Ltac split_and := repeat match goal with |- _ /\ _ => split end.

Ltac inv_opt :=
  repeat match goal with
  | H : Some _ = Some _ |- _ => inversion H; subst; clear H
  | H : Some _ = None |- _ => discriminate H
  | H : None = Some _ |- _ => discriminate H
  end.

Lemma endQuestion_open s q qa :
  currentQuestion s = Some q ->
  JSMap.get (q_id q) (answers s) = Some qa ->
  endQuestion s = (with_timeLeft 0 (with_currentQuestion None s), closureEffects q qa).
Proof. intros H1 H2. unfold endQuestion. now rewrite H1, H2. Qed.

(** A second trigger finds no open question and does nothing. *)
Lemma endQuestion_idle s : currentQuestion s = None -> endQuestion s = (s, []).
Proof. intros H. unfold endQuestion. now rewrite H. Qed.

Lemma submitAnswer_ignored d s :
  (forall q qa, currentQuestion s = Some q -> q_id q = questionId d ->
                JSMap.get (questionId d) (answers s) = Some qa ->
                JSMap.has (studentName d) qa = true) ->
  submitAnswer d s = (s, []).
Proof.
  intros H. unfold submitAnswer.
  destruct (currentQuestion s) as [q|]; auto.
  destruct (String.eqb_spec (q_id q) (questionId d)) as [E|]; auto.
  destruct (JSMap.get (questionId d) (answers s)) as [qa|]; auto.
  now rewrite (H q qa eq_refl E eq_refl).
Qed.

Lemma submitAnswer_accepted d s q qa :
  currentQuestion s = Some q ->
  q_id q = questionId d ->
  JSMap.get (questionId d) (answers s) = Some qa ->
  JSMap.has (studentName d) qa = false ->
  let qa' := qa ++ [(studentName d, answer d)] in
  let s1 := with_answers (JSMap.set (questionId d) qa' (answers s)) s in
  submitAnswer d s =
    if (totalStudents s <=? S (JSMap.size qa))%nat
    then (with_timeLeft 0 (with_currentQuestion None (clearInterval (questionTimer s) s1)),
          closureEffects q qa')
    else (s1, []).
Proof.
  intros Hq Hid Hget Hhas qa' s1. subst qa' s1. unfold submitAnswer.
  rewrite Hq, Hid, String.eqb_refl, Hget, Hhas. cbn [negb].
  apply has_false_get in Hhas.
  rewrite (set_absent (studentName d) (answer d) qa Hhas).
  assert (Hts : forall a, totalStudents (with_answers a s) = totalStudents s)
    by reflexivity.
  assert (Hqt : forall a, questionTimer (with_answers a s) = questionTimer s)
    by reflexivity.
  assert (Hsz : forall x, JSMap.size (qa ++ [x]) = S (JSMap.size qa))
    by (intros; unfold JSMap.size; rewrite length_app; simpl; lia).
  rewrite Hts, Hqt, Hsz.
  destruct (totalStudents s <=? S (JSMap.size qa))%nat; auto.
  apply endQuestion_open.
  - destruct (questionTimer s); exact Hq.
  - rewrite Hid. destruct (questionTimer s); apply get_set_same.
Qed.

Lemma timerTick_dead h s :
  existsb (Nat.eqb h) (intervals s) = false -> timerTick h s = (s, []).
Proof. intros H. unfold timerTick. now rewrite H. Qed.

Lemma timerTick_running h s :
  existsb (Nat.eqb h) (intervals s) = true ->
  (0 < decrement (timeLeft s))%Z ->
  timerTick h s
  = (with_timeLeft (decrement (timeLeft s)) s,
     [Emit ToAll (timeUpdate (decrement (timeLeft s)))]).
Proof.
  intros H Ht. unfold timerTick, intervalCallback. rewrite H. state_cbn.
  destruct (Z.leb_spec (decrement (timeLeft s)) 0); [lia | reflexivity].
Qed.

Lemma timerTick_expired h s q qa :
  existsb (Nat.eqb h) (intervals s) = true ->
  (decrement (timeLeft s) <= 0)%Z ->
  currentQuestion s = Some q ->
  JSMap.get (q_id q) (answers s) = Some qa ->
  timerTick h s
  = (with_timeLeft 0 (with_currentQuestion None
       (clearInterval (questionTimer s) (with_timeLeft (decrement (timeLeft s)) s))),
     Emit ToAll (timeUpdate (decrement (timeLeft s))) :: closureEffects q qa).
Proof.
  intros H Ht Hq Hget. unfold timerTick, intervalCallback. rewrite H. state_cbn.
  destruct (Z.leb_spec (decrement (timeLeft s)) 0); [|lia].
  rewrite (endQuestion_open _ q qa); auto.
  - destruct (questionTimer s); exact Hq.
  - destruct (questionTimer s); exact Hget.
Qed.

Lemma startQuestion_refused sid question s :
  startRefused s = true ->
  startQuestion sid question s
  = (s, [Emit (ToSocket sid) (questionError questionErrorMessage)]).
Proof. intros H. unfold startQuestion. now rewrite H. Qed.

Lemma startQuestion_accepted sid question s :
  startRefused s = false ->
  let n := S (questionNumber s) in
  let q := numbered question n in
  startQuestion sid question s
  = (setInterval_questionTimer
       (clearInterval (questionTimer s)
          (with_timeLeft (in_timeLimit question)
             (with_answers (JSMap.set (in_id question) JSMap.empty (answers s))
                (with_currentQuestion (Some q)
                   (with_questionHistory
                      (JSMap.set (in_id question) n (questionHistory s))
                      (with_questionNumber n s)))))),
     [Emit (ToRoom "students") (questionStarted q);
      Emit ToAll (timeUpdate (in_timeLimit question));
      Emit (ToRoom "teachers") (questionStatus false)]).
Proof.
  intros H n q. unfold startQuestion. rewrite H. clear H.
  destruct s as [cq ps ans [h|] tl qn qh iv nh]; reflexivity.
Qed.

(** The guard of [startQuestion] refuses exactly when a question is open
    whose answer set is missing or is smaller than the roster while time
    remains. *)
Lemma startRefused_false_iff s :
  startRefused s = false <->
  currentQuestion s = None \/
  exists q qa, currentQuestion s = Some q /\
    JSMap.get (q_id q) (answers s) = Some qa /\
    (totalStudents s <= JSMap.size qa \/ (timeLeft s <= 0)%Z).
Proof.
  unfold startRefused, isQuestionComplete.
  destruct (currentQuestion s) as [q|]; [|tauto].
  destruct (JSMap.get (q_id q) (answers s)) as [qa|] eqn:E.
  - rewrite negb_false_iff, orb_true_iff, Nat.leb_le, Z.leb_le.
    split.
    + intros H. right. exists q, qa. auto.
    + intros [H|(q' & qa' & Hq & Hqa & H)]; [discriminate|].
      inv_opt. rewrite E in Hqa. inv_opt. auto.
  - split; [discriminate|].
    intros [H|(q' & qa' & Hq & Hqa & H)]; [discriminate|].
    inv_opt. rewrite E in Hqa. discriminate.
Qed.

(** ** Reading traces *)

Lemma pollCount_app n a b : pollCount n (a ++ b) = pollCount n a + pollCount n b.
Proof. unfold pollCount. now rewrite filter_app, length_app. Qed.

Lemma pollCount_closure n q qa :
  pollCount n (closureEffects q qa) = if Nat.eqb (q_questionNumber q) n then 1 else 0.
Proof.
  unfold pollCount, closureEffects. cbn [filter isPollFor pr_questionNumber].
  now destruct (Nat.eqb (q_questionNumber q) n).
Qed.

Lemma startedNumbers_app a b :
  startedNumbers (a ++ b) = startedNumbers a ++ startedNumbers b.
Proof. apply flat_map_app. Qed.

(** ** The invariant *)

Lemma Inv_open s q :
  Inv s -> currentQuestion s = Some q ->
  exists qa h,
    JSMap.get (q_id q) (answers s) = Some qa
    /\ q_questionNumber q <= questionNumber s
    /\ questionTimer s = Some h /\ intervals s = [h].
Proof.
  intros (Hopen & _ & _) Hq.
  destruct (Hopen q Hq) as (Ha & Hn & h & Ht & Hi).
  destruct (JSMap.get (q_id q) (answers s)) as [qa|] eqn:E; [|congruence].
  exists qa, h. auto.
Qed.

Lemma Inv_idle s : Inv s -> currentQuestion s = None -> intervals s = [].
Proof. intros (_ & Hidle & _). exact Hidle. Qed.

Lemma Inv_initial : Inv initial.
Proof.
  repeat split; cbn; try discriminate; auto. constructor.
Qed.

Lemma Inv_with_participants p s :
  Inv s -> NoDup (JSMap.keys p) -> Inv (with_participants p s).
Proof.
  intros (Hopen & Hidle & _) Hp. split; [|split]; auto.
Qed.

Lemma with_participants_same s : with_participants (participants s) s = s.
Proof. now destruct s. Qed.

Lemma quiet_nil : quiet [].
Proof. split; reflexivity. Qed.

(** Joins, chat, removal and disconnection touch the roster only. *)
Lemma roster_frame e s :
  isRosterEvent e = true ->
  exists p,
    fst (handle e s) = with_participants p s
    /\ (NoDup (JSMap.keys (participants s)) -> NoDup (JSMap.keys p))
    /\ quiet (snd (handle e s)).
Proof.
  destruct e as [sid|sid nm|sid question|sid data|sid data|sid nm|sid|k]; try discriminate; intros _; cbn [handle].
  - eexists. split; [reflexivity|]. split; [apply NoDup_keys_set|].
    split; reflexivity.
  - eexists. split; [reflexivity|]. split; [apply NoDup_keys_set|].
    unfold studentJoin. cbn [snd with_participants currentQuestion].
    destruct (currentQuestion s); split; reflexivity.
  - exists (participants s). rewrite with_participants_same.
    split; [reflexivity|]. split; [auto|]. split; reflexivity.
  - unfold kickStudent. destruct (findStudent nm (participants s)) as [[sid' p]|].
    + eexists. split; [reflexivity|]. split; [apply NoDup_keys_delete|].
      split; reflexivity.
    + exists (participants s). rewrite with_participants_same.
      split; [reflexivity|]. split; [auto|]. apply quiet_nil.
  - eexists. split; [reflexivity|]. split; [apply NoDup_keys_delete|].
    split; reflexivity.
Qed.

Lemma submitAnswer_cases d s :
  submitAnswer d s = (s, []) \/
  exists q qa,
    currentQuestion s = Some q /\ q_id q = questionId d
    /\ JSMap.get (questionId d) (answers s) = Some qa
    /\ JSMap.has (studentName d) qa = false.
Proof.
  destruct (currentQuestion s) as [q|] eqn:Hq.
  2:{ left. apply submitAnswer_ignored. congruence. }
  destruct (String.eqb_spec (q_id q) (questionId d)) as [Hid|Hid].
  2:{ left. apply submitAnswer_ignored. intros q' qa' Hq'. congruence. }
  destruct (JSMap.get (questionId d) (answers s)) as [qa|] eqn:Hget.
  2:{ left. apply submitAnswer_ignored. congruence. }
  destruct (JSMap.has (studentName d) qa) eqn:Hhas.
  - left. apply submitAnswer_ignored. intros q' qa' _ _ Hqa'. congruence.
  - right. exists q, qa. auto.
Qed.

Lemma existsb_single h' h : existsb (Nat.eqb h') [h] = Nat.eqb h' h.
Proof. simpl. apply orb_false_r. Qed.

Lemma Inv_intro s :
  (forall q, currentQuestion s = Some q ->
     JSMap.get (q_id q) (answers s) <> None
     /\ q_questionNumber q <= questionNumber s
     /\ exists h, questionTimer s = Some h /\ intervals s = [h]) ->
  (currentQuestion s = None -> intervals s = []) ->
  NoDup (JSMap.keys (participants s)) ->
  Inv s.
Proof. unfold Inv. auto. Qed.

Lemma Inv_roster s : Inv s -> NoDup (JSMap.keys (participants s)).
Proof. intros (_ & _ & H). exact H. Qed.

Lemma filter_self h : filter (fun k => negb (Nat.eqb k h)) [h] = [].
Proof. simpl. now rewrite Nat.eqb_refl. Qed.

Lemma Inv_step e s : Inv s -> Inv (fst (handle e s)).
Proof.
  intros HI.
  destruct (isRosterEvent e) eqn:Hr.
  { destruct (roster_frame e s Hr) as (p & -> & Hp & _).
    apply Inv_with_participants; auto. apply Hp, HI. }
  pose proof (Inv_roster s HI) as Hroster.
  destruct e as [sid|sid nm|sid question|sid data|sid data|sid nm|sid|k]; try discriminate; cbn [handle].
  - (* startQuestion *)
    destruct (startRefused s) eqn:Hs.
    + now rewrite startQuestion_refused.
    + rewrite startQuestion_accepted by assumption. cbn [fst].
      assert (Hiv : match questionTimer s with
                    | Some n => filter (fun k => negb (Nat.eqb k n)) (intervals s)
                    | None => intervals s
                    end = []).
      { destruct (currentQuestion s) as [q|] eqn:Hq.
        - destruct (Inv_open s q HI Hq) as (qa & h & _ & _ & Ht & Hi).
          rewrite Ht, Hi. apply filter_self.
        - rewrite (Inv_idle s HI Hq). now destruct (questionTimer s). }
      destruct (questionTimer s); apply Inv_intro; state_cbn; rewrite ?Hiv;
        auto; try discriminate.
      all: intros q' Hq'; inv_opt; cbn [q_id q_questionNumber numbered].
      all: rewrite get_set_same; repeat split; eauto; discriminate.
  - (* submitAnswer *)
    destruct (submitAnswer_cases data s) as [->|(q & qa & Hq & Hid & Hget & Hhas)]; auto.
    rewrite (submitAnswer_accepted data s q qa) by assumption.
    destruct (Inv_open s q HI Hq) as (qa0 & h & _ & Hn & Ht & Hi).
    destruct (totalStudents s <=? S (JSMap.size qa))%nat; cbn [fst].
    + rewrite Ht. apply Inv_intro; state_cbn; auto; try discriminate.
      intros _. rewrite Hi. apply filter_self.
    + apply Inv_intro; state_cbn; auto; try congruence.
      intros q' Hq'. rewrite Hq in Hq'. inv_opt.
      rewrite Hid, get_set_same. repeat split; eauto. discriminate.
  - (* timerTick *)
    destruct (existsb (Nat.eqb k) (intervals s)) eqn:Hlive.
    2:{ now rewrite timerTick_dead. }
    destruct (currentQuestion s) as [q|] eqn:Hq.
    2:{ rewrite (Inv_idle s HI Hq) in Hlive. discriminate. }
    destruct (Inv_open s q HI Hq) as (qa & h0 & Hget & Hn & Ht & Hi).
    destruct (Z.lt_ge_cases 0 (decrement (timeLeft s))) as [Hgt|Hle].
    + rewrite timerTick_running by assumption. cbn [fst].
      apply Inv_intro; state_cbn; auto; try congruence.
      intros q' Hq'. rewrite Hq in Hq'. inv_opt.
      rewrite Hget. repeat split; eauto. discriminate.
    + rewrite (timerTick_expired k s q qa) by assumption. cbn [fst].
      rewrite Ht. apply Inv_intro; state_cbn; auto; try discriminate.
      intros _. rewrite Hi. apply filter_self.
Qed.

Lemma reachable_Inv s : reachable s -> Inv s.
Proof. induction 1; auto using Inv_initial, Inv_step. Qed.

(** ** One step of the question life cycle *)

Lemma quiet_tick z : quiet [Emit ToAll (timeUpdate z)].
Proof. split; reflexivity. Qed.

Lemma step_outcome e s : Inv s -> Outcome e s.
Proof.
  intros HI.
  destruct (isRosterEvent e) eqn:Hr.
  { destruct (roster_frame e s Hr) as (p & Hs & _ & Hq).
    apply Stays; auto; now rewrite Hs. }
  destruct e as [sid|sid nm|sid question|sid data|sid data|sid nm|sid|k]; try discriminate; cbn [handle].
  - (* startQuestion *)
    destruct (startRefused s) eqn:Hs.
    + apply Stays; cbn [handle]; rewrite startQuestion_refused by assumption; auto.
      split; reflexivity.
    + apply (Starts _ _ sid question); auto; cbn [handle];
        rewrite startQuestion_accepted by assumption; cbn [fst snd];
        try reflexivity; destruct (questionTimer s); reflexivity.
  - (* submitAnswer *)
    destruct (submitAnswer_cases data s) as [E|(q & qa & Hq & Hid & Hget & Hhas)].
    { apply Stays; cbn [handle]; rewrite E; auto using quiet_nil. }
    pose proof (submitAnswer_accepted data s q qa Hq Hid Hget Hhas) as E.
    cbv zeta in E.
    destruct (totalStudents s <=? S (JSMap.size qa))%nat.
    + apply (Closes _ _ q); auto; cbn [handle]; rewrite E; cbn [fst snd];
        try reflexivity; try (destruct (questionTimer s); reflexivity).
      intros n. apply pollCount_closure.
    + apply Stays; cbn [handle]; rewrite E; auto using quiet_nil.
  - (* timerTick *)
    destruct (existsb (Nat.eqb k) (intervals s)) eqn:Hlive.
    2:{ apply Stays; cbn [handle]; rewrite timerTick_dead by assumption;
        auto using quiet_nil. }
    destruct (currentQuestion s) as [q|] eqn:Hq.
    2:{ rewrite (Inv_idle s HI Hq) in Hlive. discriminate. }
    destruct (Inv_open s q HI Hq) as (qa & h0 & Hget & Hn & Ht & Hi).
    destruct (Z.lt_ge_cases 0 (decrement (timeLeft s))) as [Hgt|Hle].
    + apply Stays; cbn [handle]; rewrite timerTick_running by assumption;
        auto. apply quiet_tick.
    + apply (Closes _ _ q); auto; cbn [handle];
        rewrite (timerTick_expired k s q qa) by assumption; cbn [fst snd];
        try reflexivity; try (destruct (questionTimer s); reflexivity).
      intros n. change (pollCount n (closureEffects q qa) = if Nat.eqb (q_questionNumber q) n then 1 else 0).
      apply pollCount_closure.
Qed.

(** ** Runs *)

Lemma run_cons e es s :
  run (e :: es) s
  = (fst (run es (fst (handle e s))), snd (handle e s) ++ snd (run es (fst (handle e s)))).
Proof.
  cbn [run]. destruct (handle e s) as [s1 o1]. cbn [fst snd].
  now destruct (run es s1).
Qed.

Lemma run_app es1 es2 s :
  run (es1 ++ es2) s
  = (fst (run es2 (fst (run es1 s))), snd (run es1 s) ++ snd (run es2 (fst (run es1 s)))).
Proof.
  revert s. induction es1 as [|e es1 IH]; intros s.
  - cbn [app run fst snd]. now destruct (run es2 s).
  - change ((e :: es1) ++ es2) with (e :: (es1 ++ es2)).
    rewrite !run_cons, IH. cbn [fst snd]. now rewrite app_assoc.
Qed.

Lemma Inv_run es s : Inv s -> Inv (fst (run es s)).
Proof.
  revert s. induction es as [|e es IH]; intros s HI; auto.
  rewrite run_cons. cbn [fst]. auto using Inv_step.
Qed.

Lemma reachable_run es s : reachable s -> reachable (fst (run es s)).
Proof.
  revert s. induction es as [|e es IH]; intros s HR; auto.
  rewrite run_cons. cbn [fst]. apply IH. now constructor.
Qed.

(** A question that is not the open one, and whose number has been handed
    out already, is never published again. *)
Lemma never_published n es s :
  Inv s ->
  (forall q, currentQuestion s = Some q -> q_questionNumber q <> n) ->
  n <= questionNumber s ->
  pollCount n (snd (run es s)) = 0.
Proof.
  revert s. induction es as [|e es IH]; intros s HI Hcur Hn; auto.
  rewrite run_cons. cbn [snd]. rewrite pollCount_app.
  pose proof (Inv_step e s HI) as HI'.
  destruct (step_outcome e s HI) as [Hc Hq [Hp _]|q Hq Hc Hqn Hp _ _|sid qi _ _ Hc Hqn Hp _].
  - rewrite Hp, IH; auto; [now rewrite Hc | lia].
  - rewrite Hp, IH; auto; try lia.
    + destruct (Nat.eqb_spec (q_questionNumber q) n); auto.
      exfalso. eapply Hcur; eauto.
    + rewrite Hc. discriminate.
  - rewrite Hp, IH; auto; try lia.
    rewrite Hc. intros q Hq'. inv_opt. cbn. lia.
Qed.

Lemma TraceInv_step e s out :
  TraceInv s out -> TraceInv (fst (handle e s)) (out ++ snd (handle e s)).
Proof.
  intros (HI & Hopen & Hfresh & Honce).
  pose proof (Inv_step e s HI) as HI'.
  split; [exact HI'|].
  destruct (step_outcome e s HI)
    as [Hc Hq [Hp _]|q Hq Hc Hqn Hp _ _|sid qi _ _ Hc Hqn Hp _].
  - split; [|split]; intros; rewrite pollCount_app, Hp, Nat.add_0_r; auto.
    + apply Hopen. congruence.
    + apply Hfresh. lia.
  - destruct (Inv_open s q HI Hq) as (_ & _ & _ & Hle & _).
    split; [|split].
    + rewrite Hc. discriminate.
    + intros n Hn. rewrite pollCount_app, Hp, Hfresh by lia.
      destruct (Nat.eqb_spec (q_questionNumber q) n); lia.
    + intros n. rewrite pollCount_app, Hp.
      destruct (Nat.eqb_spec (q_questionNumber q) n) as [<-|].
      * rewrite Hopen by auto. auto.
      * rewrite Nat.add_0_r. auto.
  - split; [|split]; intros; rewrite pollCount_app, Hp, Nat.add_0_r; auto.
    + rewrite Hc in H. inv_opt. cbn. apply Hfresh. lia.
    + apply Hfresh. lia.
Qed.

Lemma TraceInv_run es s out :
  TraceInv s out -> TraceInv (fst (run es s)) (out ++ snd (run es s)).
Proof.
  revert s out. induction es as [|e es IH]; intros s out HT.
  - cbn [run fst snd]. now rewrite app_nil_r.
  - rewrite run_cons. cbn [fst snd]. rewrite app_assoc.
    apply IH. now apply TraceInv_step.
Qed.

Lemma TraceInv_initial : TraceInv initial [].
Proof.
  split; [apply Inv_initial|]. split; [discriminate|]. split; auto.
Qed.

(** ** The states of the scenarios *)

Lemma preempted_state :
  currentQuestion (fst (run preempted initial)) = Some (numbered q2 2)
  /\ questionNumber (fst (run preempted initial)) = 2
  /\ startedNumbers (snd (run preempted initial)) = [1; 2]
  /\ pollCount 1 (snd (run preempted initial)) = 0.
Proof. vm_compute. repeat split; reflexivity. Qed.

Lemma aliceAnswered_state :
  startRefused (fst (run aliceAnswered initial)) = true
  /\ currentQuestion (fst (run aliceAnswered initial)) = Some (numbered q1 1)
  /\ JSMap.get "q1" (answers (fst (run aliceAnswered initial))) = Some [("Alice", "A")]
  /\ studentList (fst (run aliceAnswered initial)) = ["Alice"; "Bob"].
Proof. vm_compute. repeat split; reflexivity. Qed.

Lemma bobLeft_state :
  currentQuestion (fst (run (aliceAnswered ++ [Disconnect "s2"]) initial))
  = Some (numbered q1 1)
  /\ isQuestionComplete (fst (run (aliceAnswered ++ [Disconnect "s2"]) initial)) = true
  /\ startRefused (fst (run (aliceAnswered ++ [Disconnect "s2"]) initial)) = false
  /\ timeLeft (fst (run (aliceAnswered ++ [Disconnect "s2"]) initial)) = 5%Z
  /\ pollCount (q_questionNumber (numbered q1 1))
        (snd (handle (SubmitAnswer "s3" carolAnswers)
                (fst (run [StudentJoin "s3" "Carol"]
                        (fst (run (aliceAnswered ++ [Disconnect "s2"]) initial)))))) = 1.
Proof. vm_compute. repeat split; reflexivity. Qed.

Lemma emptyRoom_state :
  currentQuestion (fst (run emptyRoom initial)) = Some (numbered q1 1)
  /\ studentList (fst (run emptyRoom initial)) = []
  /\ JSMap.get "q1" (answers (fst (run emptyRoom initial))) = Some []
  /\ totalStudents (fst (run emptyRoom initial)) = 0.
Proof. vm_compute. repeat split; reflexivity. Qed.

Lemma bothJoined_state :
  currentQuestion (fst (run bothJoined initial)) = Some (numbered q1 1)
  /\ JSMap.get (q_id (numbered q1 1)) (answers (fst (run bothJoined initial))) = Some []
  /\ totalStudents (fst (run bothJoined initial)) = 2
  /\ timeLeft (fst (run bothJoined initial)) = 5%Z.
Proof. vm_compute. repeat split; reflexivity. Qed.

(** ** Progress of an open question *)

Lemma pollCount_tick_closure n z q qa :
  pollCount n (Emit ToAll (timeUpdate z) :: closureEffects q qa)
  = if Nat.eqb (q_questionNumber q) n then 1 else 0.
Proof. exact (pollCount_closure n q qa). Qed.

(** While a question is open, an event other than [startQuestion] either
    leaves it open, a tick of its interval decrementing the time left, or closes
    it and publishes its results once. *)
Lemma open_step e s q h :
  Inv s -> currentQuestion s = Some q -> questionTimer s = Some h ->
  isStart e = false ->
  (currentQuestion (fst (handle e s)) = Some q
   /\ questionTimer (fst (handle e s)) = Some h
   /\ pollCount (q_questionNumber q) (snd (handle e s)) = 0
   /\ if isTickOf h e
      then timeLeft (fst (handle e s)) = decrement (timeLeft s)
           /\ (0 < decrement (timeLeft s))%Z
      else timeLeft (fst (handle e s)) = timeLeft s)
  \/ (currentQuestion (fst (handle e s)) = None
      /\ pollCount (q_questionNumber q) (snd (handle e s)) = 1).
Proof.
  intros HI Hq Ht Hns.
  destruct (isRosterEvent e) eqn:Hr.
  { destruct (roster_frame e s Hr) as (p & Hs & _ & Hp & _).
    left. rewrite Hs. state_cbn. repeat split; auto.
    destruct e as [sid|sid nm|sid question|sid data|sid data|sid nm|sid|k]; try discriminate; reflexivity. }
  destruct (Inv_open s q HI Hq) as (qa & h0 & Hget & Hn & Ht' & Hi).
  assert (h0 = h) by congruence. subst h0. clear Ht'.
  destruct e as [sid|sid nm|sid question|sid data|sid data|sid nm|sid|k]; try discriminate; cbn [handle isTickOf].
  - (* submitAnswer *)
    destruct (submitAnswer_cases data s) as [E|(q' & qa' & Hq' & Hid & Hget' & Hhas)].
    { left. rewrite E. cbn [fst snd]. auto. }
    rewrite Hq in Hq'. inv_opt.
    rewrite (submitAnswer_accepted data s q' qa') by assumption.
    destruct (totalStudents s <=? S (JSMap.size qa'))%nat; cbn [fst snd].
    + right. split; [reflexivity|]. rewrite pollCount_closure.
      now rewrite Nat.eqb_refl.
    + left. state_cbn. auto.
  - (* timerTick *)
    rewrite <- (existsb_single k h), <- Hi.
    destruct (existsb (Nat.eqb k) (intervals s)) eqn:Hlive.
    2:{ left. rewrite timerTick_dead by assumption. cbn [fst snd]. auto. }
    destruct (Z.lt_ge_cases 0 (decrement (timeLeft s))) as [Hgt|Hle].
    + left. rewrite timerTick_running by assumption. cbn [fst snd]. state_cbn. auto.
    + right. rewrite (timerTick_expired k s q qa) by assumption. cbn [fst snd].
      split; [reflexivity|]. rewrite pollCount_tick_closure.
      now rewrite Nat.eqb_refl.
Qed.

Lemma idle_run_quiet es s n :
  Inv s -> currentQuestion s = None -> existsb isStart es = false ->
  pollCount n (snd (run es s)) = 0.
Proof.
  revert s. induction es as [|e es IH]; intros s HI Hc Hns; auto.
  cbn [existsb] in Hns. apply orb_false_iff in Hns. destruct Hns as [He Hes].
  rewrite run_cons. cbn [snd]. rewrite pollCount_app.
  pose proof (Inv_step e s HI) as HI'.
  destruct (step_outcome e s HI) as [Hc' _ [Hp _]|q Hq _ _ _ _ _|sid qi -> _ _ _ _ _].
  - rewrite Hp, IH; auto. congruence.
  - congruence.
  - discriminate.
Qed.

Lemma idle_run_idle es s :
  Inv s -> currentQuestion s = None -> existsb isStart es = false ->
  currentQuestion (fst (run es s)) = None.
Proof.
  revert s. induction es as [|e es IH]; intros s HI Hc Hns; auto.
  cbn [existsb] in Hns. apply orb_false_iff in Hns. destruct Hns as [He Hes].
  rewrite run_cons. cbn [fst].
  pose proof (Inv_step e s HI) as HI'.
  destruct (step_outcome e s HI) as [Hc' _ _|q Hq _ _ _ _ _|sid qi -> _ _ _ _ _].
  - apply IH; auto. congruence.
  - congruence.
  - discriminate.
Qed.

(** Without a new [startQuestion], a question that has been closed at the
    end of the run has been published exactly once in it. *)
Lemma open_run_published es s q :
  Inv s -> currentQuestion s = Some q ->
  existsb isStart es = false ->
  currentQuestion (fst (run es s)) = None ->
  pollCount (q_questionNumber q) (snd (run es s)) = 1.
Proof.
  revert s. induction es as [|e es IH]; intros s HI Hq Hns Hend.
  { cbn [run fst] in Hend. congruence. }
  cbn [existsb] in Hns. apply orb_false_iff in Hns. destruct Hns as [He Hes].
  destruct (Inv_open s q HI Hq) as (_ & h & _ & _ & Ht & _).
  rewrite run_cons in *. cbn [fst snd] in *. rewrite pollCount_app.
  pose proof (Inv_step e s HI) as HI'.
  destruct (open_step e s q h HI Hq Ht He) as [(Hq' & Ht' & Hp & Htl)|(Hc & Hp)].
  - rewrite Hp. apply IH; auto.
  - rewrite Hp, idle_run_quiet; auto.
Qed.

(** Without a new [startQuestion], enough firings of its interval close the
    open question when the time left is within the exact range. *)
Lemma open_run_closes es s q h :
  Inv s -> currentQuestion s = Some q -> questionTimer s = Some h ->
  existsb isStart es = false ->
  (timeLeft s <= 2 ^ 53)%Z ->
  Z.to_nat (Z.max 1 (timeLeft s)) <= ticksOf h es ->
  currentQuestion (fst (run es s)) = None.
Proof.
  revert s. induction es as [|e es IH]; intros s HI Hq Ht Hns Hb Hticks.
  { cbn in Hticks. lia. }
  cbn [existsb] in Hns. apply orb_false_iff in Hns. destruct Hns as [He Hes].
  rewrite run_cons. cbn [fst].
  pose proof (Inv_step e s HI) as HI'.
  unfold ticksOf in Hticks. cbn [filter] in Hticks. fold (ticksOf h es) in *.
  destruct (open_step e s q h HI Hq Ht He) as [(Hq' & Ht' & Hp & Htl)|(Hc & Hp)].
  - destruct (isTickOf h e).
    + destruct Htl as [Htl Hgt].
      pose proof (decrement_running _ Hb Hgt) as Hdec.
      cbn [List.length] in Hticks. fold (ticksOf h es) in Hticks.
      apply IH; auto; rewrite Htl, Hdec; lia.
    + fold (ticksOf h es) in Hticks. apply IH; auto; rewrite Htl; auto.
  - apply idle_run_idle; auto.
Qed.

(** ** Publication of results *)

Lemma run_initial_TraceInv es :
  TraceInv (fst (run es initial)) (snd (run es initial)).
Proof. exact (TraceInv_run es initial [] TraceInv_initial). Qed.

(** Once another question has taken the place of question [n] before its
    results were published, no continuation publishes them. *)
Lemma displaced_never_published es n q' :
  currentQuestion (fst (run es initial)) = Some q' ->
  q_questionNumber q' <> n ->
  n <= questionNumber (fst (run es initial)) ->
  pollCount n (snd (run es initial)) = 0 ->
  forall es', pollCount n (snd (run (es ++ es') initial)) = 0.
Proof.
  intros Hcur Hne Hle Hcount es'.
  rewrite run_app. cbn [snd]. rewrite pollCount_app, Hcount.
  rewrite never_published; auto.
  - apply Inv_run, Inv_initial.
  - intros q Hq. rewrite Hcur in Hq. inv_opt. assumption.
Qed.

(** C1, refuted as stated: after Bob disconnects, the first question counts
    as complete, the second one is accepted in its place, and no
    continuation of the run ever publishes the results of the first. *)
Lemma C1_preempted_question_never_published : ~ publishedExactlyOnce.
Proof.
  intros H.
  destruct preempted_state as (Hcur & Hnum & Hstarted & Hcount).
  destruct (H preempted 1) as [es' Hes'].
  { rewrite Hstarted. now left. }
  rewrite (displaced_never_published preempted 1 (numbered q2 2)) in Hes'.
  - discriminate.
  - exact Hcur.
  - discriminate.
  - rewrite Hnum. auto.
  - exact Hcount.
Qed.

(** A question that is still open when a later [startQuestion] is accepted
    is never published. *)
Lemma displaced_by_start es es' q sid question :
  currentQuestion (fst (run es initial)) = Some q ->
  startRefused (fst (run es initial)) = false ->
  pollCount (q_questionNumber q)
            (snd (run (es ++ StartQuestion sid question :: es') initial)) = 0.
Proof.
  intros Hq Hs.
  destruct (run_initial_TraceInv es) as (HI & Hopen & _).
  destruct (Inv_open _ q HI Hq) as (_ & _ & _ & Hle & _).
  rewrite run_app. cbn [snd]. rewrite pollCount_app, (Hopen q Hq).
  rewrite run_cons. cbn [snd handle]. rewrite pollCount_app.
  pose proof (Inv_step (StartQuestion sid question) _ HI) as HI'.
  cbn [handle] in HI'.
  rewrite startQuestion_accepted in * by assumption. cbn [fst snd] in *.
  rewrite never_published; auto.
  - destruct (questionTimer (fst (run es initial))); state_cbn;
      intros q' Hq'; inv_opt; cbn; lia.
  - destruct (questionTimer (fst (run es initial))); state_cbn; lia.
Qed.

Lemma pollCount_app_le n a b : pollCount n a <= pollCount n (a ++ b).
Proof. rewrite pollCount_app. lia. Qed.

(** A question that was closed before any later [startQuestion] arrived has
    been published exactly once, whatever happens afterwards. *)
Lemma closed_published_once es es' es'' q :
  currentQuestion (fst (run es initial)) = Some q ->
  existsb isStart es' = false ->
  currentQuestion (fst (run (es ++ es') initial)) = None ->
  pollCount (q_questionNumber q) (snd (run ((es ++ es') ++ es'') initial)) = 1.
Proof.
  intros Hq Hns Hend.
  destruct (run_initial_TraceInv es) as (HI & Hopen & _).
  assert (Hone : pollCount (q_questionNumber q) (snd (run (es ++ es') initial)) = 1).
  { rewrite run_app in *. cbn [fst snd] in *. rewrite pollCount_app, (Hopen q Hq).
    now apply open_run_published. }
  destruct (run_initial_TraceInv ((es ++ es') ++ es'')) as (_ & _ & _ & Honce).
  specialize (Honce (q_questionNumber q)).
  pose proof (pollCount_app_le (q_questionNumber q)
                (snd (run (es ++ es') initial))
                (snd (run es'' (fst (run (es ++ es') initial))))) as Hmono.
  rewrite (run_app (es ++ es') es'') in *. cbn [snd] in *. lia.
Qed.

(** C1, amended: results are published at most once per started question;
    a question that is closed before any later [startQuestion] arrives is
    published exactly once, whatever happens afterwards; the submission
    that completes the answer set closes it, and so does the countdown,
    after at most max(1, time left) firings when the time left is at most
    2^53; a question that is still open when a later [startQuestion] is
    accepted is never published. *)
Theorem C1_published_at_most_once :
  (forall es n, pollCount n (snd (run es initial)) <= 1)
  /\ (forall es es' es'' q,
        currentQuestion (fst (run es initial)) = Some q ->
        existsb isStart es' = false ->
        currentQuestion (fst (run (es ++ es') initial)) = None ->
        pollCount (q_questionNumber q) (snd (run ((es ++ es') ++ es'') initial)) = 1)
  /\ (forall es es'' q qa sid d,
        currentQuestion (fst (run es initial)) = Some q ->
        q_id q = questionId d ->
        JSMap.get (questionId d) (answers (fst (run es initial))) = Some qa ->
        JSMap.has (studentName d) qa = false ->
        totalStudents (fst (run es initial)) <= S (JSMap.size qa) ->
        pollCount (q_questionNumber q)
                  (snd (run ((es ++ [SubmitAnswer sid d]) ++ es'') initial)) = 1)
  /\ (forall es es' es'' q h,
        currentQuestion (fst (run es initial)) = Some q ->
        questionTimer (fst (run es initial)) = Some h ->
        existsb isStart es' = false ->
        (timeLeft (fst (run es initial)) <= 2 ^ 53)%Z ->
        Z.to_nat (Z.max 1 (timeLeft (fst (run es initial)))) <= ticksOf h es' ->
        pollCount (q_questionNumber q) (snd (run ((es ++ es') ++ es'') initial)) = 1)
  /\ (forall es es' q sid question,
        currentQuestion (fst (run es initial)) = Some q ->
        startRefused (fst (run es initial)) = false ->
        pollCount (q_questionNumber q)
                  (snd (run (es ++ StartQuestion sid question :: es') initial)) = 0).
Proof.
  split_and.
  - intros es n. apply (run_initial_TraceInv es).
  - intros es es' es'' q. apply closed_published_once.
  - intros es es'' q qa sid d Hq Hid Hget Hhas Hall.
    apply closed_published_once; auto.
    destruct (run_initial_TraceInv es) as (HI & _).
    rewrite run_app, run_cons. cbn [fst run handle].
    rewrite (submitAnswer_accepted d _ q qa) by assumption.
    apply Nat.leb_le in Hall. rewrite Hall. cbn [fst].
    destruct (questionTimer (fst (run es initial))); reflexivity.
  - intros es es' es'' q h Hq Ht Hns Hb Hticks.
    apply closed_published_once; auto.
    destruct (run_initial_TraceInv es) as (HI & _).
    rewrite run_app. cbn [fst]. now apply (open_run_closes es' _ q h).
  - intros es es' q sid question. apply displaced_by_start.
Qed.

Lemma C1_published_at_most_once_witness :
  pollCount (q_questionNumber (numbered q1 1))
            (snd (run ((aliceAnswered ++ [SubmitAnswer "s2" (answerOf "q1" "Bob" "B")])
                       ++ [StartQuestion "t" q2]) initial)) = 1
  /\ pollCount (q_questionNumber (numbered q1 1))
            (snd (run ((bothJoined ++ repeat (TimerTick 0) 5)
                       ++ [StartQuestion "t" q2]) initial)) = 1
  /\ pollCount (q_questionNumber (numbered q1 1))
        (snd (run ((aliceAnswered ++ [Disconnect "s2"])
                   ++ StartQuestion "t" q2 :: repeat (TimerTick 1) 5) initial)) = 0.
Proof.
  split_and.
  - apply (proj1 (proj2 (proj2 C1_published_at_most_once))
                 aliceAnswered [StartQuestion "t" q2] (numbered q1 1)
                 [("Alice", "A")] "s2" (answerOf "q1" "Bob" "B")).
    + apply aliceAnswered_state.
    + reflexivity.
    + apply aliceAnswered_state.
    + reflexivity.
    + vm_compute. apply le_n.
  - apply (proj1 (proj2 (proj2 (proj2 C1_published_at_most_once)))
                 bothJoined (repeat (TimerTick 0) 5) [StartQuestion "t" q2]
                 (numbered q1 1) 0).
    + apply bothJoined_state.
    + vm_compute. reflexivity.
    + vm_compute. reflexivity.
    + rewrite (proj2 (proj2 (proj2 bothJoined_state))). vm_compute. discriminate.
    + vm_compute. apply le_n.
  - apply (proj2 (proj2 (proj2 (proj2 C1_published_at_most_once)))
                 (aliceAnswered ++ [Disconnect "s2"]) (repeat (TimerTick 1) 5)
                 (numbered q1 1) "t" q2).
    + apply bobLeft_state.
    + apply bobLeft_state.
Defined.

(** ** The gate of [startQuestion] *)

Lemma mayStart_iff s : mayStart s <-> startRefused s = false.
Proof.
  rewrite startRefused_false_iff. unfold mayStart, complete.
  split; (intros [H|H]; [now left|right]).
  - destruct H as (q & Hq & qa & Hqa & Hc). eauto.
  - destruct H as (q & qa & Hq & Hqa & Hc). eauto.
Qed.

(** C2: [startQuestion] succeeds exactly when no question is open or the
    open one is complete; otherwise the requester alone is sent
    [questionError] and the state is the one before. *)
Theorem C2_startQuestion_gate s sid question :
  (mayStart s <-> startSucceeds sid question s)
  /\ (~ mayStart s ->
      startQuestion sid question s
      = (s, [Emit (ToSocket sid) (questionError questionErrorMessage)])).
Proof.
  rewrite mayStart_iff. unfold startSucceeds.
  destruct (startRefused s) eqn:Hs.
  - rewrite startQuestion_refused by assumption. cbn [fst snd].
    split; [|reflexivity]. split; [discriminate|].
    intros [_ H]. exfalso. eapply H. left. reflexivity.
  - split; [|congruence]. split; [|reflexivity]. intros _.
    rewrite startQuestion_accepted by assumption. cbn [fst snd]. split.
    + destruct (questionTimer s); reflexivity.
    + intros t m [H|[H|[H|[]]]]; discriminate.
Qed.

Lemma C2_startQuestion_gate_witness :
  startQuestion "t" q2 (fst (run aliceAnswered initial))
  = (fst (run aliceAnswered initial),
     [Emit (ToSocket "t") (questionError questionErrorMessage)]).
Proof.
  apply (proj2 (C2_startQuestion_gate (fst (run aliceAnswered initial)) "t" q2)).
  rewrite mayStart_iff, (proj1 aliceAnswered_state). discriminate.
Defined.

(** ** Sequence numbers *)

Lemma startedNumbers_run es s :
  Inv s ->
  questionNumber s <= questionNumber (fst (run es s))
  /\ startedNumbers (snd (run es s))
     = seq (S (questionNumber s)) (questionNumber (fst (run es s)) - questionNumber s).
Proof.
  revert s. induction es as [|e es IH]; intros s HI.
  { cbn [run fst snd]. rewrite Nat.sub_diag. auto. }
  rewrite run_cons. cbn [fst snd]. rewrite startedNumbers_app.
  destruct (IH _ (Inv_step e s HI)) as [Hle Hseq]. rewrite Hseq.
  destruct (step_outcome e s HI)
    as [_ Hq [_ Hst]|q _ _ Hq _ Hst _|sid qi _ _ _ Hq _ Hst]; rewrite Hst, Hq in *.
  - auto.
  - auto.
  - split; [lia|].
    replace (questionNumber (fst (run es (fst (handle e s)))) - questionNumber s)
      with (S (questionNumber (fst (run es (fst (handle e s)))) - S (questionNumber s)))
      by lia.
    reflexivity.
Qed.

(** Every firing of the interval first broadcasts the time left after the
    decrement. *)
Lemma timerTick_first_effect h s :
  existsb (Nat.eqb h) (intervals s) = true ->
  exists rest,
    snd (timerTick h s) = Emit ToAll (timeUpdate (decrement (timeLeft s))) :: rest.
Proof.
  intros H. unfold timerTick, intervalCallback. rewrite H. state_cbn.
  destruct (decrement (timeLeft s) <=? 0)%Z.
  - destruct (endQuestion _) as [s2 out]. now exists out.
  - now exists [].
Qed.

(** C6: a permitted [startQuestion] takes the next sequence number, opens
    an empty answer set for the question id, sets the time left to the time
    limit and schedules the one interval of the countdown (whose firing
    broadcasts the decremented time left, one less for a time limit from
    -2^53 + 1 to 2^53), sends the numbered question to the students, the
    time left to everyone and [canAskNew: false] to the teachers; over a
    whole run the numbers sent to the students are 1, 2, ... up to the
    counter. *)
Theorem C6_startQuestion_effects :
  (forall s sid question,
      reachable s -> startRefused s = false ->
      questionNumber (fst (startQuestion sid question s)) = S (questionNumber s)
      /\ currentQuestion (fst (startQuestion sid question s))
         = Some (numbered question (S (questionNumber s)))
      /\ JSMap.get (in_id question) (answers (fst (startQuestion sid question s)))
         = Some JSMap.empty
      /\ timeLeft (fst (startQuestion sid question s)) = in_timeLimit question
      /\ questionTimer (fst (startQuestion sid question s)) = Some (nextHandle s)
      /\ intervals (fst (startQuestion sid question s)) = [nextHandle s]
      /\ snd (startQuestion sid question s)
         = [Emit (ToRoom "students")
                 (questionStarted (numbered question (S (questionNumber s))));
            Emit ToAll (timeUpdate (in_timeLimit question));
            Emit (ToRoom "teachers") (questionStatus false)]
      /\ (exists rest,
            snd (timerTick (nextHandle s) (fst (startQuestion sid question s)))
            = Emit ToAll (timeUpdate (decrement (in_timeLimit question))) :: rest)
      /\ ((- 2 ^ 53 < in_timeLimit question <= 2 ^ 53)%Z ->
          exists rest,
            snd (timerTick (nextHandle s) (fst (startQuestion sid question s)))
            = Emit ToAll (timeUpdate (in_timeLimit question - 1)) :: rest))
  /\ (forall es,
        startedNumbers (snd (run es initial))
        = seq 1 (questionNumber (fst (run es initial)))).
Proof.
  split.
  - intros s sid question HR Hs.
    pose proof (reachable_Inv s HR) as HI.
    assert (Hiv : match questionTimer s with
                  | Some n => filter (fun k => negb (Nat.eqb k n)) (intervals s)
                  | None => intervals s
                  end = []).
    { destruct (currentQuestion s) as [q|] eqn:Hq.
      - destruct (Inv_open s q HI Hq) as (qa & h & _ & _ & Ht & Hi).
        rewrite Ht, Hi. apply filter_self.
      - rewrite (Inv_idle s HI Hq). now destruct (questionTimer s). }
    assert (Hstate :
              timeLeft (fst (startQuestion sid question s)) = in_timeLimit question
              /\ intervals (fst (startQuestion sid question s)) = [nextHandle s]).
    { rewrite startQuestion_accepted by assumption. cbn [fst].
      destruct (questionTimer s); state_cbn; rewrite Hiv; auto. }
    destruct Hstate as [Htl Hlive].
    split_and; auto.
    1-5: rewrite startQuestion_accepted by assumption; cbn [fst snd];
      destruct (questionTimer s); state_cbn; rewrite ?get_set_same; reflexivity.
    + rewrite <- Htl. apply timerTick_first_effect.
      rewrite Hlive. cbn. now rewrite Nat.eqb_refl.
    + intros Hb. rewrite <- (decrement_exact _ Hb), <- Htl.
      apply timerTick_first_effect.
      rewrite Hlive. cbn. now rewrite Nat.eqb_refl.
  - intros es. destruct (startedNumbers_run es initial Inv_initial) as [_ H].
    rewrite H. cbn [questionNumber initial]. now rewrite Nat.sub_0_r.
Qed.

Lemma C6_startQuestion_effects_witness :
  questionNumber
    (fst (startQuestion "t" q2 (fst (run (aliceAnswered ++ [Disconnect "s2"]) initial))))
  = S (questionNumber (fst (run (aliceAnswered ++ [Disconnect "s2"]) initial)))
  /\ exists rest,
       snd (timerTick (nextHandle (fst (run (aliceAnswered ++ [Disconnect "s2"]) initial)))
              (fst (startQuestion "t" q2
                      (fst (run (aliceAnswered ++ [Disconnect "s2"]) initial)))))
       = Emit ToAll (timeUpdate (in_timeLimit q2 - 1)) :: rest.
Proof.
  split.
  - apply (fun H1 H2 =>
             proj1 (proj1 C6_startQuestion_effects
                      (fst (run (aliceAnswered ++ [Disconnect "s2"]) initial)) "t" q2
                      H1 H2)).
    + apply reachable_run. constructor.
    + apply bobLeft_state.
  - apply (fun H1 H2 =>
             proj2 (proj2 (proj2 (proj2 (proj2 (proj2 (proj2 (proj2
               (proj1 C6_startQuestion_effects
                  (fst (run (aliceAnswered ++ [Disconnect "s2"]) initial)) "t" q2
                  H1 H2))))))))).
    + apply reachable_run. constructor.
    + apply bobLeft_state.
    + cbn. lia.
Defined.

(** ** Submissions *)

Lemma get_app_l {V} k (v : V) (m l : JSMap.t V) :
  JSMap.get k m = Some v -> JSMap.get k (m ++ l) = Some v.
Proof.
  induction m as [|[k' v'] m IH]; cbn; [discriminate|].
  destruct (String.eqb k' k); auto.
Qed.

Lemma keys_app {V} (m l : JSMap.t V) :
  JSMap.keys (m ++ l) = JSMap.keys m ++ JSMap.keys l.
Proof. apply map_app. Qed.

Lemma has_absent {V} k (m : JSMap.t V) : ~ In k (JSMap.keys m) -> JSMap.has k m = false.
Proof.
  intros H. apply has_false_get.
  destruct (JSMap.get k m) eqn:E; auto.
  exfalso. apply H, get_in_keys. congruence.
Qed.

(** The closure triggered by the submission that completes the answer set. *)
Lemma submitAnswer_closes d s q qa :
  Inv s ->
  currentQuestion s = Some q -> q_id q = questionId d ->
  JSMap.get (questionId d) (answers s) = Some qa ->
  JSMap.has (studentName d) qa = false ->
  totalStudents s <= S (JSMap.size qa) ->
  snd (submitAnswer d s) = closureEffects q (qa ++ [(studentName d, answer d)])
  /\ currentQuestion (fst (submitAnswer d s)) = None
  /\ timeLeft (fst (submitAnswer d s)) = 0%Z
  /\ intervals (fst (submitAnswer d s)) = []
  /\ forall h, timerTick h (fst (submitAnswer d s)) = (fst (submitAnswer d s), []).
Proof.
  intros HI Hq Hid Hget Hhas Hall.
  destruct (Inv_open s q HI Hq) as (_ & h & _ & _ & Ht & Hi).
  rewrite (submitAnswer_accepted d s q qa) by assumption.
  apply Nat.leb_le in Hall. rewrite Hall, Ht. cbn [fst snd]. state_cbn.
  rewrite Hi, filter_self. repeat split.
Qed.

Lemma submitted_app a b : submitted (a ++ b) = submitted a ++ submitted b.
Proof. apply flat_map_app. Qed.

(** While fewer names have answered than there are students, and the ticks
    do not use up the time limit, submissions accumulate and nothing is
    published. *)
Lemma answering_phase pre :
  forall s q qa,
    Inv s ->
    currentQuestion s = Some q ->
    JSMap.get (q_id q) (answers s) = Some qa ->
    forallb (isAnswerOrTick (q_id q)) pre = true ->
    NoDup (JSMap.keys qa ++ JSMap.keys (submitted pre)) ->
    JSMap.size qa + JSMap.size (submitted pre) < totalStudents s ->
    (0 < countdown (ticks pre) (timeLeft s))%Z ->
    Inv (fst (run pre s))
    /\ currentQuestion (fst (run pre s)) = Some q
    /\ JSMap.get (q_id q) (answers (fst (run pre s))) = Some (qa ++ submitted pre)
    /\ totalStudents (fst (run pre s)) = totalStudents s
    /\ (countdown (ticks pre) (timeLeft s) <= timeLeft (fst (run pre s)))%Z
    /\ forall n, pollCount n (snd (run pre s)) = 0.
Proof.
  induction pre as [|e pre IH]; intros s q qa HI Hq Hget Hall Hnd Hsz Htk.
  { cbn [run fst snd submitted flat_map]. rewrite app_nil_r.
    split_and; auto. apply Z.le_refl. }
  cbn [forallb] in Hall. apply andb_true_iff in Hall. destruct Hall as [He Hall].
  rewrite run_cons. cbn [fst snd].
  destruct e as [sid|sid nm|sid question|sid data|sid data|sid nm|sid|k]; try discriminate; cbn [handle isAnswerOrTick] in *.
  - (* a submission *)
    apply String.eqb_eq in He.
    change (submitted (SubmitAnswer sid data :: pre))
      with ((studentName data, answer data) :: submitted pre) in *.
    change (ticks (SubmitAnswer sid data :: pre)) with (ticks pre) in *.
    cbn [JSMap.keys JSMap.size map fst List.length] in Hnd, Hsz.
    assert (Hhas : JSMap.has (studentName data) qa = false).
    { apply has_absent. intros Hin. apply NoDup_remove_2 in Hnd.
      apply Hnd, in_or_app. now left. }
    pose proof (Inv_step (SubmitAnswer sid data) s HI) as HI'. cbn [handle] in HI'.
    rewrite <- He in Hget.
    rewrite (submitAnswer_accepted data s q qa) in * by auto.
    destruct (Nat.leb_spec (totalStudents s) (S (JSMap.size qa))) as [Hc|_];
      [unfold JSMap.size in *; lia|].
    cbn [fst snd] in *.
    destruct (IH _ q (qa ++ [(studentName data, answer data)]) HI')
      as (HI2 & Hq2 & Hget2 & Hts2 & Htl2 & Hp2); auto.
    + state_cbn. rewrite <- He. apply get_set_same.
    + rewrite keys_app. cbn [JSMap.keys map fst]. rewrite <- app_assoc.
      exact Hnd.
    + unfold JSMap.size in *. rewrite length_app. cbn [List.length].
      change (totalStudents (with_answers _ s)) with (totalStudents s). lia.
    + rewrite <- app_assoc in Hget2. split_and; auto.
  - (* a tick *)
    change (submitted (TimerTick k :: pre)) with (submitted pre) in *.
    change (ticks (TimerTick k :: pre)) with (S (ticks pre)) in *.
    pose proof (Inv_step (TimerTick k) s HI) as HI'. cbn [handle] in HI'.
    destruct (existsb (Nat.eqb k) (intervals s)) eqn:Hlive.
    + rewrite countdown_S in *.
      pose proof (countdown_le (ticks pre) (decrement (timeLeft s))) as Hdec.
      rewrite timerTick_running in * by (auto; lia). cbn [fst snd] in *.
      destruct (IH _ q qa HI') as (HI2 & Hq2 & Hget2 & Hts2 & Htl2 & Hp2); auto.
    + pose proof (countdown_S_le (ticks pre) (timeLeft s)) as Hdec.
      rewrite timerTick_dead in * by auto. cbn [fst snd] in *.
      destruct (IH _ q qa HI') as (HI2 & Hq2 & Hget2 & Hts2 & Htl2 & Hp2); auto.
      * lia.
      * split_and; auto. lia.
Qed.

Lemma NoDup_snoc_absent {A} (l : list A) x : NoDup (l ++ [x]) -> ~ In x l /\ NoDup l.
Proof.
  intros H. split.
  - apply NoDup_remove_2 in H. now rewrite app_nil_r in H.
  - apply NoDup_remove_1 in H. now rewrite app_nil_r in H.
Qed.

(** C3: the accepted submission that brings the answer set up to the
    number of students cancels the countdown and runs the closure
    procedure at once; in particular a question whose students all answer,
    under distinct names and before the time limit, the countdown not
    having reached 0 after the ticks so far, is closed by the last of these
    submissions, with nothing published before it. *)
Theorem C3_all_answered_closes :
  (forall s q d qa,
      reachable s ->
      currentQuestion s = Some q -> q_id q = questionId d ->
      JSMap.get (questionId d) (answers s) = Some qa ->
      JSMap.has (studentName d) qa = false ->
      totalStudents s <= S (JSMap.size qa) ->
      snd (submitAnswer d s) = closureEffects q (qa ++ [(studentName d, answer d)])
      /\ currentQuestion (fst (submitAnswer d s)) = None
      /\ timeLeft (fst (submitAnswer d s)) = 0%Z
      /\ intervals (fst (submitAnswer d s)) = []
      /\ forall h, timerTick h (fst (submitAnswer d s)) = (fst (submitAnswer d s), []))
  /\ (forall s q qa pre sid d,
      reachable s ->
      currentQuestion s = Some q ->
      JSMap.get (q_id q) (answers s) = Some qa ->
      forallb (isAnswerOrTick (q_id q)) (pre ++ [SubmitAnswer sid d]) = true ->
      NoDup (JSMap.keys qa ++ JSMap.keys (submitted (pre ++ [SubmitAnswer sid d]))) ->
      totalStudents s = JSMap.size qa + JSMap.size (submitted (pre ++ [SubmitAnswer sid d])) ->
      (0 < countdown (ticks pre) (timeLeft s))%Z ->
      (forall n, pollCount n (snd (run pre s)) = 0)
      /\ currentQuestion (fst (run pre s)) = Some q
      /\ (0 < timeLeft (fst (run pre s)))%Z
      /\ snd (handle (SubmitAnswer sid d) (fst (run pre s)))
         = closureEffects q (qa ++ submitted (pre ++ [SubmitAnswer sid d]))
      /\ currentQuestion (fst (run (pre ++ [SubmitAnswer sid d]) s)) = None
      /\ intervals (fst (run (pre ++ [SubmitAnswer sid d]) s)) = []
      /\ pollCount (q_questionNumber q) (snd (run (pre ++ [SubmitAnswer sid d]) s)) = 1).
Proof.
  split.
  - intros s q d qa HR. apply submitAnswer_closes. now apply reachable_Inv.
  - intros s q qa pre sid d HR Hq Hget Hall Hnd Hsz Htk.
    pose proof (reachable_Inv s HR) as HI.
    rewrite submitted_app in *.
    change (submitted [SubmitAnswer sid d]) with [(studentName d, answer d)] in *.
    rewrite keys_app, app_assoc in Hnd. cbn [JSMap.keys map fst] in Hnd.
    apply NoDup_snoc_absent in Hnd. destruct Hnd as [Hfresh Hnd].
    rewrite <- keys_app in Hfresh.
    unfold JSMap.size in Hsz. rewrite length_app in Hsz. cbn [List.length] in Hsz.
    rewrite forallb_app in Hall. apply andb_true_iff in Hall.
    destruct Hall as [Hall Hlast]. cbn [forallb isAnswerOrTick] in Hlast.
    rewrite andb_true_r in Hlast. apply String.eqb_eq in Hlast.
    destruct (answering_phase pre s q qa) as (HI1 & Hq1 & Hget1 & Hts1 & Htl1 & Hp1);
      auto.
    { unfold JSMap.size. lia. }
    rewrite <- Hlast in Hget1.
    destruct (submitAnswer_closes d (fst (run pre s)) q (qa ++ submitted pre))
      as (Hout & Hcur & _ & Hiv & _); auto using has_absent.
    { rewrite Hts1. unfold JSMap.size. rewrite length_app. lia. }
    assert (Hrun : run (pre ++ [SubmitAnswer sid d]) s
                   = (fst (submitAnswer d (fst (run pre s))),
                      snd (run pre s) ++ snd (submitAnswer d (fst (run pre s))) ++ [])).
    { rewrite run_app, run_cons. reflexivity. }
    rewrite Hrun. cbn [fst snd handle].
    rewrite <- app_assoc in Hout. split_and; auto; try lia.
    rewrite !pollCount_app, Hp1, Hout, pollCount_closure, Nat.eqb_refl. reflexivity.
Qed.

Lemma C3_all_answered_closes_witness :
  snd (submitAnswer (answerOf "q1" "Bob" "B") (fst (run aliceAnswered initial)))
  = closureEffects (numbered q1 1)
      ([("Alice", "A")]
       ++ [(studentName (answerOf "q1" "Bob" "B"), answer (answerOf "q1" "Bob" "B"))])
  /\ pollCount (q_questionNumber (numbered q1 1))
        (snd (run ([SubmitAnswer "s1" (answerOf "q1" "Alice" "A"); TimerTick 0]
                   ++ [SubmitAnswer "s2" (answerOf "q1" "Bob" "B")])
                  (fst (run bothJoined initial)))) = 1.
Proof.
  split.
  - apply (proj1 C3_all_answered_closes
                 (fst (run aliceAnswered initial)) (numbered q1 1)
                 (answerOf "q1" "Bob" "B") [("Alice", "A")]).
    + apply reachable_run. constructor.
    + apply aliceAnswered_state.
    + reflexivity.
    + apply aliceAnswered_state.
    + reflexivity.
    + vm_compute. apply le_n.
  - apply (proj2 C3_all_answered_closes
                 (fst (run bothJoined initial)) (numbered q1 1) []
                 [SubmitAnswer "s1" (answerOf "q1" "Alice" "A"); TimerTick 0]
                 "s2" (answerOf "q1" "Bob" "B")).
    + apply reachable_run. constructor.
    + apply bothJoined_state.
    + apply bothJoined_state.
    + reflexivity.
    + cbn. repeat constructor; cbn; intuition discriminate.
    + rewrite (proj1 (proj2 (proj2 bothJoined_state))). reflexivity.
    + rewrite (proj2 (proj2 (proj2 bothJoined_state))). reflexivity.
Defined.

(** ** Entries of an answer set stay *)

Lemma entry_persists_step e s qid who a :
  Inv s -> startsId qid e = false ->
  (exists qa, JSMap.get qid (answers s) = Some qa /\ JSMap.get who qa = Some a) ->
  exists qa', JSMap.get qid (answers (fst (handle e s))) = Some qa'
              /\ JSMap.get who qa' = Some a.
Proof.
  intros HI Hns (qa & Hget & Hwho).
  destruct (isRosterEvent e) eqn:Hr.
  { destruct (roster_frame e s Hr) as (p & -> & _). exists qa. auto. }
  destruct e as [sid|sid nm|sid question|sid data|sid data|sid nm|sid|k]; try discriminate; cbn [handle startsId] in *.
  - (* startQuestion *)
    destruct (startRefused s) eqn:Hs.
    + rewrite startQuestion_refused by assumption. exists qa. auto.
    + rewrite startQuestion_accepted by assumption. cbn [fst].
      exists qa. split; auto.
      destruct (questionTimer s); state_cbn;
        (rewrite get_set_other; [assumption|]);
        intros E; rewrite E, String.eqb_refl in Hns; discriminate.
  - (* submitAnswer *)
    destruct (submitAnswer_cases data s) as [->|(q & qa0 & Hq & Hid & Hget0 & Hhas)].
    { exists qa. auto. }
    assert (Hans : answers (fst (submitAnswer data s))
                   = JSMap.set (questionId data)
                       (qa0 ++ [(studentName data, answer data)]) (answers s)).
    { rewrite (submitAnswer_accepted data s q qa0) by assumption.
      destruct (totalStudents s <=? S (JSMap.size qa0))%nat; cbn [fst];
        destruct (questionTimer s); reflexivity. }
    rewrite Hans.
    destruct (String.eqb_spec (questionId data) qid) as [E|E].
    + subst qid. rewrite Hget in Hget0. inv_opt.
      rewrite get_set_same. eexists. split; [reflexivity|]. now apply get_app_l.
    + rewrite get_set_other by assumption. exists qa. auto.
  - (* timerTick *)
    exists qa. split; auto.
    destruct (existsb (Nat.eqb k) (intervals s)) eqn:Hlive.
    2:{ now rewrite timerTick_dead. }
    destruct (currentQuestion s) as [q|] eqn:Hq.
    2:{ rewrite (Inv_idle s HI Hq) in Hlive. discriminate. }
    destruct (Inv_open s q HI Hq) as (qa0 & h0 & Hget0 & _ & Ht & _).
    destruct (Z.lt_ge_cases 0 (decrement (timeLeft s))) as [Hgt|Hle].
    + now rewrite timerTick_running.
    + rewrite (timerTick_expired k s q qa0) by assumption. now rewrite Ht.
Qed.

Lemma entry_persists_run es :
  forall s qid who a,
    Inv s -> existsb (startsId qid) es = false ->
    (exists qa, JSMap.get qid (answers s) = Some qa /\ JSMap.get who qa = Some a) ->
    exists qa', JSMap.get qid (answers (fst (run es s))) = Some qa'
                /\ JSMap.get who qa' = Some a.
Proof.
  induction es as [|e es IH]; intros s qid who a HI Hns H; auto.
  cbn [existsb] in Hns. apply orb_false_iff in Hns. destruct Hns as [He Hes].
  rewrite run_cons. cbn [fst].
  apply IH; auto using Inv_step, entry_persists_step.
Qed.

(** C5: a submission for another question id, for an id without answer
    set, or under a name that has an entry already, changes nothing and
    emits nothing; any other submission appends exactly the entry
    (name, answer) to the answer set of its question; and an entry, once
    made, is still there after any events that do not start a question
    under the same id again. *)
Theorem C5_submitAnswer_once :
  (forall d s,
      (currentQuestion s = None
       \/ (exists q, currentQuestion s = Some q /\ q_id q <> questionId d)
       \/ JSMap.get (questionId d) (answers s) = None
       \/ (exists qa, JSMap.get (questionId d) (answers s) = Some qa
                      /\ JSMap.has (studentName d) qa = true)) ->
      submitAnswer d s = (s, []))
  /\ (forall d s q qa,
      currentQuestion s = Some q -> q_id q = questionId d ->
      JSMap.get (questionId d) (answers s) = Some qa ->
      JSMap.has (studentName d) qa = false ->
      answers (fst (submitAnswer d s))
      = JSMap.set (questionId d) (qa ++ [(studentName d, answer d)]) (answers s))
  /\ (forall es s qid qa who a,
      reachable s ->
      JSMap.get qid (answers s) = Some qa -> JSMap.get who qa = Some a ->
      existsb (startsId qid) es = false ->
      exists qa', JSMap.get qid (answers (fst (run es s))) = Some qa'
                  /\ JSMap.get who qa' = Some a).
Proof.
  split_and.
  - intros d s H. apply submitAnswer_ignored. intros q qa Hq Hid Hget.
    destruct H as [H|[(q' & Hq' & Hne)|[H|(qa' & Hget' & Hhas)]]]; congruence.
  - intros d s q qa Hq Hid Hget Hhas.
    rewrite (submitAnswer_accepted d s q qa) by assumption.
    destruct (totalStudents s <=? S (JSMap.size qa))%nat; cbn [fst];
      destruct (questionTimer s); reflexivity.
  - intros es s qid qa who a HR Hget Hwho Hns.
    apply entry_persists_run; eauto using reachable_Inv.
Qed.

Lemma C5_submitAnswer_once_witness :
  submitAnswer (answerOf "q1" "Alice" "B") (fst (run aliceAnswered initial))
  = (fst (run aliceAnswered initial), [])
  /\ exists qa',
       JSMap.get "q1"
         (answers (fst (run [SubmitAnswer "s1" (answerOf "q1" "Alice" "B");
                             Disconnect "s1"; TimerTick 0;
                             SubmitAnswer "s2" (answerOf "q1" "Bob" "B");
                             StartQuestion "t" q2]
                            (fst (run aliceAnswered initial)))))
       = Some qa'
       /\ JSMap.get "Alice" qa' = Some "A".
Proof.
  split.
  - apply (proj1 C5_submitAnswer_once).
    right. right. right. exists [("Alice", "A")]. split.
    + apply aliceAnswered_state.
    + reflexivity.
  - apply (proj2 (proj2 C5_submitAnswer_once) _ _ "q1" [("Alice", "A")] "Alice" "A").
    + apply reachable_run. constructor.
    + apply aliceAnswered_state.
    + reflexivity.
    + reflexivity.
Defined.

(** C9: the submitting name is not looked up in the roster.  A first
    submission for the open question under a name that no student bears is
    recorded, counts in the comparison with the number of students, and
    closes the question at once when the roster has no student. *)
Theorem C9_no_roster_check s q d :
  reachable s ->
  currentQuestion s = Some q -> questionId d = q_id q ->
  ~ In (studentName d) (studentList s) ->
  (forall qa, JSMap.get (q_id q) (answers s) = Some qa ->
              JSMap.has (studentName d) qa = false) ->
  exists qa,
    JSMap.get (q_id q) (answers s) = Some qa
    /\ JSMap.get (q_id q) (answers (fst (submitAnswer d s)))
       = Some (qa ++ [(studentName d, answer d)])
    /\ (S (JSMap.size qa) < totalStudents s ->
        currentQuestion (fst (submitAnswer d s)) = Some q
        /\ snd (submitAnswer d s) = [])
    /\ (totalStudents s <= S (JSMap.size qa) ->
        currentQuestion (fst (submitAnswer d s)) = None
        /\ snd (submitAnswer d s) = closureEffects q (qa ++ [(studentName d, answer d)]))
    /\ (totalStudents s = 0 ->
        currentQuestion (fst (submitAnswer d s)) = None
        /\ snd (submitAnswer d s) = closureEffects q (qa ++ [(studentName d, answer d)])).
Proof.
  intros HR Hq Hid _ Hfirst.
  pose proof (reachable_Inv s HR) as HI.
  destruct (Inv_open s q HI Hq) as (qa & h & Hget & _ & Ht & Hi).
  pose proof (Hfirst qa Hget) as Hhas.
  rewrite <- Hid in Hget. symmetry in Hid.
  exists qa. rewrite Hid.
  pose proof (submitAnswer_accepted d s q qa Hq Hid Hget Hhas) as E. cbv zeta in E.
  assert (Hclose : totalStudents s <= S (JSMap.size qa) ->
            currentQuestion (fst (submitAnswer d s)) = None
            /\ snd (submitAnswer d s) = closureEffects q (qa ++ [(studentName d, answer d)])).
  { intros Hle. destruct (submitAnswer_closes d s q qa) as (Hout & Hcur & _); auto. }
  split_and; auto.
  - rewrite E. destruct (totalStudents s <=? S (JSMap.size qa))%nat; cbn [fst];
      rewrite ?Ht; state_cbn; apply get_set_same.
  - intros Hlt. rewrite E.
    destruct (Nat.leb_spec (totalStudents s) (S (JSMap.size qa))); [lia|].
    cbn [fst snd]. auto.
  - intros H0. apply Hclose. lia.
Qed.

Lemma C9_no_roster_check_witness :
  exists qa,
    JSMap.get (q_id (numbered q1 1)) (answers (fst (run emptyRoom initial))) = Some qa
    /\ JSMap.get (q_id (numbered q1 1))
         (answers (fst (submitAnswer (answerOf "q1" "Mallory" "A")
                                     (fst (run emptyRoom initial)))))
       = Some (qa ++ [(studentName (answerOf "q1" "Mallory" "A"),
                       answer (answerOf "q1" "Mallory" "A"))])
    /\ (S (JSMap.size qa) < totalStudents (fst (run emptyRoom initial)) ->
        currentQuestion (fst (submitAnswer (answerOf "q1" "Mallory" "A")
                                           (fst (run emptyRoom initial))))
        = Some (numbered q1 1)
        /\ snd (submitAnswer (answerOf "q1" "Mallory" "A") (fst (run emptyRoom initial)))
           = [])
    /\ (totalStudents (fst (run emptyRoom initial)) <= S (JSMap.size qa) ->
        currentQuestion (fst (submitAnswer (answerOf "q1" "Mallory" "A")
                                           (fst (run emptyRoom initial)))) = None
        /\ snd (submitAnswer (answerOf "q1" "Mallory" "A") (fst (run emptyRoom initial)))
           = closureEffects (numbered q1 1)
               (qa ++ [(studentName (answerOf "q1" "Mallory" "A"),
                        answer (answerOf "q1" "Mallory" "A"))]))
    /\ (totalStudents (fst (run emptyRoom initial)) = 0 ->
        currentQuestion (fst (submitAnswer (answerOf "q1" "Mallory" "A")
                                           (fst (run emptyRoom initial)))) = None
        /\ snd (submitAnswer (answerOf "q1" "Mallory" "A") (fst (run emptyRoom initial)))
           = closureEffects (numbered q1 1)
               (qa ++ [(studentName (answerOf "q1" "Mallory" "A"),
                        answer (answerOf "q1" "Mallory" "A"))])).
Proof.
  apply (C9_no_roster_check (fst (run emptyRoom initial)) (numbered q1 1)
                            (answerOf "q1" "Mallory" "A")).
  - apply reachable_run. constructor.
  - apply emptyRoom_state.
  - reflexivity.
  - rewrite (proj1 (proj2 emptyRoom_state)). intros [].
  - intros qa Hqa. change (q_id (numbered q1 1)) with "q1" in Hqa.
    rewrite (proj1 (proj2 (proj2 emptyRoom_state))) in Hqa. inv_opt. reflexivity.
Defined.

(** ** The roster *)

Lemma isStudent_iff p : isStudent p = true <-> role p = student.
Proof. unfold isStudent. destruct (role p); cbn; split; congruence. Qed.

Lemma find_first {A} (f : A -> bool) l x :
  find f l = Some x ->
  f x = true /\ exists l1 l2, l = l1 ++ x :: l2 /\ forall y, In y l1 -> f y = false.
Proof.
  induction l as [|a l IH]; cbn; [discriminate|].
  destruct (f a) eqn:Fa.
  - intros H. inv_opt. split; auto. exists [], l. split; auto. intros y [].
  - intros H. destruct (IH H) as (Hx & l1 & l2 & -> & Hl1).
    split; auto. exists (a :: l1), l2. split; auto.
    intros y [<-|Hy]; auto.
Qed.

Lemma matches_iff n (e : string * Participant) :
  String.eqb (name (snd e)) n && isStudent (snd e) = true
  <-> name (snd e) = n /\ role (snd e) = student.
Proof. now rewrite andb_true_iff, String.eqb_eq, isStudent_iff. Qed.

Lemma endQuestion_with_participants p s :
  snd (endQuestion (with_participants p s)) = snd (endQuestion s).
Proof.
  unfold endQuestion. state_cbn.
  destruct (currentQuestion s) as [q|]; auto.
  destruct (JSMap.get (q_id q) (answers s)); auto.
Qed.

(** The list sent with [participantsUpdate] names exactly the students. *)
Lemma In_studentList s n :
  Inv s ->
  In n (studentList s)
  <-> exists sid, JSMap.get sid (participants s) = Some {| name := n; role := student |}.
Proof.
  intros HI. pose proof (Inv_roster s HI) as Hnd.
  unfold studentList, students, JSMap.values.
  rewrite in_map_iff. split.
  - intros (p & <- & Hp). apply filter_In in Hp. destruct Hp as [Hp Hst].
    apply in_map_iff in Hp. destruct Hp as ([sid p'] & Hp' & Hin). cbn in Hp'. subst p'.
    exists sid. apply isStudent_iff in Hst.
    rewrite (In_get sid p _ Hnd Hin). destruct p as [pn pr]. cbn in *. now subst.
  - intros (sid & Hget). apply get_In in Hget.
    exists {| name := n; role := student |}. split; auto.
    apply filter_In. split; auto.
    change {| name := n; role := student |}
      with (snd (sid, {| name := n; role := student |})).
    now apply in_map.
Qed.

(** C7: [kickStudent] removes the first student of that name, and nothing
    else of the session changes; a name no student bears is ignored. *)
Theorem C7_kickStudent_frame s n :
  reachable s ->
  match findStudent n (participants s) with
  | Some (sid, p) =>
      name p = n /\ role p = student
      /\ (exists l1 l2,
            participants s = l1 ++ (sid, p) :: l2
            /\ (forall e, In e l1 -> ~ (name (snd e) = n /\ role (snd e) = student))
            /\ participants (fst (kickStudent n s)) = l1 ++ l2)
      /\ snd (kickStudent n s)
         = [Emit (ToSocket sid) studentKicked;
            Emit ToAll (participantsUpdate (studentList (fst (kickStudent n s))));
            DisconnectSocket sid]
  | None =>
      (forall e, In e (participants s) -> ~ (name (snd e) = n /\ role (snd e) = student))
      /\ kickStudent n s = (s, [])
  end
  /\ currentQuestion (fst (kickStudent n s)) = currentQuestion s
  /\ answers (fst (kickStudent n s)) = answers s
  /\ timeLeft (fst (kickStudent n s)) = timeLeft s
  /\ questionTimer (fst (kickStudent n s)) = questionTimer s
  /\ intervals (fst (kickStudent n s)) = intervals s
  /\ questionNumber (fst (kickStudent n s)) = questionNumber s
  /\ questionHistory (fst (kickStudent n s)) = questionHistory s
  /\ snd (endQuestion (fst (kickStudent n s))) = snd (endQuestion s).
Proof.
  intros HR. pose proof (Inv_roster s (reachable_Inv s HR)) as Hnd.
  unfold kickStudent.
  destruct (findStudent n (participants s)) as [[sid p]|] eqn:Hfind.
  - unfold findStudent, JSMap.entries in Hfind.
    apply find_first in Hfind. destruct Hfind as (Hm & l1 & l2 & Hsplit & Hl1).
    apply matches_iff in Hm. cbn [snd] in Hm. destruct Hm as [Hname Hrole].
    cbn [fst snd]. state_cbn. split_and; auto using endQuestion_with_participants.
    exists l1, l2. split_and; auto.
    + intros e He Hmatch. apply matches_iff in Hmatch.
      rewrite (Hl1 e He) in Hmatch. discriminate.
    + rewrite Hsplit. apply delete_split.
      rewrite Hsplit, keys_app in Hnd. cbn [JSMap.keys map fst] in Hnd.
      apply NoDup_remove_2 in Hnd. intros Hin. apply Hnd, in_or_app. now left.
  - cbn [fst snd]. split_and; auto.
    intros e He Hmatch. apply matches_iff in Hmatch.
    unfold findStudent, JSMap.entries in Hfind.
    rewrite (find_none _ _ Hfind e He) in Hmatch. discriminate.
Qed.

Lemma C7_kickStudent_frame_witness :
  snd (endQuestion (fst (kickStudent "Alice" (fst (run aliceAnswered initial)))))
  = snd (endQuestion (fst (run aliceAnswered initial))).
Proof.
  apply (C7_kickStudent_frame (fst (run aliceAnswered initial)) "Alice").
  apply reachable_run. constructor.
Defined.

Lemma studentNames_app l1 l2 :
  studentNames (l1 ++ l2) = studentNames l1 ++ studentNames l2.
Proof. unfold studentNames, JSMap.values. now rewrite map_app, filter_app, map_app. Qed.

Lemma set_at {V} k (v p : V) (l1 l2 : JSMap.t V) :
  ~ In k (JSMap.keys l1) ->
  JSMap.set k v (l1 ++ (k, p) :: l2) = l1 ++ (k, v) :: l2.
Proof.
  induction l1 as [|[k' v'] l1 IH]; cbn; intros H.
  - now rewrite String.eqb_refl.
  - destruct (String.eqb_spec k' k) as [->|Hne]; [tauto|]. rewrite IH; tauto.
Qed.

(** The entry found under a key is the first one with that key. *)
Lemma get_split {V} k (p : V) (m : JSMap.t V) :
  JSMap.get k m = Some p ->
  exists l1 l2, m = l1 ++ (k, p) :: l2 /\ ~ In k (JSMap.keys l1).
Proof.
  induction m as [|[k' v'] m IH]; cbn; [discriminate|].
  destruct (String.eqb_spec k' k) as [->|Hne]; intros H.
  - inv_opt. exists [], m. split; [reflexivity|]. intros [].
  - destruct (IH H) as (l1 & l2 & -> & Hl1). exists ((k', v') :: l1), l2.
    split; [reflexivity|]. cbn. intros [E|E]; [congruence|tauto].
Qed.

(** A join replaces the entry of the socket in place. *)
Lemma studentJoin_in_place sid n s l1 p l2 :
  participants s = l1 ++ (sid, p) :: l2 -> ~ In sid (JSMap.keys l1) ->
  studentList (fst (studentJoin sid n s)) = studentNames l1 ++ n :: studentNames l2.
Proof.
  intros Hm Hl1. unfold studentJoin, studentList, students. cbn [fst].
  cbn [participants with_participants]. rewrite Hm, set_at by assumption.
  change (map name (filter isStudent (JSMap.values (l1 ++ (sid, {| name := n; role := student |}) :: l2))))
    with (studentNames (l1 ++ [(sid, {| name := n; role := student |})] ++ l2)).
  now rewrite !studentNames_app.
Qed.

Lemma otherStudents_absent sid m :
  ~ In sid (JSMap.keys m) -> otherStudents sid m = studentNames m.
Proof.
  unfold otherStudents, studentNames, JSMap.entries, JSMap.values.
  induction m as [|[k v] m IH]; cbn; intros H; [reflexivity|].
  destruct (String.eqb_spec k sid) as [->|Hne]; [tauto|]. cbn [negb andb].
  destruct (isStudent v); cbn [map snd]; rewrite IH; tauto.
Qed.

(** After [delete], the students are those of the other sockets. *)
Lemma studentNames_delete sid m :
  NoDup (JSMap.keys m) -> studentNames (JSMap.delete sid m) = otherStudents sid m.
Proof.
  induction m as [|[k v] m IH]; intros H; [reflexivity|].
  inversion H as [|? ? Hn Hd]; subst.
  unfold otherStudents. cbn [JSMap.entries JSMap.delete filter fst snd].
  destruct (String.eqb_spec k sid) as [->|Hne]; cbn [negb andb].
  - symmetry. now apply otherStudents_absent.
  - change ((k, v) :: JSMap.delete sid m) with ([(k, v)] ++ JSMap.delete sid m).
    rewrite studentNames_app, IH by assumption.
    unfold studentNames, otherStudents. cbn. now destruct (isStudent v).
Qed.

(** C8: every join of a student, removal of a student and disconnection is
    followed by a [participantsUpdate] to everyone that carries the student
    list of the new roster: after a join, the list of before with the name
    appended, or put in the place of the entry the socket had, so that the
    name is in it; after a removal or a disconnection, the names of the
    students on the other sockets; in every reachable state the list names
    exactly the participants whose role is student.  A student who joins while a
    question is open is sent that question and the remaining time. *)
Theorem C8_participantsUpdate :
  (forall s sid n,
      snd (studentJoin sid n s)
      = [JoinRoom sid "students";
         Emit ToAll (participantsUpdate (studentList (fst (studentJoin sid n s))))]
        ++ match currentQuestion s with
           | Some q => [Emit (ToSocket sid) (questionStarted q);
                        Emit (ToSocket sid) (timeUpdate (timeLeft s))]
           | None => []
           end
      /\ (JSMap.get sid (participants s) = None ->
          studentList (fst (studentJoin sid n s)) = studentList s ++ [n])
      /\ (forall l1 p l2,
            participants s = l1 ++ (sid, p) :: l2 -> ~ In sid (JSMap.keys l1) ->
            studentList (fst (studentJoin sid n s))
            = studentNames l1 ++ n :: studentNames l2)
      /\ In n (studentList (fst (studentJoin sid n s))))
  /\ (forall s n sid p,
        findStudent n (participants s) = Some (sid, p) ->
        snd (kickStudent n s)
        = [Emit (ToSocket sid) studentKicked;
           Emit ToAll (participantsUpdate (studentList (fst (kickStudent n s))));
           DisconnectSocket sid]
        /\ (reachable s ->
            studentList (fst (kickStudent n s)) = otherStudents sid (participants s)))
  /\ (forall s sid,
        snd (disconnect sid s)
        = [Emit ToAll (participantsUpdate (studentList (fst (disconnect sid s))))]
        /\ (reachable s ->
            studentList (fst (disconnect sid s)) = otherStudents sid (participants s)))
  /\ (forall s n,
        reachable s ->
        (In n (studentList s)
         <-> exists sid,
               JSMap.get sid (participants s) = Some {| name := n; role := student |})
        /\ List.length (studentList s) = totalStudents s).
Proof.
  split_and.
  - intros s sid n. split_and.
    + reflexivity.
    + intros H. unfold studentJoin, studentList, students. cbn [fst].
      cbn [participants with_participants]. rewrite set_absent by assumption.
      unfold JSMap.values. now rewrite map_app, filter_app, map_app.
    + intros l1 p l2. apply studentJoin_in_place.
    + destruct (JSMap.get sid (participants s)) as [p|] eqn:Hget.
      * destruct (get_split sid p _ Hget) as (l1 & l2 & Hm & Hl1).
        rewrite (studentJoin_in_place sid n s l1 p l2 Hm Hl1).
        apply in_or_app. right. now left.
      * unfold studentJoin, studentList, students. cbn [fst].
        cbn [participants with_participants]. rewrite set_absent by assumption.
        unfold JSMap.values. rewrite map_app, filter_app, map_app.
        apply in_or_app. right. now left.
  - intros s n sid p H. unfold kickStudent. rewrite H. split; [reflexivity|].
    intros HR. cbn [fst]. apply studentNames_delete.
    apply Inv_roster. now apply reachable_Inv.
  - intros s sid. split; [reflexivity|].
    intros HR. cbn [fst disconnect]. apply studentNames_delete.
    apply Inv_roster. now apply reachable_Inv.
  - intros s n HR. split.
    + apply In_studentList. now apply reachable_Inv.
    + unfold studentList, totalStudents. apply length_map.
Qed.

Lemma C8_participantsUpdate_witness :
  studentList (fst (kickStudent "Bob" (fst (run aliceAnswered initial))))
  = otherStudents "s2" (participants (fst (run aliceAnswered initial)))
  /\ studentList (fst (disconnect "s1" (fst (run aliceAnswered initial))))
     = otherStudents "s1" (participants (fst (run aliceAnswered initial)))
  /\ studentList (fst (studentJoin "s3" "Carol" (fst (run aliceAnswered initial))))
     = studentList (fst (run aliceAnswered initial)) ++ ["Carol"].
Proof.
  split_and.
  - apply (fun H => proj2 (proj1 (proj2 C8_participantsUpdate)
                             (fst (run aliceAnswered initial)) "Bob" "s2"
                             {| name := "Bob"; role := student |} H)).
    + vm_compute. reflexivity.
    + apply reachable_run. constructor.
  - apply (proj2 (proj1 (proj2 (proj2 C8_participantsUpdate))
                        (fst (run aliceAnswered initial)) "s1")).
    apply reachable_run. constructor.
  - apply (proj1 (proj2 (proj1 C8_participantsUpdate
                               (fst (run aliceAnswered initial)) "s3" "Carol"))).
    vm_compute. reflexivity.
Defined.

(** ** Removals and closure *)

Lemma removal_is_roster e : isRemoval e = true -> isRosterEvent e = true.
Proof. destruct e as [sid|sid nm|sid question|sid data|sid data|sid nm|sid|k]; auto. Qed.

Lemma publishing_event e s n :
  Inv s -> 0 < pollCount n (snd (handle e s)) ->
  isClosingEvent e = true
  /\ exists q, currentQuestion s = Some q /\ q_questionNumber q = n.
Proof.
  intros HI Hp.
  destruct (step_outcome e s HI)
    as [_ _ [Hq _]|q Hq _ _ Hc _ Hev|sid qi _ _ _ _ Hc _].
  - rewrite Hq in Hp. lia.
  - split; auto. exists q. split; auto. rewrite Hc in Hp.
    destruct (Nat.eqb_spec (q_questionNumber q) n); auto. lia.
  - rewrite Hc in Hp. lia.
Qed.

(** Results are published only by the firing of the interval that brings
    the time left to 0 or below, or by the accepted submission that brings
    the answer set up to the number of students. *)
Lemma publishing_cases e s n :
  Inv s -> 0 < pollCount n (snd (handle e s)) ->
  exists q,
    currentQuestion s = Some q /\ q_questionNumber q = n
    /\ ((exists h, e = TimerTick h /\ questionTimer s = Some h
                   /\ (decrement (timeLeft s) <= 0)%Z)
        \/ (exists sid d qa,
              e = SubmitAnswer sid d /\ q_id q = questionId d
              /\ JSMap.get (questionId d) (answers s) = Some qa
              /\ JSMap.has (studentName d) qa = false
              /\ totalStudents s <= S (JSMap.size qa))).
Proof.
  intros HI Hp.
  destruct (publishing_event e s n HI Hp) as (_ & q & Hq & Hn).
  exists q. split; [exact Hq|]. split; [exact Hn|].
  destruct (isRosterEvent e) eqn:Hr.
  { destruct (roster_frame e s Hr) as (p & _ & _ & Hquiet & _).
    rewrite Hquiet in Hp. lia. }
  destruct e as [sid|sid nm|sid question|sid data|sid data|sid nm|sid|k];
    try discriminate; cbn [handle] in Hp.
  - (* startQuestion *)
    exfalso. destruct (startRefused s) eqn:Hs.
    + rewrite startQuestion_refused in Hp by assumption. cbn in Hp. lia.
    + rewrite startQuestion_accepted in Hp by assumption. cbn in Hp. lia.
  - (* submitAnswer *)
    right.
    destruct (submitAnswer_cases data s) as [E|(q' & qa & Hq' & Hid & Hget & Hhas)].
    { rewrite E in Hp. cbn in Hp. lia. }
    rewrite Hq in Hq'. inv_opt.
    rewrite (submitAnswer_accepted data s q' qa) in Hp by assumption.
    destruct (Nat.leb_spec (totalStudents s) (S (JSMap.size qa))) as [Hall|_].
    + exists sid, data, qa. auto.
    + cbn in Hp. lia.
  - (* timerTick *)
    left.
    destruct (existsb (Nat.eqb k) (intervals s)) eqn:Hlive.
    2:{ rewrite timerTick_dead in Hp by assumption. cbn in Hp. lia. }
    destruct (Inv_open s q HI Hq) as (qa & h & _ & _ & Ht & Hi).
    rewrite Hi, existsb_single in Hlive. apply Nat.eqb_eq in Hlive. subst k.
    destruct (Z.lt_ge_cases 0 (decrement (timeLeft s))) as [Hgt|Hle].
    + rewrite timerTick_running in Hp; auto.
      * cbn in Hp. lia.
      * rewrite Hi, existsb_single. apply Nat.eqb_refl.
    + exists h. auto.
Qed.

(** C10, refuted as stated: Bob disconnects after Alice has answered, which
    leaves the question open and complete with five seconds to go; Carol
    joins and answers, and her submission, not the countdown, publishes the
    results. *)
Lemma C10_closed_by_later_submission : ~ closedOnlyByExpiry.
Proof.
  intros H.
  destruct bobLeft_state as (Hcur & Hcomplete & _ & _ & Hcount).
  assert (Hpub : 0 < pollCount (q_questionNumber (numbered q1 1))
            (snd (handle (SubmitAnswer "s3" carolAnswers)
                    (fst (run [StudentJoin "s3" "Carol"]
                            (fst (run (aliceAnswered ++ [Disconnect "s2"]) initial)))))))
    by (rewrite Hcount; apply Nat.lt_0_1).
  destruct (H aliceAnswered (Disconnect "s2") [StudentJoin "s3" "Carol"]
              (SubmitAnswer "s3" carolAnswers) (numbered q1 1)
              eq_refl Hcur Hcomplete Hpub)
    as [h Hh].
  discriminate.
Qed.

(** C10, amended: a removal or a disconnection never runs the closure
    procedure and leaves question, answers and countdown as they are, even
    when it makes the question complete; results are published only by the
    tick of the countdown that brings the time left to 0 or by the
    submission that completes the answer set; and when a new question is
    started first, which the guard accepts because the old one counts as
    complete, they are not published at all, as happens after a
    disconnection that makes the open question complete. *)
Theorem C10_removal_never_closes :
  (forall e s,
      isRemoval e = true ->
      currentQuestion (fst (handle e s)) = currentQuestion s
      /\ answers (fst (handle e s)) = answers s
      /\ timeLeft (fst (handle e s)) = timeLeft s
      /\ questionTimer (fst (handle e s)) = questionTimer s
      /\ intervals (fst (handle e s)) = intervals s
      /\ forall n, pollCount n (snd (handle e s)) = 0)
  /\ (forall e s n,
        reachable s ->
        0 < pollCount n (snd (handle e s)) ->
        isClosingEvent e = true
        /\ exists q,
             currentQuestion s = Some q /\ q_questionNumber q = n
             /\ ((exists h, e = TimerTick h /\ questionTimer s = Some h
                            /\ (decrement (timeLeft s) <= 0)%Z)
                 \/ (exists sid d qa,
                       e = SubmitAnswer sid d /\ q_id q = questionId d
                       /\ JSMap.get (questionId d) (answers s) = Some qa
                       /\ JSMap.has (studentName d) qa = false
                       /\ totalStudents s <= S (JSMap.size qa))))
  /\ (forall es e q sid question es',
        isRemoval e = true ->
        currentQuestion (fst (run (es ++ [e]) initial)) = Some q ->
        isQuestionComplete (fst (run (es ++ [e]) initial)) = true ->
        pollCount (q_questionNumber q)
          (snd (run ((es ++ [e]) ++ StartQuestion sid question :: es') initial)) = 0)
  /\ (exists es e q,
        isRemoval e = true
        /\ currentQuestion (fst (run es initial)) = Some q
        /\ isQuestionComplete (fst (run es initial)) = false
        /\ currentQuestion (fst (run (es ++ [e]) initial)) = Some q
        /\ isQuestionComplete (fst (run (es ++ [e]) initial)) = true).
Proof.
  split_and.
  - intros e s He.
    destruct (roster_frame e s (removal_is_roster e He)) as (p & Hs & _ & Hq & _).
    rewrite Hs. split_and; auto.
  - intros e s n HR Hp. pose proof (reachable_Inv s HR) as HI. split.
    + now apply (publishing_event e s n).
    + now apply publishing_cases.
  - intros es e q sid question es' He Hq Hc.
    apply displaced_by_start; auto.
    unfold startRefused. now rewrite Hq, Hc.
  - exists aliceAnswered, (Disconnect "s2"), (numbered q1 1).
    destruct bobLeft_state as (Hcur & Hcomplete & Hstart & _).
    destruct aliceAnswered_state as (Hr & Hc & _).
    split; [reflexivity|]. split; [exact Hc|]. split.
    { unfold startRefused in Hr. rewrite Hc in Hr. now apply negb_true_iff in Hr. }
    split; [exact Hcur|exact Hcomplete].
Qed.

Lemma C10_removal_never_closes_witness :
  currentQuestion (fst (handle (Disconnect "s2") (fst (run aliceAnswered initial))))
  = currentQuestion (fst (run aliceAnswered initial))
  /\ pollCount (q_questionNumber (numbered q1 1))
       (snd (run ((aliceAnswered ++ [Disconnect "s2"])
                  ++ StartQuestion "t" q2 :: [TimerTick 1]) initial)) = 0.
Proof.
  split.
  - apply (proj1 C10_removal_never_closes
                 (Disconnect "s2") (fst (run aliceAnswered initial))).
    reflexivity.
  - apply (proj1 (proj2 (proj2 C10_removal_never_closes))
                 aliceAnswered (Disconnect "s2") (numbered q1 1) "t" q2 [TimerTick 1]).
    + reflexivity.
    + apply bobLeft_state.
    + apply bobLeft_state.
Defined.

(** ** The aggregator, by distinct options *)

Lemma existsb_eqb_In o l : existsb (String.eqb o) l = true <-> In o l.
Proof.
  rewrite existsb_exists. split.
  - intros (x & Hx & E). apply String.eqb_eq in E. now subst.
  - intros H. exists o. split; auto. apply String.eqb_refl.
Qed.

Lemma fold_addDistinct_cons options :
  forall o acc acc2,
    ~ In o acc ->
    filter (fun x => negb (String.eqb o x)) acc2 = acc ->
    fold_left addDistinct options (o :: acc)
    = o :: filter (fun x => negb (String.eqb o x)) (fold_left addDistinct options acc2).
Proof.
  induction options as [|x options IH]; intros o acc acc2 Ho Hf; cbn [fold_left].
  { now rewrite Hf. }
  assert (Hmem : existsb (String.eqb x) (o :: acc)
                 = String.eqb x o || existsb (String.eqb x) acc) by reflexivity.
  unfold addDistinct at 2 4. rewrite Hmem.
  destruct (String.eqb_spec x o) as [->|Hxo]; cbn [orb].
  - (* the head again: nothing is added on the left *)
    apply IH; auto.
    destruct (existsb (String.eqb o) acc2); auto.
    rewrite filter_app, Hf. cbn. rewrite String.eqb_refl. cbn. apply app_nil_r.
  - assert (Hsame : existsb (String.eqb x) acc2 = existsb (String.eqb x) acc).
    { apply eq_true_iff_eq. rewrite !existsb_eqb_In, <- Hf, filter_In.
      rewrite negb_true_iff. split; [|tauto].
      intros H. split; auto. destruct (String.eqb_spec o x); congruence. }
    rewrite Hsame. destruct (existsb (String.eqb x) acc) eqn:E.
    + apply IH; auto.
    + change (o :: acc ++ [x]) with (o :: (acc ++ [x])).
      apply IH.
      * rewrite in_app_iff. cbn. intros [H|[H|[]]]; auto.
      * rewrite filter_app, Hf. cbn.
        destruct (String.eqb_spec o x); [congruence|reflexivity].
Qed.

Lemma distinctOptions_firstOccurrences options :
  distinctOptions options = firstOccurrences options.
Proof.
  induction options as [|o options IH]; auto.
  cbn [firstOccurrences]. rewrite <- IH.
  unfold distinctOptions. cbn [fold_left]. unfold addDistinct at 2. cbn [existsb app].
  now apply fold_addDistinct_cons.
Qed.

Lemma firstOccurrences_NoDup_id options :
  NoDup options -> firstOccurrences options = options.
Proof.
  intros H. rewrite <- distinctOptions_firstOccurrences.
  now apply distinctOptions_NoDup_id.
Qed.

(** C4, refuted as stated: with the option "A" listed twice the code
    returns two records for three options. *)
Lemma C4_repeated_option_one_record : ~ aggregatesEveryOption.
Proof.
  intros H. specialize (H ["A"; "A"; "B"] [("Alice", "A")]).
  rewrite calculateResults_aggregate in H.
  apply (f_equal (@List.length Result)) in H.
  unfold aggregate in H. rewrite !length_map in H.
  discriminate H.
Qed.

(** C4, amended: the aggregator returns one record for each distinct
    option, in order of first occurrence (so in the order of the option
    list when no option is repeated); the count is the number of answers
    equal to the option; the percentage is [Math.round] of the binary64
    value [(count / totalAnswers) * 100] over all answers, matched or
    not, and 0 when there is no answer. *)
Theorem C4_calculateResults_per_distinct_option options questionAnswers :
  calculateResults options questionAnswers
  = aggregate (firstOccurrences options) questionAnswers
  /\ (NoDup options ->
      calculateResults options questionAnswers = aggregate options questionAnswers)
  /\ (JSMap.size questionAnswers = 0 ->
      forall r, In r (calculateResults options questionAnswers) ->
                r_count r = 0 /\ r_percentage r = 0%Z).
Proof.
  rewrite calculateResults_aggregate, distinctOptions_firstOccurrences.
  split_and; auto.
  - intros H. now rewrite firstOccurrences_NoDup_id.
  - intros H0 r Hr. destruct questionAnswers; [|discriminate].
    unfold aggregate in Hr. apply in_map_iff in Hr.
    destruct Hr as (o & <- & _). cbn. auto.
Qed.

Lemma C4_calculateResults_per_distinct_option_witness :
  calculateResults ["A"; "B"] [("Alice", "A"); ("Bob", "B"); ("Carol", "C")]
  = aggregate ["A"; "B"] [("Alice", "A"); ("Bob", "B"); ("Carol", "C")].
Proof.
  apply (proj1 (proj2 (C4_calculateResults_per_distinct_option
                         ["A"; "B"] [("Alice", "A"); ("Bob", "B"); ("Carol", "C")]))).
  repeat constructor; cbn; intuition discriminate.
Defined.

(** The scenarios of the specification, and a stray answer that lowers
    every percentage. *)
Example results_both_answered :
  calculateResults ["A"; "B"] [("Alice", "A"); ("Bob", "B")]
  = [{| r_option := "A"; r_count := 1; r_percentage := 50 |};
     {| r_option := "B"; r_count := 1; r_percentage := 50 |}].
Proof. vm_compute. reflexivity. Qed.

Example results_one_answered :
  calculateResults ["A"; "B"] [("Alice", "A")]
  = [{| r_option := "A"; r_count := 1; r_percentage := 100 |};
     {| r_option := "B"; r_count := 0; r_percentage := 0 |}].
Proof. vm_compute. reflexivity. Qed.

Example results_stray_answer :
  calculateResults ["A"; "B"] [("Alice", "A"); ("Bob", "B"); ("Carol", "C")]
  = [{| r_option := "A"; r_count := 1; r_percentage := 33 |};
     {| r_option := "B"; r_count := 1; r_percentage := 33 |}].
Proof. vm_compute. reflexivity. Qed.

(** In binary64 the product (23 / 40) * 100 is 57.49999999999999, which
    [Math.round] takes to 57, while the exact value 57.5 rounds to 58. *)
Example percentage_double_rounding :
  percentageOf 23 40 = 57%Z /\ ((2 * (100 * 23) + 40) / (2 * 40) = 58)%Z.
Proof. vm_compute. split; reflexivity. Qed.

(** * Further properties of the handlers *)

(** X1: A second run of the closure procedure does nothing. *)
Lemma endQuestion_twice s :
  endQuestion (fst (endQuestion s)) = (fst (endQuestion s), []).
Proof.
  destruct (currentQuestion s) as [q|] eqn:Hq.
  - destruct (JSMap.get (q_id q) (answers s)) as [qa|] eqn:Hget.
    + rewrite (endQuestion_open s q qa) by assumption. cbn [fst].
      now apply endQuestion_idle.
    + assert (E : endQuestion s = (s, [])).
      { unfold endQuestion. now rewrite Hq, Hget. }
      now rewrite E.
  - rewrite (endQuestion_idle s Hq). cbn [fst]. now apply endQuestion_idle.
Qed.

(** ** The countdown interval *)

(** X2: in a reachable state an interval is scheduled exactly while a question
    is open, it is the one held in [questionTimer], and the callback of any
    other handle, or of any handle while no question is open, does not run. *)
Theorem one_interval_while_open s :
  reachable s ->
  ((currentQuestion s = None /\ intervals s = [])
   \/ (exists q h, currentQuestion s = Some q
                   /\ questionTimer s = Some h /\ intervals s = [h]))
  /\ forall h,
       (currentQuestion s = None \/ questionTimer s <> Some h) ->
       timerTick h s = (s, []).
Proof.
  intros HR. pose proof (reachable_Inv s HR) as HI.
  destruct (currentQuestion s) as [q|] eqn:Hq.
  - destruct (Inv_open s q HI Hq) as (qa & h & _ & _ & Ht & Hi). split.
    + right. exists q, h. auto.
    + intros h' [H|H]; [discriminate|].
      apply timerTick_dead. rewrite Hi, existsb_single.
      apply Nat.eqb_neq. congruence.
  - pose proof (Inv_idle s HI Hq) as Hi. split.
    + left. auto.
    + intros h' _. apply timerTick_dead. now rewrite Hi.
Qed.

Lemma one_interval_while_open_witness :
  timerTick 0 (fst (run preempted initial)) = (fst (run preempted initial), []).
Proof.
  apply (proj2 (one_interval_while_open (fst (run preempted initial))
                  (reachable_run preempted initial reachable_initial))).
  right. vm_compute. discriminate.
Defined.

(** ** Right after a question has started *)

(** X3: once a question has been accepted, the next [startQuestion] is accepted
    as well exactly when the roster has no student or the time limit is not
    positive: such a question counts as complete from the start. *)
Theorem fresh_question_gate s sid question :
  startRefused s = false ->
  (startRefused (fst (startQuestion sid question s)) = false
   <-> totalStudents s = 0 \/ (in_timeLimit question <= 0)%Z).
Proof.
  intros Hs. rewrite startQuestion_accepted by assumption. cbn [fst].
  unfold startRefused, isQuestionComplete.
  assert (E : forall s0 : State,
            currentQuestion s0 = Some (numbered question (S (questionNumber s))) ->
            answers s0 = JSMap.set (in_id question) JSMap.empty (answers s) ->
            participants s0 = participants s ->
            timeLeft s0 = in_timeLimit question ->
            (match currentQuestion s0 with
             | Some _ =>
                 negb match currentQuestion s0 with
                      | None => true
                      | Some q =>
                          match JSMap.get (q_id q) (answers s0) with
                          | None => false
                          | Some qa =>
                              (totalStudents s0 <=? JSMap.size qa)%nat
                              || (timeLeft s0 <=? 0)%Z
                          end
                      end
             | None => false
             end = false
             <-> totalStudents s = 0 \/ (in_timeLimit question <= 0)%Z)).
  { intros s0 Hc Ha Hp Ht. rewrite Hc, Ha, Ht. cbn [q_id numbered].
    rewrite get_set_same. unfold totalStudents, students. rewrite Hp.
    cbn [JSMap.size JSMap.empty List.length].
    rewrite negb_false_iff, orb_true_iff, Nat.leb_le, Z.leb_le. lia. }
  apply E; destruct (questionTimer s); reflexivity.
Qed.

Lemma fresh_question_gate_witness :
  startRefused (fst (startQuestion "t" q2 (fst (run [TeacherJoin "t"] initial)))) = false
  <-> totalStudents (fst (run [TeacherJoin "t"] initial)) = 0 \/ (in_timeLimit q2 <= 0)%Z.
Proof.
  apply (fresh_question_gate (fst (run [TeacherJoin "t"] initial)) "t" q2).
  reflexivity.
Defined.

(** ** A teacher joins *)

(** X4: [teacherJoin] answers the joining socket alone, with the student list
    and with [canAskNew] true exactly when a [startQuestion] sent next would
    be accepted; question, answers and countdown stay as they are.  The
    socket is a teacher afterwards, so a student who joins again as a teacher
    leaves the student list, in a reachable state, without a broadcast. *)
Theorem teacherJoin_status :
  (forall sid s,
      snd (teacherJoin sid s)
      = [JoinRoom sid "teachers";
         Emit (ToSocket sid) (participantsUpdate (studentList (fst (teacherJoin sid s))));
         Emit (ToSocket sid)
              (questionStatus (negb (startRefused (fst (teacherJoin sid s)))))]
      /\ currentQuestion (fst (teacherJoin sid s)) = currentQuestion s
      /\ answers (fst (teacherJoin sid s)) = answers s
      /\ timeLeft (fst (teacherJoin sid s)) = timeLeft s
      /\ intervals (fst (teacherJoin sid s)) = intervals s
      /\ questionNumber (fst (teacherJoin sid s)) = questionNumber s)
  /\ (forall sid s n,
        reachable s ->
        (In n (studentList (fst (teacherJoin sid s)))
         <-> exists sid', sid' <> sid
               /\ JSMap.get sid' (participants s)
                  = Some {| name := n; role := student |})).
Proof.
  split.
  - intros sid s. split_and; try reflexivity.
    unfold teacherJoin. cbn [snd fst]. unfold startRefused.
    cbn [currentQuestion with_participants].
    destruct (currentQuestion s); cbn [orb negb]; [|reflexivity].
    now rewrite negb_involutive.
  - intros sid s n HR.
    assert (HR' : reachable (fst (handle (TeacherJoin sid) s))) by now constructor.
    cbn [handle] in HR'.
    rewrite (In_studentList _ n (reachable_Inv _ HR')).
    unfold teacherJoin. cbn [fst participants with_participants].
    split; intros (sid' & H).
    + destruct (String.eqb_spec sid sid') as [<-|Hne].
      * rewrite get_set_same in H. discriminate.
      * rewrite get_set_other in H by assumption. exists sid'. auto.
    + destruct H as [Hne H]. exists sid'. rewrite get_set_other; auto.
Qed.

Lemma teacherJoin_status_witness :
  In "Alice" (studentList (fst (teacherJoin "s2" (fst (run aliceAnswered initial)))))
  <-> exists sid', sid' <> "s2"
        /\ JSMap.get sid' (participants (fst (run aliceAnswered initial)))
           = Some {| name := "Alice"; role := student |}.
Proof.
  apply (proj2 teacherJoin_status "s2" (fst (run aliceAnswered initial)) "Alice").
  apply reachable_run. constructor.
Defined.

(** ** Joining and leaving *)

Lemma delete_set {V} k (v : V) (m : JSMap.t V) :
  JSMap.delete k (JSMap.set k v m) = JSMap.delete k m.
Proof.
  induction m as [|[k' v'] m IH]; cbn.
  - now rewrite String.eqb_refl.
  - destruct (String.eqb k' k) eqn:E; cbn; rewrite E; auto. now rewrite IH.
Qed.

Lemma delete_absent {V} k (m : JSMap.t V) :
  JSMap.get k m = None -> JSMap.delete k m = m.
Proof.
  induction m as [|[k' v'] m IH]; cbn; auto.
  destruct (String.eqb k' k); [discriminate|]. intros H. now rewrite IH.
Qed.

Lemma get_delete_same {V} k (m : JSMap.t V) :
  NoDup (JSMap.keys m) -> JSMap.get k (JSMap.delete k m) = None.
Proof.
  induction m as [|[k' v'] m IH]; cbn; auto.
  intros H. inversion H as [|? ? Hn Hd]; subst.
  destruct (String.eqb_spec k' k) as [->|Hne].
  - destruct (JSMap.get k m) eqn:E; auto.
    exfalso. apply Hn, get_in_keys. congruence.
  - cbn. destruct (String.eqb_spec k' k); [congruence|auto].
Qed.

(** X5: A socket that joins, as a student or as a teacher, and then disconnects
    leaves the session as its disconnection alone would have: same state,
    same broadcast. *)
Theorem join_then_disconnect sid n s :
  disconnect sid (fst (studentJoin sid n s)) = disconnect sid s
  /\ disconnect sid (fst (teacherJoin sid s)) = disconnect sid s.
Proof.
  unfold disconnect, studentJoin, teacherJoin. cbn [fst].
  cbn [participants with_participants]. rewrite !delete_set. split; reflexivity.
Qed.

Lemma set_present_split {V} k (v p : V) (m : JSMap.t V) :
  JSMap.get k m = Some p ->
  exists l1 l2, m = l1 ++ (k, p) :: l2 /\ JSMap.set k v m = l1 ++ (k, v) :: l2.
Proof.
  induction m as [|[k' v'] m IH]; cbn; [discriminate|].
  destruct (String.eqb_spec k' k) as [->|Hne]; intros H.
  - inv_opt. now exists [], m.
  - destruct (IH H) as (l1 & l2 & -> & E). exists ((k', v') :: l1), l2.
    cbn. now rewrite E.
Qed.

(** X6: [studentJoin] from a socket that is not in the roster appends the name
    to the student list; from a socket that is in the roster it replaces the
    entry in place, the name taking the place the socket had in the list
    (or the place between its neighbours if it was a teacher), so the
    number of students stays when the socket was a student and grows by one
    when it was a teacher. *)
Theorem studentJoin_count sid n s :
  (JSMap.get sid (participants s) = None ->
   studentList (fst (studentJoin sid n s)) = studentList s ++ [n])
  /\ (forall l1 p l2,
        participants s = l1 ++ (sid, p) :: l2 -> ~ In sid (JSMap.keys l1) ->
        participants (fst (studentJoin sid n s))
        = l1 ++ (sid, {| name := n; role := student |}) :: l2
        /\ studentList s
           = studentNames l1 ++ (if isStudent p then [name p] else []) ++ studentNames l2
        /\ studentList (fst (studentJoin sid n s))
           = studentNames l1 ++ n :: studentNames l2)
  /\ (forall p,
        JSMap.get sid (participants s) = Some p ->
        (exists l1 l2,
           participants s = l1 ++ (sid, p) :: l2 /\ ~ In sid (JSMap.keys l1))
        /\ totalStudents (fst (studentJoin sid n s))
           = totalStudents s + (if isStudent p then 0 else 1)).
Proof.
  split_and.
  - unfold studentJoin, studentList, totalStudents, students. cbn [fst].
    cbn [participants with_participants].
    intros H. rewrite set_absent by assumption.
    unfold JSMap.values. rewrite map_app, filter_app, map_app. reflexivity.
  - intros l1 p l2 Hm Hl1. split_and.
    + unfold studentJoin. cbn [fst participants with_participants].
      rewrite Hm. now apply set_at.
    + change (studentList s) with (studentNames (participants s)). rewrite Hm.
      change (l1 ++ (sid, p) :: l2) with (l1 ++ [(sid, p)] ++ l2).
      rewrite !studentNames_app. unfold studentNames at 2. cbn.
      now destruct (isStudent p).
    + now apply (studentJoin_in_place sid n s l1 p l2).
  - unfold studentJoin, studentList, totalStudents, students. cbn [fst].
    cbn [participants with_participants].
    intros p H. split; [now apply get_split|].
    destruct (set_present_split sid {| name := n; role := student |} p _ H)
      as (l1 & l2 & Hm & Hset).
    rewrite Hset, Hm. unfold JSMap.values.
    rewrite !map_app, !filter_app, !length_app. cbn [map snd filter].
    change (isStudent {| name := n; role := student |}) with true.
    destruct (isStudent p); cbn [List.length]; lia.
Qed.

Lemma studentJoin_count_witness :
  studentList (fst (studentJoin "s3" "Carol" (fst (run aliceAnswered initial))))
  = studentList (fst (run aliceAnswered initial)) ++ ["Carol"]
  /\ studentList (fst (studentJoin "s1" "Alicia" (fst (run aliceAnswered initial))))
     = studentNames [] ++ "Alicia"
       :: studentNames [("s2", {| name := "Bob"; role := student |})].
Proof.
  split.
  - apply (proj1 (studentJoin_count "s3" "Carol" (fst (run aliceAnswered initial)))).
    vm_compute. reflexivity.
  - apply (fun H1 H2 =>
             proj2 (proj2 (proj1 (proj2 (studentJoin_count "s1" "Alicia"
                                           (fst (run aliceAnswered initial))))
                                 [] {| name := "Alice"; role := student |}
                                 [("s2", {| name := "Bob"; role := student |})] H1 H2))).
    + vm_compute. reflexivity.
    + intros [].
Defined.

(** X7: after [kickStudent] has removed a student, the [disconnect] event that
    the forced disconnection brings changes nothing and broadcasts the same
    student list once more. *)
Theorem kick_then_disconnect s n sid p :
  reachable s ->
  findStudent n (participants s) = Some (sid, p) ->
  disconnect sid (fst (kickStudent n s))
  = (fst (kickStudent n s),
     [Emit ToAll (participantsUpdate (studentList (fst (kickStudent n s))))]).
Proof.
  intros HR Hfind. pose proof (Inv_roster s (reachable_Inv s HR)) as Hnd.
  unfold kickStudent. rewrite Hfind. cbn [fst snd].
  unfold disconnect. cbn [participants with_participants].
  rewrite (delete_absent sid (JSMap.delete sid (participants s)))
    by now apply get_delete_same.
  reflexivity.
Qed.

Lemma kick_then_disconnect_witness :
  disconnect "s2" (fst (kickStudent "Bob" (fst (run aliceAnswered initial))))
  = (fst (kickStudent "Bob" (fst (run aliceAnswered initial))),
     [Emit ToAll (participantsUpdate
                    (studentList (fst (kickStudent "Bob" (fst (run aliceAnswered initial))))))]).
Proof.
  apply (kick_then_disconnect (fst (run aliceAnswered initial)) "Bob" "s2"
                              {| name := "Bob"; role := student |}).
  - apply reachable_run. constructor.
  - vm_compute. reflexivity.
Defined.

(** ** The countdown *)

Lemma with_timeLeft_same s : with_timeLeft (timeLeft s) s = s.
Proof. now destruct s. Qed.

Lemma countdownUpdates_S t k :
  countdownUpdates t (S k)
  = Emit ToAll (timeUpdate (t - 1)) :: countdownUpdates (t - 1) k.
Proof.
  unfold countdownUpdates. cbn [seq map]. f_equal.
  rewrite <- seq_shift, map_map. apply map_ext. intros i.
  do 2 f_equal. lia.
Qed.

(** While time is left, [k] firings of the interval only count down. *)
Lemma countdown_running k :
  forall s q h,
    Inv s -> currentQuestion s = Some q -> questionTimer s = Some h ->
    (Z.of_nat k < timeLeft s <= 2 ^ 53)%Z ->
    run (repeat (TimerTick h) k) s
    = (with_timeLeft (timeLeft s - Z.of_nat k) s, countdownUpdates (timeLeft s) k).
Proof.
  induction k as [|k IH]; intros s q h HI Hq Ht Hk.
  { cbn [repeat run]. replace (timeLeft s - Z.of_nat 0)%Z with (timeLeft s) by lia.
    now rewrite with_timeLeft_same. }
  destruct (Inv_open s q HI Hq) as (qa & h0 & _ & _ & Ht' & Hi).
  assert (h0 = h) by congruence. subst h0.
  pose proof (Inv_step (TimerTick h) s HI) as HI'.
  cbn [repeat]. rewrite run_cons. cbn [handle] in *.
  assert (Hlive : existsb (Nat.eqb h) (intervals s) = true).
  { rewrite Hi, existsb_single. apply Nat.eqb_refl. }
  pose proof (decrement_exact (timeLeft s) ltac:(lia)) as Hd.
  rewrite timerTick_running in * by (auto; lia). rewrite Hd in *. cbn [fst snd] in *.
  rewrite (IH _ q h HI') by (state_cbn; auto; lia).
  cbn [fst snd]. rewrite countdownUpdates_S. state_cbn.
  replace (timeLeft s - 1 - Z.of_nat k)%Z with (timeLeft s - Z.of_nat (S k))%Z by lia.
  reflexivity.
Qed.

(** X8: a question with between 1 and 2^53 seconds left and too few answers
    is open for exactly that many firings of its interval: they broadcast
    the time left down to 0, and the last one publishes the results over the
    answers received, cancels the interval and closes the question. *)
Theorem countdown_expires s q h qa :
  reachable s ->
  currentQuestion s = Some q -> questionTimer s = Some h ->
  JSMap.get (q_id q) (answers s) = Some qa ->
  (1 <= timeLeft s <= 2 ^ 53)%Z ->
  snd (run (repeat (TimerTick h) (Z.to_nat (timeLeft s))) s)
  = countdownUpdates (timeLeft s) (Z.to_nat (timeLeft s)) ++ closureEffects q qa
  /\ currentQuestion (fst (run (repeat (TimerTick h) (Z.to_nat (timeLeft s))) s)) = None
  /\ intervals (fst (run (repeat (TimerTick h) (Z.to_nat (timeLeft s))) s)) = []
  /\ timeLeft (fst (run (repeat (TimerTick h) (Z.to_nat (timeLeft s))) s)) = 0%Z.
Proof.
  intros HR Hq Ht Hget Hpos. pose proof (reachable_Inv s HR) as HI.
  destruct (Inv_open s q HI Hq) as (qa0 & h0 & _ & _ & Ht' & Hi).
  assert (h0 = h) by congruence. subst h0.
  remember (Z.to_nat (timeLeft s) - 1) as k eqn:Hk.
  assert (Hn : Z.to_nat (timeLeft s) = k + 1) by lia.
  rewrite Hn, repeat_app, run_app.
  rewrite (countdown_running k s q h) by (auto; lia).
  cbn [fst snd repeat]. rewrite run_cons. cbn [handle run fst snd].
  pose proof (decrement_exact (timeLeft s - Z.of_nat k) ltac:(lia)) as Hd.
  rewrite (timerTick_expired h _ q qa); state_cbn; auto; try lia.
  2:{ rewrite Hi, existsb_single. apply Nat.eqb_refl. }
  cbn [fst snd]. state_cbn. rewrite Ht. state_cbn. rewrite Hi, filter_self, app_nil_r.
  split_and; auto.
  unfold countdownUpdates. rewrite seq_app, map_app. cbn [seq map].
  rewrite <- app_assoc. cbn [app]. f_equal. f_equal. rewrite Hd.
  replace (timeLeft s - Z.of_nat k - 1)%Z with (timeLeft s - Z.of_nat (1 + k))%Z by lia.
  reflexivity.
Qed.

Lemma countdown_expires_witness :
  snd (run (repeat (TimerTick 0) (Z.to_nat (timeLeft (fst (run aliceAnswered initial)))))
           (fst (run aliceAnswered initial)))
  = countdownUpdates (timeLeft (fst (run aliceAnswered initial)))
                     (Z.to_nat (timeLeft (fst (run aliceAnswered initial))))
    ++ closureEffects (numbered q1 1) [("Alice", "A")].
Proof.
  apply (countdown_expires (fst (run aliceAnswered initial)) (numbered q1 1) 0
                           [("Alice", "A")]).
  - apply reachable_run. constructor.
  - apply aliceAnswered_state.
  - vm_compute. reflexivity.
  - apply aliceAnswered_state.
  - vm_compute. split; discriminate.
Defined.

Lemma answering_phase_exact pre :
  forall s q qa h,
    Inv s ->
    currentQuestion s = Some q ->
    questionTimer s = Some h ->
    JSMap.get (q_id q) (answers s) = Some qa ->
    forallb (isAnswerOrTickOf h (q_id q)) pre = true ->
    NoDup (JSMap.keys qa ++ JSMap.keys (submitted pre)) ->
    JSMap.size qa + JSMap.size (submitted pre) < totalStudents s ->
    (Z.of_nat (ticks pre) < timeLeft s <= 2 ^ 53)%Z ->
    Inv (fst (run pre s))
    /\ currentQuestion (fst (run pre s)) = Some q
    /\ questionTimer (fst (run pre s)) = Some h
    /\ JSMap.get (q_id q) (answers (fst (run pre s))) = Some (qa ++ submitted pre)
    /\ timeLeft (fst (run pre s)) = (timeLeft s - Z.of_nat (ticks pre))%Z
    /\ forall n, pollCount n (snd (run pre s)) = 0.
Proof.
  induction pre as [|e pre IH]; intros s q qa h HI Hq Ht Hget Hall Hnd Hsz Htk.
  { cbn [run fst snd submitted flat_map]. rewrite app_nil_r.
    split_and; auto. unfold ticks. cbn [filter List.length Z.of_nat]. lia. }
  cbn [forallb] in Hall. apply andb_true_iff in Hall. destruct Hall as [He Hall].
  rewrite run_cons. cbn [fst snd].
  destruct e as [sid|sid nm|sid question|sid data|sid data|sid nm|sid|k];
    try discriminate; cbn [handle isAnswerOrTickOf] in *.
  - (* a submission *)
    apply String.eqb_eq in He.
    change (submitted (SubmitAnswer sid data :: pre))
      with ((studentName data, answer data) :: submitted pre) in *.
    change (ticks (SubmitAnswer sid data :: pre)) with (ticks pre) in *.
    cbn [JSMap.keys JSMap.size map fst List.length] in Hnd, Hsz.
    assert (Hhas : JSMap.has (studentName data) qa = false).
    { apply has_absent. intros Hin. apply NoDup_remove_2 in Hnd.
      apply Hnd, in_or_app. now left. }
    pose proof (Inv_step (SubmitAnswer sid data) s HI) as HI'. cbn [handle] in HI'.
    rewrite <- He in Hget.
    rewrite (submitAnswer_accepted data s q qa) in * by auto.
    destruct (Nat.leb_spec (totalStudents s) (S (JSMap.size qa))) as [Hc|_];
      [unfold JSMap.size in *; lia|].
    cbn [fst snd] in *.
    destruct (IH _ q (qa ++ [(studentName data, answer data)]) h HI')
      as (HI2 & Hq2 & Ht2 & Hget2 & Htl2 & Hp2); auto.
    + state_cbn. rewrite <- He. apply get_set_same.
    + rewrite keys_app. cbn [JSMap.keys map fst]. rewrite <- app_assoc.
      exact Hnd.
    + unfold JSMap.size in *. rewrite length_app. cbn [List.length].
      change (totalStudents (with_answers _ s)) with (totalStudents s). lia.
    + rewrite <- app_assoc in Hget2. split_and; auto.
  - (* a firing of the interval *)
    apply Nat.eqb_eq in He. subst k.
    change (submitted (TimerTick h :: pre)) with (submitted pre) in *.
    change (ticks (TimerTick h :: pre)) with (S (ticks pre)) in *.
    pose proof (Inv_step (TimerTick h) s HI) as HI'. cbn [handle] in HI'.
    destruct (Inv_open s q HI Hq) as (qa0 & h0 & _ & _ & Ht' & Hi).
    assert (h0 = h) by congruence. subst h0.
    assert (Hlive : existsb (Nat.eqb h) (intervals s) = true).
    { rewrite Hi, existsb_single. apply Nat.eqb_refl. }
    pose proof (decrement_exact (timeLeft s) ltac:(lia)) as Hd.
    rewrite timerTick_running in * by (auto; lia). rewrite Hd in *.
    cbn [fst snd] in *.
    destruct (IH _ q qa h HI') as (HI2 & Hq2 & Ht2 & Hget2 & Htl2 & Hp2); auto.
    + state_cbn. lia.
    + split_and; auto. rewrite Htl2. state_cbn. lia.
Qed.

(** X9: with at most 2^53 seconds left, when fewer names than there are
    students answer before the time limit, nothing is published until the
    firing of the interval that brings the time left to 0; that firing
    publishes the results over exactly the answers received and closes the
    question. *)
Theorem partial_answers_expire s q qa h pre :
  reachable s ->
  currentQuestion s = Some q ->
  questionTimer s = Some h ->
  JSMap.get (q_id q) (answers s) = Some qa ->
  forallb (isAnswerOrTickOf h (q_id q)) pre = true ->
  NoDup (JSMap.keys qa ++ JSMap.keys (submitted pre)) ->
  JSMap.size qa + JSMap.size (submitted pre) < totalStudents s ->
  (timeLeft s <= 2 ^ 53)%Z ->
  Z.of_nat (ticks pre) = (timeLeft s - 1)%Z ->
  (forall n, pollCount n (snd (run pre s)) = 0)
  /\ currentQuestion (fst (run pre s)) = Some q
  /\ snd (handle (TimerTick h) (fst (run pre s)))
     = Emit ToAll (timeUpdate 0) :: closureEffects q (qa ++ submitted pre)
  /\ currentQuestion (fst (run (pre ++ [TimerTick h]) s)) = None
  /\ pollCount (q_questionNumber q) (snd (run (pre ++ [TimerTick h]) s)) = 1.
Proof.
  intros HR Hq Ht Hget Hall Hnd Hsz Hb Htk.
  pose proof (reachable_Inv s HR) as HI.
  destruct (answering_phase_exact pre s q qa h)
    as (HI1 & Hq1 & Ht1 & Hget1 & Htl1 & Hp1); auto; [lia|].
  destruct (Inv_open _ q HI1 Hq1) as (qa0 & h0 & _ & _ & Ht' & Hi).
  assert (h0 = h) by congruence. subst h0.
  assert (Hlive : existsb (Nat.eqb h) (intervals (fst (run pre s))) = true).
  { rewrite Hi, existsb_single. apply Nat.eqb_refl. }
  assert (Hstep : handle (TimerTick h) (fst (run pre s))
                  = (with_timeLeft 0 (with_currentQuestion None
                       (clearInterval (questionTimer (fst (run pre s)))
                          (with_timeLeft (decrement (timeLeft (fst (run pre s))))
                             (fst (run pre s))))),
                     Emit ToAll (timeUpdate 0) :: closureEffects q (qa ++ submitted pre))).
  { assert (Hd : decrement (timeLeft (fst (run pre s))) = 0%Z)
      by (rewrite decrement_exact; lia).
    cbn [handle]. rewrite (timerTick_expired h _ q (qa ++ submitted pre)); auto; [|lia].
    rewrite Hd. reflexivity. }
  rewrite run_app, run_cons. cbn [run fst snd]. rewrite Hstep. cbn [fst snd].
  split_and; auto.
  rewrite app_nil_r, pollCount_app, Hp1.
  change (pollCount (q_questionNumber q)
            (Emit ToAll (timeUpdate 0) :: closureEffects q (qa ++ submitted pre)))
    with (pollCount (q_questionNumber q) (closureEffects q (qa ++ submitted pre))).
  now rewrite pollCount_closure, Nat.eqb_refl.
Qed.

Lemma partial_answers_expire_witness :
  snd (handle (TimerTick 0)
         (fst (run [TimerTick 0; SubmitAnswer "s1" (answerOf "q1" "Alice" "A");
                    TimerTick 0; TimerTick 0; TimerTick 0]
                   (fst (run bothJoined initial)))))
  = Emit ToAll (timeUpdate 0)
    :: closureEffects (numbered q1 1)
         ([] ++ submitted [TimerTick 0; SubmitAnswer "s1" (answerOf "q1" "Alice" "A");
                           TimerTick 0; TimerTick 0; TimerTick 0]).
Proof.
  apply (partial_answers_expire (fst (run bothJoined initial)) (numbered q1 1) [] 0
           [TimerTick 0; SubmitAnswer "s1" (answerOf "q1" "Alice" "A");
            TimerTick 0; TimerTick 0; TimerTick 0]).
  - apply reachable_run. constructor.
  - apply bothJoined_state.
  - vm_compute. reflexivity.
  - apply bothJoined_state.
  - reflexivity.
  - cbn. repeat constructor; cbn; intuition discriminate.
  - rewrite (proj1 (proj2 (proj2 bothJoined_state))). cbn. lia.
  - rewrite (proj2 (proj2 (proj2 bothJoined_state))). discriminate.
  - rewrite (proj2 (proj2 (proj2 bothJoined_state))). reflexivity.
Defined.

(** ** Counts of the aggregator *)

Lemma list_sum_cons x l : list_sum (x :: l) = x + list_sum l.
Proof. reflexivity. Qed.

Lemma indicator_sum a l :
  NoDup l ->
  list_sum (map (fun o => if string_dec a o then 1 else 0) l)
  = if existsb (String.eqb a) l then 1 else 0.
Proof.
  induction l as [|x l IH]; [reflexivity|].
  intros H. inversion H as [|? ? Hn Hd]; subst.
  change (list_sum (map (fun o => if string_dec a o then 1 else 0) (x :: l)))
    with ((if string_dec a x then 1 else 0)
          + list_sum (map (fun o => if string_dec a o then 1 else 0) l)).
  rewrite (IH Hd). cbn [existsb].
  destruct (string_dec a x) as [->|Hne].
  - rewrite String.eqb_refl. cbn [orb].
    destruct (existsb (String.eqb x) l) eqn:E; auto.
    apply existsb_eqb_In in E. contradiction.
  - destruct (String.eqb_spec a x); [congruence|reflexivity].
Qed.

Lemma count_sum vals l :
  NoDup l ->
  list_sum (map (count_occ string_dec vals) l)
  = List.length (filter (fun a => existsb (String.eqb a) l) vals).
Proof.
  intros Hnd. induction vals as [|a vals IH].
  { clear Hnd. induction l as [|o l IHl]; [reflexivity|].
    cbn [map]. rewrite list_sum_cons, IHl. reflexivity. }
  cbn [filter]. 
  assert (E : list_sum (map (count_occ string_dec (a :: vals)) l)
              = list_sum (map (fun o => if string_dec a o then 1 else 0) l)
                + list_sum (map (count_occ string_dec vals) l)).
  { clear. induction l as [|o l IHl]; [reflexivity|].
    cbn [map]. rewrite !list_sum_cons, IHl. cbn [count_occ]. destruct (string_dec a o); lia. }
  rewrite E, IH, indicator_sum by assumption.
  destruct (existsb (String.eqb a) l); cbn [List.length]; lia.
Qed.

Lemma existsb_distinctOptions a options :
  existsb (String.eqb a) (distinctOptions options) = existsb (String.eqb a) options.
Proof.
  apply eq_true_iff_eq. rewrite !existsb_eqb_In. apply In_distinctOptions.
Qed.

(** X10: the counts returned by [calculateResults] add up to the number of
    answers that name one of the options, whether or not options repeat:
    never more than the number of answers, and less by the number of stray
    answers. *)
Theorem counts_add_up options questionAnswers :
  list_sum (map r_count (calculateResults options questionAnswers))
  = List.length (filter (isValidAnswer options) (JSMap.values questionAnswers))
  /\ list_sum (map r_count (calculateResults options questionAnswers))
     + List.length (filter (fun a => negb (isValidAnswer options a))
                           (JSMap.values questionAnswers))
     = JSMap.size questionAnswers.
Proof.
  assert (E : list_sum (map r_count (calculateResults options questionAnswers))
              = List.length (filter (isValidAnswer options) (JSMap.values questionAnswers))).
  { rewrite calculateResults_aggregate. unfold aggregate. rewrite map_map.
    cbn [r_count]. rewrite count_sum by apply distinctOptions_NoDup.
    f_equal. apply filter_ext. intros a. apply existsb_distinctOptions. }
  split; auto. rewrite E. unfold JSMap.size, JSMap.values.
  rewrite <- (length_map snd questionAnswers).
  generalize (map snd questionAnswers). intros l.
  induction l as [|a l IH]; cbn [filter List.length]; auto.
  destruct (isValidAnswer options a); cbn [negb List.length]; lia.
Qed.

(** ** The ledger and the history *)

Lemma has_In_keys {V} k (m : JSMap.t V) : JSMap.has k m = true <-> In k (JSMap.keys m).
Proof.
  rewrite <- get_in_keys. unfold JSMap.has.
  destruct (JSMap.get k m); split; congruence.
Qed.

Lemma has_same_keys {V W} k (m : JSMap.t V) (m' : JSMap.t W) :
  JSMap.keys m = JSMap.keys m' -> JSMap.has k m = JSMap.has k m'.
Proof.
  intros H. apply eq_true_iff_eq. rewrite !has_In_keys. now rewrite H.
Qed.

Lemma Ledger_with_participants p s : Ledger s -> Ledger (with_participants p s).
Proof. intros H. exact H. Qed.

Lemma Ledger_step e s : Inv s -> Ledger s -> Ledger (fst (handle e s)).
Proof.
  intros HI HL. pose proof HL as (Hkeys & Hnd & Hnum & Hcur).
  destruct (isRosterEvent e) eqn:Hr.
  { destruct (roster_frame e s Hr) as (p & -> & _). exact HL. }
  destruct e as [sid|sid nm|sid question|sid data|sid data|sid nm|sid|k];
    try discriminate; cbn [handle].
  - (* startQuestion *)
    destruct (startRefused s) eqn:Hs.
    { rewrite startQuestion_refused by assumption. exact HL. }
    rewrite startQuestion_accepted by assumption. cbn [fst].
    assert (L : Ledger (with_timeLeft (in_timeLimit question)
                 (with_answers (JSMap.set (in_id question) JSMap.empty (answers s))
                    (with_currentQuestion
                       (Some (numbered question (S (questionNumber s))))
                       (with_questionHistory
                          (JSMap.set (in_id question) (S (questionNumber s))
                                     (questionHistory s))
                          (with_questionNumber (S (questionNumber s)) s)))))).
    { unfold Ledger. state_cbn. split_and.
      - rewrite !keys_set, Hkeys.
        now rewrite (has_same_keys _ (answers s) (questionHistory s) Hkeys).
      - intros qid qa.
        destruct (String.eqb_spec (in_id question) qid) as [<-|Hne].
        + rewrite get_set_same. intros E. inv_opt. constructor.
        + rewrite get_set_other by assumption. apply Hnd.
      - intros qid n.
        destruct (String.eqb_spec (in_id question) qid) as [<-|Hne].
        + rewrite get_set_same. intros E. inv_opt. lia.
        + rewrite get_set_other by assumption. intros E.
          specialize (Hnum qid n E). lia.
      - intros q E. inv_opt. cbn [q_id q_questionNumber numbered].
        apply get_set_same. }
    destruct (questionTimer s); exact L.
  - (* submitAnswer *)
    destruct (submitAnswer_cases data s) as [->|(q & qa & Hq & Hid & Hget & Hhas)].
    { exact HL. }
    rewrite (submitAnswer_accepted data s q qa) by assumption.
    assert (L : Ledger (with_answers
                          (JSMap.set (questionId data)
                             (qa ++ [(studentName data, answer data)]) (answers s)) s)).
    { unfold Ledger. state_cbn. split_and; auto.
      - rewrite keys_set_present by congruence. exact Hkeys.
      - intros qid qa'.
        destruct (String.eqb_spec (questionId data) qid) as [<-|Hne].
        + rewrite get_set_same. intros E. inv_opt.
          rewrite keys_app. cbn [JSMap.keys map fst].
          apply NoDup_app; eauto.
          * constructor; [tauto|constructor].
          * intros x Hx [<-|Hf]; [|destruct Hf].
            apply has_In_keys in Hx. congruence.
        + rewrite get_set_other by assumption. apply Hnd. }
    destruct (totalStudents s <=? S (JSMap.size qa))%nat; cbn [fst]; [|exact L].
    destruct L as (L1 & L2 & L3 & _).
    destruct (questionTimer s); unfold Ledger; state_cbn;
      (split_and; [exact L1|exact L2|exact L3|discriminate]).
  - (* timerTick *)
    destruct (existsb (Nat.eqb k) (intervals s)) eqn:Hlive.
    2:{ rewrite timerTick_dead by assumption. exact HL. }
    destruct (currentQuestion s) as [q|] eqn:Hq.
    2:{ rewrite (Inv_idle s HI Hq) in Hlive. discriminate. }
    destruct (Inv_open s q HI Hq) as (qa & h0 & Hget & _ & Ht & Hi).
    destruct (Z.lt_ge_cases 0 (decrement (timeLeft s))) as [Hgt|Hle].
    + rewrite timerTick_running by assumption. cbn [fst]. exact HL.
    + rewrite (timerTick_expired k s q qa) by assumption. cbn [fst]. rewrite Ht.
      unfold Ledger. state_cbn. split_and; auto. discriminate.
Qed.

Lemma Ledger_initial : Ledger initial.
Proof. unfold Ledger. cbn. split_and; auto; discriminate. Qed.

Lemma reachable_Ledger s : reachable s -> Ledger s.
Proof.
  induction 1 as [|e s HR IH]; [apply Ledger_initial|].
  apply Ledger_step; auto using reachable_Inv.
Qed.

(** X12: whatever events arrive, the ledger and the history hold the same
    question ids, every answer set has one entry for each name, every number
    in the history lies between 1 and the counter, and the id of the open
    question is recorded with its number. *)
Theorem ledger_matches_history es : Ledger (fst (run es initial)).
Proof. apply reachable_Ledger, reachable_run. constructor. Qed.

(** ** Answer sets of closed questions *)

Lemma timerTick_frame h s :
  answers (fst (timerTick h s)) = answers s
  /\ (currentQuestion (fst (timerTick h s)) = currentQuestion s
      \/ currentQuestion (fst (timerTick h s)) = None).
Proof.
  destruct s as [cq ps ans qt tl qn qh iv nh].
  unfold timerTick, intervalCallback, endQuestion. state_cbn.
  destruct (existsb (Nat.eqb h) iv); [|auto].
  destruct (decrement tl <=? 0)%Z; [|auto].
  destruct qt; state_cbn;
    (destruct cq as [q|];
     [destruct (JSMap.get (q_id q) ans); cbn [fst]; state_cbn; auto | auto]).
Qed.

Lemma closed_answers_step e s qid :
  (forall q, currentQuestion s = Some q -> q_id q <> qid) ->
  startsId qid e = false ->
  JSMap.get qid (answers (fst (handle e s))) = JSMap.get qid (answers s)
  /\ (forall q, currentQuestion (fst (handle e s)) = Some q -> q_id q <> qid).
Proof.
  intros Hcur Hns.
  destruct (isRosterEvent e) eqn:Hr.
  { destruct (roster_frame e s Hr) as (p & -> & _). auto. }
  destruct e as [sid|sid nm|sid question|sid data|sid data|sid nm|sid|k];
    try discriminate; cbn [handle startsId] in *.
  - (* startQuestion *)
    destruct (startRefused s) eqn:Hs.
    { rewrite startQuestion_refused by assumption. auto. }
    rewrite startQuestion_accepted by assumption. cbn [fst].
    apply String.eqb_neq in Hns.
    destruct (questionTimer s); state_cbn;
      (split; [now apply get_set_other | intros q E; inv_opt; exact Hns]).
  - (* submitAnswer *)
    destruct (submitAnswer_cases data s) as [->|(q & qa & Hq & Hid & Hget & Hhas)];
      [auto|].
    pose proof (Hcur q Hq) as Hne. rewrite Hid in Hne.
    rewrite (submitAnswer_accepted data s q qa) by assumption.
    destruct (totalStudents s <=? S (JSMap.size qa))%nat; cbn [fst].
    + destruct (questionTimer s); state_cbn;
        (split; [now apply get_set_other | discriminate]).
    + state_cbn. split; [now apply get_set_other | exact Hcur].
  - (* timerTick *)
    destruct (timerTick_frame k s) as [Ha [Hc|Hc]]; rewrite Ha, Hc;
      split; auto; discriminate.
Qed.

(** X13: once a question is closed, or another one has taken its place, its
    answer set is sealed: no submission, tick, join or removal changes it,
    and only a [startQuestion] under the same id replaces it. *)
Theorem closed_answers_sealed es :
  forall s qid,
    (forall q, currentQuestion s = Some q -> q_id q <> qid) ->
    existsb (startsId qid) es = false ->
    JSMap.get qid (answers (fst (run es s))) = JSMap.get qid (answers s).
Proof.
  induction es as [|e es IH]; intros s qid Hcur Hns; auto.
  cbn [existsb] in Hns. apply orb_false_iff in Hns. destruct Hns as [He Hes].
  rewrite run_cons. cbn [fst].
  destruct (closed_answers_step e s qid Hcur He) as [Hget Hcur'].
  rewrite IH; auto.
Qed.

Lemma bothAnswered_state :
  currentQuestion (fst (run bothAnswered initial)) = None
  /\ JSMap.get "q1" (answers (fst (run bothAnswered initial)))
     = Some [("Alice", "A"); ("Bob", "B")].
Proof. vm_compute. split; reflexivity. Qed.

Lemma closed_answers_sealed_witness :
  JSMap.get "q1"
    (answers (fst (run [SubmitAnswer "s3" (answerOf "q1" "Carol" "A");
                        StartQuestion "t" q2;
                        SubmitAnswer "s1" (answerOf "q1" "Alice" "B");
                        TimerTick 1; Disconnect "s1"]
                       (fst (run bothAnswered initial)))))
  = JSMap.get "q1" (answers (fst (run bothAnswered initial))).
Proof.
  apply closed_answers_sealed.
  - intros q Hq. rewrite (proj1 bothAnswered_state) in Hq. discriminate.
  - reflexivity.
Defined.

(** ** The order of publication *)

Lemma publishedNumbers_app a b :
  publishedNumbers (a ++ b) = publishedNumbers a ++ publishedNumbers b.
Proof. apply flat_map_app. Qed.

Lemma pollCount_count n out :
  pollCount n out = count_occ Nat.eq_dec (publishedNumbers out) n.
Proof.
  unfold pollCount. induction out as [|e out IH]; [reflexivity|].
  cbn [filter]. change (publishedNumbers (e :: out))
    with (publishedNumber e ++ publishedNumbers out).
  rewrite count_occ_app, <- IH.
  destruct e as [t m| |]; try reflexivity.
  destruct m; try reflexivity.
  cbn [isPollFor publishedNumber count_occ].
  destruct (Nat.eqb_spec (pr_questionNumber r) n);
    destruct (Nat.eq_dec (pr_questionNumber r) n); try contradiction; reflexivity.
Qed.

Lemma published_step e s :
  Inv s ->
  publishedNumbers (snd (handle e s)) = []
  \/ exists q, currentQuestion s = Some q
               /\ currentQuestion (fst (handle e s)) = None
               /\ questionNumber (fst (handle e s)) = questionNumber s
               /\ publishedNumbers (snd (handle e s)) = [q_questionNumber q].
Proof.
  intros HI.
  destruct (step_outcome e s HI)
    as [_ _ [Hp _]|q Hq Hc Hqn Hp _ _|sid qi _ _ _ _ Hp _].
  - left. apply (count_occ_inv_nil Nat.eq_dec). intros n.
    now rewrite <- pollCount_count.
  - right. exists q. split_and; auto.
    destruct (publishedNumbers (snd (handle e s))) as [|x l] eqn:E.
    + specialize (Hp (q_questionNumber q)).
      rewrite pollCount_count, E, Nat.eqb_refl in Hp. discriminate.
    + assert (x = q_questionNumber q).
      { specialize (Hp x). rewrite pollCount_count, E in Hp. cbn in Hp.
        destruct (Nat.eq_dec x x); [|contradiction].
        destruct (Nat.eqb_spec (q_questionNumber q) x); congruence. }
      subst x. f_equal. apply (count_occ_inv_nil Nat.eq_dec). intros n.
      specialize (Hp n). rewrite pollCount_count, E in Hp. cbn in Hp.
      destruct (Nat.eq_dec (q_questionNumber q) n) as [->|Hne].
      * rewrite Nat.eqb_refl in Hp. lia.
      * exact (eq_trans Hp ltac:(destruct (Nat.eqb_spec (q_questionNumber q) n);
                                  [contradiction|reflexivity])).
  - left. apply (count_occ_inv_nil Nat.eq_dec). intros n.
    now rewrite <- pollCount_count.
Qed.

Lemma StronglySorted_snoc l q :
  StronglySorted lt l -> (forall n, In n l -> n < q) -> StronglySorted lt (l ++ [q]).
Proof.
  induction 1 as [|a l Hs IH Ha]; intros Hlt; cbn.
  - repeat constructor.
  - constructor.
    + apply IH. intros n Hn. apply Hlt. now right.
    + apply Forall_app. split; auto. constructor; [|constructor].
      apply Hlt. now left.
Qed.

Lemma PublishedInv_step e s out :
  PublishedInv s out -> PublishedInv (fst (handle e s)) (out ++ snd (handle e s)).
Proof.
  intros (HI & Hsorted & Hrange & Hcur).
  pose proof (Inv_step e s HI) as HI'.
  split; [exact HI'|]. rewrite publishedNumbers_app.
  destruct (published_step e s HI) as [Hp|(q & Hq & Hc & Hqn & Hp)]; rewrite Hp.
  - rewrite app_nil_r.
    destruct (step_outcome e s HI)
      as [Hc Hqn _|q Hq Hc Hqn _ _ _|sid qi _ _ Hc Hqn _ _]; rewrite Hc, Hqn.
    + auto.
    + split_and; auto. discriminate.
    + split_and; auto.
      * intros n Hn. specialize (Hrange n Hn). lia.
      * intros q E. inv_opt. cbn [q_questionNumber numbered]. split; [lia|].
        intros n Hn. specialize (Hrange n Hn). lia.
  - destruct (Hcur q Hq) as [Hone Hbelow].
    destruct (Inv_open s q HI Hq) as (_ & _ & _ & Hle & _).
    rewrite Hc, Hqn. split_and.
    + now apply StronglySorted_snoc.
    + intros n Hn. apply in_app_iff in Hn. destruct Hn as [Hn|[<-|[]]]; auto; lia.
    + discriminate.
Qed.

Lemma PublishedInv_run es s out :
  PublishedInv s out -> PublishedInv (fst (run es s)) (out ++ snd (run es s)).
Proof.
  revert s out. induction es as [|e es IH]; intros s out HP.
  - cbn [run fst snd]. now rewrite app_nil_r.
  - rewrite run_cons. cbn [fst snd]. rewrite app_assoc.
    apply IH. now apply PublishedInv_step.
Qed.

(** X14: results are published in the order in which the questions were started:
    over any run the sequence numbers of the [pollResults] notifications
    are strictly increasing, and each of them is the number of a question
    that was broadcast to the students before. *)
Theorem published_in_order es :
  StronglySorted lt (publishedNumbers (snd (run es initial)))
  /\ forall n, In n (publishedNumbers (snd (run es initial))) ->
               In n (startedNumbers (snd (run es initial))).
Proof.
  assert (H0 : PublishedInv initial []).
  { split; [apply Inv_initial|]. cbn. split_and.
    - constructor.
    - intros n [].
    - discriminate. }
  destruct (PublishedInv_run es initial [] H0) as (_ & Hs & Hr & _).
  cbn [app] in *. split; auto.
  intros n Hn. destruct (startedNumbers_run es initial Inv_initial) as [_ E].
  rewrite E. cbn [questionNumber initial]. rewrite Nat.sub_0_r.
  apply in_seq. specialize (Hr n Hn). lia.
Qed.

(** ** Students who share a name *)

Lemma fewer_distinct {A} (l l' : list A) :
  NoDup l -> incl l l' -> ~ NoDup l' -> List.length l < List.length l'.
Proof.
  intros Hnd Hincl Hdup.
  destruct (Nat.lt_ge_cases (List.length l) (List.length l')) as [H|H]; auto.
  exfalso. apply Hdup. eapply NoDup_incl_NoDup; eauto.
Qed.

Lemma fewer_names_than_students s (qa : JSMap.t string) :
  NoDup (JSMap.keys qa) -> incl (JSMap.keys qa) (studentList s) ->
  ~ NoDup (studentList s) ->
  JSMap.size qa < totalStudents s.
Proof.
  intros Hnd Hincl Hdup. pose proof (fewer_distinct _ _ Hnd Hincl Hdup) as H.
  unfold JSMap.keys, studentList in H. rewrite !length_map in H. exact H.
Qed.

Lemma shared_name_phase es :
  forall s q qa,
    reachable s ->
    currentQuestion s = Some q ->
    JSMap.get (q_id q) (answers s) = Some qa ->
    incl (JSMap.keys qa) (studentList s) ->
    ~ NoDup (studentList s) ->
    forallb (isRosterSubmission s) es = true ->
    currentQuestion (fst (run es s)) = Some q
    /\ (forall n, pollCount n (snd (run es s)) = 0)
    /\ exists qa', JSMap.get (q_id q) (answers (fst (run es s))) = Some qa'
                   /\ JSMap.size qa' < totalStudents s.
Proof.
  induction es as [|e es IH]; intros s q qa HR Hq Hget Hincl Hdup Hall.
  { cbn [run fst snd]. split_and; auto. exists qa. split; auto.
    apply fewer_names_than_students; auto.
    destruct (reachable_Ledger s HR) as (_ & Hnd & _). eauto. }
  cbn [forallb] in Hall. apply andb_true_iff in Hall. destruct Hall as [He Hall].
  destruct e as [sid|sid nm|sid question|sid data|sid data|sid nm|sid|k];
    try discriminate.
  cbn [isRosterSubmission] in He. apply existsb_eqb_In in He.
  assert (HR' : reachable (fst (handle (SubmitAnswer sid data) s))) by now constructor.
  rewrite run_cons. cbn [fst snd handle] in *.
  destruct (submitAnswer_cases data s) as [E|(q' & qa0 & Hq' & Hid & Hget0 & Hhas)].
  { rewrite E in *. cbn [fst snd] in *. now apply (IH s q qa). }
  rewrite Hq in Hq'. inv_opt. rewrite <- Hid in Hget0. rewrite Hget in Hget0. inv_opt.
  rewrite Hid in Hget.
  assert (Hnd' : NoDup (JSMap.keys (qa0 ++ [(studentName data, answer data)]))).
  { destruct (reachable_Ledger s HR) as (_ & Hnd & _).
    rewrite keys_app. cbn [JSMap.keys map fst]. apply NoDup_app; eauto.
    - constructor; [tauto|constructor].
    - intros x Hx [<-|Hf]; [|destruct Hf]. apply has_In_keys in Hx. congruence. }
  assert (Hincl' : incl (JSMap.keys (qa0 ++ [(studentName data, answer data)]))
                        (studentList s)).
  { rewrite keys_app. cbn [JSMap.keys map fst]. apply incl_app; auto.
    intros x [<-|[]]. exact He. }
  pose proof (fewer_names_than_students s _ Hnd' Hincl' Hdup) as Hlt.
  unfold JSMap.size in Hlt. rewrite length_app in Hlt. cbn [List.length] in Hlt.
  rewrite (submitAnswer_accepted data s q' qa0) in * by assumption.
  destruct (Nat.leb_spec (totalStudents s) (S (JSMap.size qa0))) as [Hc|_];
    [unfold JSMap.size in Hc; lia|].
  cbn [fst snd app] in *.
  destruct (IH _ q' (qa0 ++ [(studentName data, answer data)]) HR')
    as (H1 & H2 & qa' & H3 & H4); auto.
  { rewrite Hid. state_cbn. apply get_set_same. }
  split_and; auto. exists qa'. auto.
Qed.

(** X15: when two students bear the same name and the answers recorded so
    far are all under names of students of the roster, submissions under
    the names of the students never complete the answer set: however many
    arrive, the question stays open and nothing is published (the
    countdown has to close it). *)
Theorem shared_name_blocks_closure s q qa es :
  reachable s ->
  currentQuestion s = Some q ->
  JSMap.get (q_id q) (answers s) = Some qa ->
  incl (JSMap.keys qa) (studentList s) ->
  ~ NoDup (studentList s) ->
  forallb (isRosterSubmission s) es = true ->
  currentQuestion (fst (run es s)) = Some q
  /\ forall n, pollCount n (snd (run es s)) = 0.
Proof.
  intros HR Hq Hget Hincl Hdup Hall.
  destruct (shared_name_phase es s q qa) as (H1 & H2 & _); auto.
Qed.

Lemma twoSams_state :
  currentQuestion (fst (run twoSams initial)) = Some (numbered q1 1)
  /\ JSMap.get (q_id (numbered q1 1)) (answers (fst (run twoSams initial))) = Some []
  /\ studentList (fst (run twoSams initial)) = ["Sam"; "Sam"].
Proof. vm_compute. repeat split; reflexivity. Qed.

Lemma shared_name_blocks_closure_witness :
  currentQuestion
    (fst (run [SubmitAnswer "s1" (answerOf "q1" "Sam" "A");
               SubmitAnswer "s2" (answerOf "q1" "Sam" "B")]
              (fst (run twoSams initial))))
  = Some (numbered q1 1)
  /\ forall n,
       pollCount n
         (snd (run [SubmitAnswer "s1" (answerOf "q1" "Sam" "A");
                    SubmitAnswer "s2" (answerOf "q1" "Sam" "B")]
                   (fst (run twoSams initial)))) = 0.
Proof.
  apply (shared_name_blocks_closure (fst (run twoSams initial)) (numbered q1 1) []).
  - apply reachable_run. constructor.
  - apply twoSams_state.
  - apply twoSams_state.
  - intros x [].
  - rewrite (proj2 (proj2 twoSams_state)). intros H.
    inversion H as [|? ? Hn _]. apply Hn. now left.
  - unfold isRosterSubmission. rewrite (proj2 (proj2 twoSams_state)). reflexivity.
Defined.

(** ** What is published, and for which question *)

(** The results an event publishes are those of the open question over its
    answer set as the event leaves it; and a question that is open after an
    event was open before it or has just been broadcast. *)
Lemma payload_step e s :
  Inv s ->
  (forall t r, In (Emit t (pollResults r)) (snd (handle e s)) ->
               exists q qa,
                 currentQuestion s = Some q
                 /\ JSMap.get (q_id q) (answers (fst (handle e s))) = Some qa
                 /\ t = ToAll /\ r = payload q qa)
  /\ (forall q, currentQuestion (fst (handle e s)) = Some q ->
                currentQuestion s = Some q
                \/ In (Emit (ToRoom "students") (questionStarted q)) (snd (handle e s))).
Proof.
  intros HI.
  destruct (isRosterEvent e) eqn:Hr.
  { destruct (roster_frame e s Hr) as (p & Hs & _ & Hq & _). split.
    - intros t r Hin. exfalso.
      specialize (Hq (pr_questionNumber r)). unfold pollCount in Hq.
      apply length_zero_iff_nil in Hq.
      assert (Hf : In (Emit t (pollResults r))
                      (filter (isPollFor (pr_questionNumber r)) (snd (handle e s)))).
      { apply filter_In. split; auto. cbn. apply Nat.eqb_refl. }
      rewrite Hq in Hf. destruct Hf.
    - rewrite Hs. auto. }
  destruct e as [sid|sid nm|sid question|sid data|sid data|sid nm|sid|k];
    try discriminate; cbn [handle].
  - (* startQuestion *)
    destruct (startRefused s) eqn:Hs.
    { rewrite startQuestion_refused by assumption. cbn [fst snd]. split; auto.
      intros t r [H|[]]. discriminate. }
    rewrite startQuestion_accepted by assumption. cbn [fst snd]. split.
    + intros t r [H|[H|[H|[]]]]; discriminate.
    + intros q Hq. right. left.
      destruct (questionTimer s); state_cbn; inv_opt; reflexivity.
  - (* submitAnswer *)
    destruct (submitAnswer_cases data s) as [->|(q & qa & Hq & Hid & Hget & Hhas)].
    { cbn [fst snd]. split; auto. intros t r []. }
    rewrite (submitAnswer_accepted data s q qa) by assumption.
    destruct (totalStudents s <=? S (JSMap.size qa))%nat; cbn [fst snd].
    + split.
      * intros t r [H|[H|[]]]; [|discriminate]. inversion H; subst.
        exists q, (qa ++ [(studentName data, answer data)]). split_and; auto.
        rewrite Hid. destruct (questionTimer s); state_cbn; apply get_set_same.
      * intros q' Hq'. destruct (questionTimer s); discriminate.
    + split; [intros t r []|]. state_cbn. auto.
  - (* timerTick *)
    destruct (existsb (Nat.eqb k) (intervals s)) eqn:Hlive.
    2:{ rewrite timerTick_dead by assumption. cbn [fst snd]. split; auto.
        intros t r []. }
    destruct (currentQuestion s) as [q|] eqn:Hq.
    2:{ rewrite (Inv_idle s HI Hq) in Hlive. discriminate. }
    destruct (Inv_open s q HI Hq) as (qa & h0 & Hget & _ & Ht & Hi).
    destruct (Z.lt_ge_cases 0 (decrement (timeLeft s))) as [Hgt|Hle].
    + rewrite timerTick_running by assumption. cbn [fst snd]. split.
      * intros t r [H|[]]. discriminate.
      * state_cbn. rewrite Hq. auto.
    + rewrite (timerTick_expired k s q qa) by assumption. cbn [fst snd]. split.
      * intros t r [H|[H|[H|[]]]]; try discriminate. inversion H; subst.
        exists q, qa. split_and; auto. rewrite Ht. state_cbn. exact Hget.
      * rewrite Ht. discriminate.
Qed.

Lemma PayloadInv_step e s out :
  PayloadInv s out -> PayloadInv (fst (handle e s)) (out ++ snd (handle e s)).
Proof.
  intros (HI & Hcur & Hpub).
  destruct (payload_step e s HI) as [Hstep Hnext].
  split; [now apply Inv_step|]. split.
  - intros q Hq. apply in_or_app. destruct (Hnext q Hq); auto.
  - intros t r Hin. apply in_app_or in Hin. destruct Hin as [Hin|Hin].
    + destruct (Hpub t r Hin) as (Ht & q & qa & Hq & E). split; [exact Ht|].
      exists q, qa. split; auto. apply in_or_app. auto.
    + destruct (Hstep t r Hin) as (q & qa & Hq & _ & Ht & E). split; [exact Ht|].
      exists q, qa. split; auto. apply in_or_app. auto.
Qed.

Lemma PayloadInv_run es s out :
  PayloadInv s out -> PayloadInv (fst (run es s)) (out ++ snd (run es s)).
Proof.
  revert s out. induction es as [|e es IH]; intros s out HP.
  - cbn [run fst snd]. now rewrite app_nil_r.
  - rewrite run_cons. cbn [fst snd]. rewrite app_assoc.
    apply IH. now apply PayloadInv_step.
Qed.

(** X16: every [pollResults] of a run goes to everyone and belongs to a question
    that was broadcast to the students in that run: it carries the sequence
    number, id and text of that question, and results computed over its
    options. *)
Theorem published_payload es t r :
  In (Emit t (pollResults r)) (snd (run es initial)) ->
  t = ToAll
  /\ exists q qa,
       In (Emit (ToRoom "students") (questionStarted q)) (snd (run es initial))
       /\ pr_questionNumber r = q_questionNumber q
       /\ pr_questionId r = q_id q
       /\ pr_questionText r = q_text q
       /\ results r = calculateResults (q_options q) qa.
Proof.
  intros Hin.
  assert (H0 : PayloadInv initial []).
  { split; [apply Inv_initial|]. split; [discriminate|]. intros ? ? []. }
  destruct (PayloadInv_run es initial [] H0) as (_ & _ & Hpub).
  cbn [app] in Hpub. destruct (Hpub t r Hin) as (Ht & q & qa & Hq & ->).
  split; [exact Ht|]. exists q, qa. split_and; auto.
Qed.

Lemma published_payload_witness :
  ToAll = ToAll
  /\ exists q qa,
       In (Emit (ToRoom "students") (questionStarted q)) (snd (run bothAnswered initial))
       /\ pr_questionNumber (payload (numbered q1 1) [("Alice", "A"); ("Bob", "B")])
          = q_questionNumber q
       /\ pr_questionId (payload (numbered q1 1) [("Alice", "A"); ("Bob", "B")]) = q_id q
       /\ pr_questionText (payload (numbered q1 1) [("Alice", "A"); ("Bob", "B")])
          = q_text q
       /\ results (payload (numbered q1 1) [("Alice", "A"); ("Bob", "B")])
          = calculateResults (q_options q) qa.
Proof.
  apply (published_payload bothAnswered ToAll).
  unfold bothAnswered. rewrite run_app. cbn [snd]. apply in_or_app. right.
  rewrite run_cons. cbn [snd handle]. apply in_or_app. left.
  rewrite (submitAnswer_accepted _ _ (numbered q1 1) [("Alice", "A")]);
    try apply aliceAnswered_state; try reflexivity.
  left. reflexivity.
Defined.

(** ** The time left *)

Lemma TimeInv_step e s : Inv s -> TimeInv s -> TimeInv (fst (handle e s)).
Proof.
  intros HI HT. pose proof HT as (Hidle & Hopen).
  destruct (isRosterEvent e) eqn:Hr.
  { destruct (roster_frame e s Hr) as (p & -> & _). exact HT. }
  destruct e as [sid|sid nm|sid question|sid data|sid data|sid nm|sid|k];
    try discriminate; cbn [handle].
  - destruct (startRefused s) eqn:Hs.
    { now rewrite startQuestion_refused. }
    rewrite startQuestion_accepted by assumption. cbn [fst].
    destruct (questionTimer s); unfold TimeInv; state_cbn;
      (split; [discriminate|]; intros q E; inv_opt; cbn [q_timeLimit numbered]; lia).
  - destruct (submitAnswer_cases data s) as [->|(q & qa & Hq & Hid & Hget & Hhas)];
      [exact HT|].
    rewrite (submitAnswer_accepted data s q qa) by assumption.
    destruct (totalStudents s <=? S (JSMap.size qa))%nat; cbn [fst]; [|exact HT].
    destruct (questionTimer s); unfold TimeInv; state_cbn;
      (split; [reflexivity|discriminate]).
  - destruct (existsb (Nat.eqb k) (intervals s)) eqn:Hlive.
    2:{ now rewrite timerTick_dead. }
    destruct (currentQuestion s) as [q|] eqn:Hq.
    2:{ rewrite (Inv_idle s HI Hq) in Hlive. discriminate. }
    destruct (Inv_open s q HI Hq) as (qa & h0 & Hget & _ & Ht & Hi).
    destruct (Hopen q eq_refl) as [Hle Hpos].
    destruct (Z.lt_ge_cases 0 (decrement (timeLeft s))) as [Hgt|Hle1].
    + rewrite timerTick_running by assumption. cbn [fst].
      unfold TimeInv. state_cbn. rewrite Hq. split; [discriminate|].
      intros q' E. inv_opt. pose proof (decrement_le (timeLeft s)). lia.
    + rewrite (timerTick_expired k s q qa) by assumption. cbn [fst]. rewrite Ht.
      unfold TimeInv. state_cbn. split; [reflexivity|discriminate].
Qed.

(** X17: in every reachable state the time left is 0 while no question is open;
    while one is open it is at most the time limit of the question, and it
    is at least 1 unless it still is the time limit the question was
    started with. *)
Theorem timeLeft_bounds s : reachable s -> TimeInv s.
Proof.
  induction 1 as [|e s HR IH].
  - split; [reflexivity|discriminate].
  - apply TimeInv_step; auto using reachable_Inv.
Qed.

Lemma timeLeft_bounds_witness : TimeInv (fst (run preempted initial)).
Proof. apply timeLeft_bounds. apply reachable_run. constructor. Defined.

(** ** Percentages of sessions with at most 100 answers *)

Lemma percentagesChecked_100 : percentagesChecked 100 = true.
Proof. vm_compute. reflexivity. Qed.

Lemma percentagesChecked_sound bound :
  percentagesChecked bound = true ->
  forall count total,
    1 <= total <= bound -> count <= total -> percentageChecked count total = true.
Proof.
  unfold percentagesChecked. intros H count total Ht Hc.
  rewrite forallb_forall in H.
  specialize (H total ltac:(apply in_seq; lia)).
  rewrite forallb_forall in H.
  apply H. apply in_seq. lia.
Qed.

(** X11: with at most 100 answers, the percentage of an option lies between 0
    and 100, is 0 exactly for an option nobody chose and 100 exactly for an
    option everybody chose, and is the exactly rounded percentage, halves
    upwards, except that on an exact half (100 * count / total an integer
    plus one half) it can be one less, the binary64 product falling just
    short of the half. *)
Theorem percentages_in_range count total :
  1 <= total <= 100 -> count <= total ->
  (0 <= percentageOf count total <= 100)%Z
  /\ (percentageOf count total = 0%Z <-> count = 0)
  /\ (percentageOf count total = 100%Z <-> count = total)
  /\ (percentageOf count total = exactPercentage count total
      \/ ((200 * Z.of_nat count + Z.of_nat total) mod (2 * Z.of_nat total) = 0
          /\ percentageOf count total = exactPercentage count total - 1)%Z).
Proof.
  intros Ht Hc.
  pose proof (percentagesChecked_sound 100 percentagesChecked_100 count total Ht Hc)
    as H.
  unfold percentageChecked in H. cbv zeta in H.
  apply andb_true_iff in H. destruct H as [H Hexact].
  apply andb_true_iff in H. destruct H as [H Hfull].
  apply andb_true_iff in H. destruct H as [H Hzero].
  apply andb_true_iff in H. destruct H as [Hlo Hhi].
  apply Z.leb_le in Hlo, Hhi.
  apply Bool.eqb_prop in Hzero, Hfull.
  split; [split; assumption|]. split; [|split].
  - split; intros E.
    + apply Nat.eqb_eq. rewrite <- Hzero. apply Z.eqb_eq. exact E.
    + apply Z.eqb_eq. rewrite Hzero. apply Nat.eqb_eq. exact E.
  - split; intros E.
    + apply Nat.eqb_eq. rewrite <- Hfull. apply Z.eqb_eq. exact E.
    + apply Z.eqb_eq. rewrite Hfull. apply Nat.eqb_eq. exact E.
  - apply orb_true_iff in Hexact. destruct Hexact as [E|E].
    + left. now apply Z.eqb_eq.
    + right. apply andb_true_iff in E. destruct E as [E1 E2].
      apply Z.eqb_eq in E1, E2. auto.
Qed.

Lemma percentages_in_range_witness :
  (0 <= percentageOf 23 40 <= 100)%Z
  /\ (percentageOf 23 40 = 0%Z <-> 23 = 0)
  /\ (percentageOf 23 40 = 100%Z <-> 23 = 40)
  /\ (percentageOf 23 40 = exactPercentage 23 40
      \/ ((200 * Z.of_nat 23 + Z.of_nat 40) mod (2 * Z.of_nat 40) = 0
          /\ percentageOf 23 40 = exactPercentage 23 40 - 1)%Z).
Proof.
  apply (percentages_in_range 23 40).
  - split; [apply Nat.lt_0_succ|]. apply Nat.leb_le. reflexivity.
  - apply Nat.leb_le. reflexivity.
Defined.
